(** * Akumuli daemon (akumulid): configuration, startup, UDP ingestion and
      query pooling, embedded in Rocq.

    The development follows the sources:
    - [src/akumulid/main.cpp]  : [ConfigFile], [cli_format], [cmd_run_server],
      [main], and (second half of the file) [UdpServer];
    - [src/unnamed/part_000]   : the declaration of [QueryResultsPooler].

    C++ values are modelled as follows: [u64], [i32], [int] and
    [unsigned short] are [Z] with the wrap-around written out; [std::string]
    is [string]; exceptions, [exit] and undefined behaviour are the
    constructors of [outcome]; the file system and the standard streams are
    the fields of [world]. *)

From Stdlib Require Import ZArith String Ascii List Lia Bool Permutation DecimalString.
From stdpp Require Import gmap strings list.

Set Warnings "-register-all".

Local Open Scope string_scope.
Local Open Scope Z_scope.

(** ** Outcomes of C++ computations *)

Module Cxx.

(** What running a piece of C++ yields: a value, a thrown exception (with its
    [what()] text), a call to [exit], or undefined behaviour. *)
Inductive outcome (A : Type) : Type :=
| Ret (a : A)
| Throw (what : string)
| Exit (code : Z)
| Undefined.

Arguments Ret {A} a.
Arguments Throw {A} what.
Arguments Exit {A} code.
Arguments Undefined {A}.

Definition bind {A B} (m : outcome A) (k : A -> outcome B) : outcome B :=
  match m with
  | Ret a => k a
  | Throw w => Throw w
  | Exit c => Exit c
  | Undefined => Undefined
  end.

Definition EXIT_SUCCESS : Z := 0.
Definition EXIT_FAILURE : Z := 1.

Definition u64_max : Z := 2 ^ 64 - 1.
Definition wrap_u64 (z : Z) : Z := z mod 2 ^ 64.

(** [static_cast<int>(u64)]: two's complement reinterpretation of the low
    32 bits. *)
Definition cast_u64_to_int (z : Z) : Z :=
  let low := z mod 2 ^ 32 in
  if low <? 2 ^ 31 then low else low - 2 ^ 32.

(** [static_cast<unsigned>(int)] *)
Definition cast_int_to_unsigned (z : Z) : Z := z mod 2 ^ 32.

End Cxx.
Export Cxx.

#[export] Instance outcome_bind : MBind outcome := fun _ _ k m => bind m k.
#[export] Instance outcome_ret : MRet outcome := fun _ a => Ret a.

(** ** [std::string] and the conversions the daemon uses *)

Module StdString.

(** [s.back()]: the last character; [None] on the empty string, where the
    C++ call reads out of bounds. *)
Fixpoint back (s : string) : option ascii :=
  match s with
  | EmptyString => None
  | String c rest =>
      match rest with
      | EmptyString => Some c
      | String _ _ => back rest
      end
  end.

(** [s.pop_back()]: the string without its last character; [None] on the
    empty string, where the C++ call erases out of bounds. *)
Fixpoint pop_back (s : string) : option string :=
  match s with
  | EmptyString => None
  | String c rest =>
      match rest with
      | EmptyString => Some EmptyString
      | String _ _ => option_map (String c) (pop_back rest)
      end
  end.

Definition checked {A} (o : option A) : outcome A :=
  match o with
  | Some a => Ret a
  | None => Undefined
  end.

Definition ascii_eqb (a b : ascii) : bool := Ascii.eqb a b.

Definition is_digit (c : ascii) : bool :=
  let n := Z.of_nat (nat_of_ascii c) in (48 <=? n) && (n <=? 57).

Definition digit_value (c : ascii) : Z := Z.of_nat (nat_of_ascii c) - 48.

(** Value of a run of decimal digits read left to right; [None] when a
    character is not a digit. The empty run has value [acc]. *)
Fixpoint digits_value (acc : Z) (s : string) : option Z :=
  match s with
  | EmptyString => Some acc
  | String c rest =>
      if is_digit c then digits_value (10 * acc + digit_value c) rest else None
  end.

(** Splits an optional leading sign off: [(negative, rest)]. *)
Definition split_sign (s : string) : bool * string :=
  match s with
  | String c rest =>
      if ascii_eqb c "-" then (true, rest)
      else if ascii_eqb c "+" then (false, rest)
      else (false, s)
  | EmptyString => (false, s)
  end.

(** A non-empty run of decimal digits. *)
Definition magnitude (s : string) : option Z :=
  match s with
  | EmptyString => None
  | _ => digits_value 0 s
  end.

(** [boost::lexical_cast<u64>(s)] ([None] is [bad_lexical_cast]): an optional
    sign, then at least one digit and nothing else; the magnitude has to fit
    64 bits; a leading minus negates modulo [2^64]. *)
Definition lexical_cast_u64 (s : string) : option Z :=
  let '(neg, body) := split_sign s in
  match magnitude body with
  | Some m =>
      if m <=? u64_max then Some (if neg then wrap_u64 (0 - m) else m) else None
  | None => None
  end.

(** [std::istream >> T] for an unsigned [bits]-wide [T], on a value that holds
    nothing but the number (configuration values arrive trimmed). *)
Definition extract_unsigned (bits : Z) (s : string) : option Z :=
  let '(neg, body) := split_sign s in
  match magnitude body with
  | Some m =>
      if m <=? 2 ^ bits - 1
      then Some (if neg then (0 - m) mod 2 ^ bits else m)
      else None
  | None => None
  end.

(** [std::istream >> T] for a signed [bits]-wide [T]. *)
Definition extract_signed (bits : Z) (s : string) : option Z :=
  let '(neg, body) := split_sign s in
  match magnitude body with
  | Some m =>
      if neg
      then (if m <=? 2 ^ (bits - 1) then Some (0 - m) else None)
      else (if m <=? 2 ^ (bits - 1) - 1 then Some m else None)
  | None => None
  end.

Definition is_space (c : ascii) : bool :=
  let n := nat_of_ascii c in
  (Nat.eqb n 32) || ((Nat.leb 9 n) && (Nat.leb n 13)).

Fixpoint trim_left (s : string) : string :=
  match s with
  | String c rest => if is_space c then trim_left rest else s
  | EmptyString => s
  end.

(** Drops the trailing white space: a character is kept when something
    that is not white space follows it or it is not white space itself. *)
Fixpoint trim_right (s : string) : string :=
  match s with
  | EmptyString => EmptyString
  | String c rest =>
      match trim_right rest with
      | EmptyString => if is_space c then EmptyString else String c EmptyString
      | kept => String c kept
      end
  end.

(** [boost::property_tree::detail::trim] *)
Definition trim (s : string) : string := trim_right (trim_left s).

(** [s.find(c)]: the part before the first [c] and the part after it. *)
Fixpoint split_at_char (c : ascii) (s : string) : option (string * string) :=
  match s with
  | EmptyString => None
  | String d rest =>
      if ascii_eqb c d then Some (EmptyString, rest)
      else match split_at_char c rest with
           | Some (before, after) => Some (String d before, after)
           | None => None
           end
  end.

(** The pieces of [s] between occurrences of [c]. *)
Fixpoint split_on (c : ascii) (s : string) : list string :=
  match s with
  | EmptyString => [EmptyString]
  | String d rest =>
      if ascii_eqb c d then EmptyString :: split_on c rest
      else match split_on c rest with
           | piece :: pieces => String d piece :: pieces
           | [] => [String d EmptyString]
           end
  end.


(** Decimal rendering of an integer, as [operator<<] prints it. *)
Definition show_Z (z : Z) : string :=
  let digits (p : positive) := NilEmpty.string_of_uint (Pos.to_uint p) in
  match z with
  | Z0 => "0"
  | Zpos p => digits p
  | Zneg p => "-" ++ digits p
  end.

End StdString.
Export StdString.

(** ** [boost::property_tree::ptree] and the INI reader *)

Module PTree.

(** A property tree: the node's own data and its children in insertion
    order (keys may repeat). *)
Inductive ptree : Type :=
| PNode (data : string) (children : list (string * ptree)).

Definition data (t : ptree) : string := let 'PNode d _ := t in d.
Definition children (t : ptree) : list (string * ptree) := let 'PNode _ c := t in c.
Definition leaf (d : string) : ptree := PNode d [].

Fixpoint assoc_find {A} (key : string) (l : list (string * A)) : option A :=
  match l with
  | [] => None
  | (k, v) :: rest => if String.eqb key k then Some v else assoc_find key rest
  end.

(** [t.find(key)]: the first direct child under [key]. *)
Definition find (key : string) (t : ptree) : option ptree :=
  assoc_find key (children t).

(** [t.count(key)] *)
Definition count (key : string) (t : ptree) : nat :=
  length (List.filter (fun kv => String.eqb key (fst kv)) (children t)).

Fixpoint walk_path (keys : list string) (t : ptree) : option ptree :=
  match keys with
  | [] => Some t
  | k :: ks =>
      match find k t with
      | Some child => walk_path ks child
      | None => None
      end
  end.

(** The keys of a dotted path. Every path the daemon asks for is a literal
    with non-empty keys. *)
Definition split_path (path : string) : list string :=
  match path with
  | EmptyString => []
  | _ => split_on "." path
  end.

Definition get_child_optional (path : string) (t : ptree) : option ptree :=
  walk_path (split_path path) t.

(** [t.get_optional<T>(path)] with the translator of [T]. *)
Definition get_optional {A} (tr : string -> option A) (path : string) (t : ptree)
  : option A :=
  match get_child_optional path t with
  | Some child => tr (data child)
  | None => None
  end.

(** [t.get<T>(path)]: throws [ptree_bad_path] or [ptree_bad_data]. *)
Definition get {A} (tr : string -> option A) (path : string) (t : ptree)
  : outcome A :=
  match get_child_optional path t with
  | None => Throw ("No such node (" ++ path ++ ")")
  | Some child =>
      match tr (data child) with
      | Some v => Ret v
      | None => Throw ("conversion of data to type failed")
      end
  end.

(** [t.get<T>(path, default_value)] *)
Definition get_or {A} (tr : string -> option A) (path : string) (default : A)
    (t : ptree) : A :=
  match get_optional tr path t with
  | Some v => v
  | None => default
  end.

Definition as_string (s : string) : option string := Some s.
Definition as_int : string -> option Z := extract_signed 32.
Definition as_i32 : string -> option Z := extract_signed 32.
Definition as_ushort : string -> option Z := extract_unsigned 16.

(** *** [ini_parser::read_ini] *)

(** The reader's state: [local] holds the root keys and the finished
    sections; [section] is the section being filled, which the C++ code keeps
    as the last child of [local]. *)
Record ini_state : Type := {
  local : list (string * ptree);
  section : option (string * list (string * ptree))
}.

Definition ini_start : ini_state := {| local := []; section := None |}.

(** An empty section is dropped again; otherwise it stays in the tree. *)
Definition close_section (st : ini_state) : list (string * ptree) :=
  match section st with
  | Some (name, []) => local st
  | Some (name, kids) => (local st ++ [(name, PNode "" kids)])%list
  | None => local st
  end.

Definition ini_line (line : string) (st : ini_state) : string + ini_state :=
  let line := trim line in
  match line with
  | EmptyString => inr st
  | String c rest =>
      if ascii_eqb c ";" || ascii_eqb c "#" then inr st
      else if ascii_eqb c "[" then
        let closed := close_section st in
        match split_at_char "]" line with
        | None => inl "unmatched '['"
        | Some (before, _) =>
            let key := trim (match before with
                             | String _ inner => inner
                             | EmptyString => EmptyString
                             end) in
            match assoc_find key closed with
            | Some _ => inl "duplicate section name"
            | None => inr {| local := closed; section := Some (key, []) |}
            end
        end
      else
        match split_at_char "=" line with
        | None => inl "'=' character not found in line"
        | Some (EmptyString, _) => inl "key expected"
        | Some (String b before, after) =>
            let key := trim (String b before) in
            let value := trim after in
            match section st with
            | Some (name, kids) =>
                match assoc_find key kids with
                | Some _ => inl "duplicate key name"
                | None =>
                    inr {| local := local st;
                           section := Some (name, (kids ++ [(key, leaf value)])%list) |}
                end
            | None =>
                match assoc_find key (local st) with
                | Some _ => inl "duplicate key name"
                | None =>
                    inr {| local := (local st ++ [(key, leaf value)])%list;
                           section := None |}
                end
            end
        end
  end.

Fixpoint ini_lines (file : string) (line_no : nat) (lines : list string)
    (st : ini_state) : outcome ptree :=
  match lines with
  | [] => Ret (PNode "" (close_section st))
  | line :: rest =>
      match ini_line line st with
      | inl message =>
          Throw (file ++ "(" ++ show_Z (Z.of_nat line_no) ++ "): " ++ message)
      | inr st' => ini_lines file (S line_no) rest st'
      end
  end.

(** [read_ini] on the text of the file called [file]. *)
Definition read_ini (file : string) (text : string) : outcome ptree :=
  ini_lines file 1 (split_on "010" text) ini_start.

End PTree.
Export PTree.

(** ** [boost::format] with positional directives *)

Module BoostFormat.

(** [boost::str(boost::format(fmt) % arg)] for a format whose only
    directives are [%1%] and the escape [%%], which is all [DEFAULT_CONFIG]
    holds; another directive is rejected. *)
Fixpoint format1 (fmt : string) (arg : string) : option string :=
  match fmt with
  | EmptyString => Some EmptyString
  | String "%" (String "%" rest) =>
      option_map (String "%") (format1 rest arg)
  | String "%" (String "1" (String "%" rest)) =>
      option_map (String.append arg) (format1 rest arg)
  | String "%" _ => None
  | String c rest => option_map (String c) (format1 rest arg)
  end.

End BoostFormat.
Export BoostFormat.

(** ** The process: file system, standard streams, environment *)

Module Process.

Inductive fsnode : Type :=
| File (content : string)
| Directory.

(** What the daemon asks of the storage engine and of the server framework,
    in the order it asks. *)
Record aku_FineTuneParams : Type := {
  input_log_concurrency : Z;
  input_log_path : option string;
  input_log_volume_numb : Z;
  input_log_volume_size : Z
}.

(** [aku_FineTuneParams params = {}] *)
Definition no_params : aku_FineTuneParams :=
  {| input_log_concurrency := 0; input_log_path := None;
     input_log_volume_numb := 0; input_log_volume_size := 0 |}.

Record endpoint : Type := { address : list Z; port : Z }.

Record ProtocolSettings : Type := { proto_name : string; proto_endpoint : endpoint }.

Record ServerSettings : Type := {
  name : string;
  protocols : list ProtocolSettings;
  nworkers : Z
}.

Record WALSettings : Type := {
  wal_path : string;
  wal_nvolumes : Z;
  volume_size_bytes : Z
}.

Inductive sys_event : Type :=
| OpenConnection (path : string) (params : aku_FineTuneParams)
| StartServer (settings : ServerSettings) (id : Z)
| CreateDatabase (path : string) (nvolumes volume_size : Z) (allocate : bool)
| RemoveDatabase (path wal_path : string)
| DebugDump (path : string) (out : option string)
| RecoveryDump (path : string) (out : option string).

Record world : Type := {
  fs : gmap string fsnode;
  cout : list string;
  cerr : list string;
  logs : list string;
  calls : list sys_event
}.

(** A computation of the process: it may change the world and ends as an
    [outcome]. *)
Definition proc (A : Type) : Type := world -> outcome A * world.

Definition proc_ret {A} (a : A) : proc A := fun w => (Ret a, w).

Definition proc_bind {A B} (m : proc A) (k : A -> proc B) : proc B :=
  fun w =>
    match m w with
    | (Ret a, w') => k a w'
    | (Throw what, w') => (Throw what, w')
    | (Exit code, w') => (Exit code, w')
    | (Undefined, w') => (Undefined, w')
    end.

#[export] Instance proc_mbind : MBind proc := fun _ _ k m => proc_bind m k.
#[export] Instance proc_mret : MRet proc := fun _ a => proc_ret a.

Definition lift {A} (o : outcome A) : proc A := fun w => (o, w).
Definition throw {A} (what : string) : proc A := lift (Throw what).
Definition exit {A} (code : Z) : proc A := lift (Exit code).

Definition exists_ (path : string) : proc bool :=
  fun w => (Ret (bool_decide (is_Some (fs w !! path))), w).

Definition print_out (line : string) : proc unit :=
  fun w => (Ret tt, {| fs := fs w; cout := cout w ++ [line]; cerr := cerr w;
                       logs := logs w; calls := calls w |}).

Definition print_err (line : string) : proc unit :=
  fun w => (Ret tt, {| fs := fs w; cout := cout w; cerr := cerr w ++ [line];
                       logs := logs w; calls := calls w |}).

Definition log_info (line : string) : proc unit :=
  fun w => (Ret tt, {| fs := fs w; cout := cout w; cerr := cerr w;
                       logs := logs w ++ [line]; calls := calls w |}).

(** The world after one more line in the log. *)
Definition logged_line (line : string) (w : world) : world :=
  snd (log_info line w).

Definition record_call (e : sys_event) : proc unit :=
  fun w => (Ret tt, {| fs := fs w; cout := cout w; cerr := cerr w;
                       logs := logs w; calls := calls w ++ [e] |}).

Definition set_fs (f : gmap string fsnode) : proc unit :=
  fun w => (Ret tt, {| fs := f; cout := cout w; cerr := cerr w;
                       logs := logs w; calls := calls w |}).

(** [std::ofstream stream(path); stream << text; stream.close()] *)
Definition write_file (path text : string) : proc unit :=
  fun w => set_fs (<[path := File text]> (fs w)) w.

(** What the process finds around it. [wordexp] is the libc expansion
    ([None] for a non-zero return, otherwise the words); [sighandler_wait]
    is [SignalHandler::wait] on the ids registered so far. The engine and
    server calls answer with a status or an exception; the engine may change
    the file system. *)
Record environ : Type := {
  HOME : option string;
  isatty_stdout : bool;
  wordexp : string -> option (list string);
  hardware_concurrency : Z;
  AKU_VERSION : string;
  connect : string -> aku_FineTuneParams -> outcome unit;
  create_and_start : ServerSettings -> Z -> outcome unit;
  sighandler_wait : list Z -> list Z;
  aku_create_database_ex :
    string -> Z -> Z -> bool -> gmap string fsnode -> Z * gmap string fsnode;
  aku_remove_database :
    string -> string -> gmap string fsnode -> Z * gmap string fsnode;
  aku_debug_report_dump : string -> option string -> Z;
  aku_debug_recovery_report_dump : string -> option string -> Z;
  apr_strerror : Z -> string
}.

Definition APR_SUCCESS : Z := 0.

Definition dquote : string := String (ascii_of_nat 34) EmptyString.

(** [operator<<] on a [boost::filesystem::path]: the path between double
    quotes, with [&] before each quote or ampersand inside. *)
Fixpoint escape_path (p : string) : string :=
  match p with
  | EmptyString => EmptyString
  | String c rest =>
      if ascii_eqb c (ascii_of_nat 34) || ascii_eqb c "&"
      then String "&" (String c (escape_path rest))
      else String c (escape_path rest)
  end.

Definition quoted (p : string) : string := dquote ++ escape_path p ++ dquote.

(** [boost::filesystem::path::operator/] *)
Definition path_append (p q : string) : string :=
  match back p with
  | None => q
  | Some c => if ascii_eqb c "/" then p ++ q else p ++ "/" ++ q
  end.

End Process.
Export Process.

(** ** Texts of the daemon *)

Module Texts.

(** Default configuration for [akumulid] *)
Definition DEFAULT_CONFIG : string := "# akumulid configuration file (generated automatically).

# path to database files.  Default values is  ~/.akumuli.
path=~/.akumuli

# Number of volumes used  to store data.  Each volume  is
# 4Gb in size by default and allocated beforehand. To change number
# of  volumes  they  should  change  `nvolumes`  value in
# configuration and restart daemon.
nvolumes=%1%

# Size of the individual volume. You can use MB or GB suffix.
# Default value is 4GB (if value is not set).
volume_size=4GB


# HTTP API endpoint configuration

[HTTP]
# port number
port=8181


# TCP ingestion server config (delete to disable)

[TCP]
# port number
port=8282
# worker pool size (0 means that the size of the pool will be chosen automatically)
pool_size=0


# UDP ingestion server config (delete to disable)

[UDP]
# port number
port=8383
# worker pool size
pool_size=1

# OpenTSDB telnet-style data connection enabled (remove this section to disable).

[OpenTSDB]
# port number
port=4242


# Logging configuration
# This is just a log4cxx configuration without any modifications

log4j.rootLogger=all, file
log4j.appender.file=org.apache.log4j.DailyRollingFileAppender
log4j.appender.file.layout=org.apache.log4j.PatternLayout
log4j.appender.file.layout.ConversionPattern=%%d{yyyy-MM-dd HH:mm:ss,SSS} [%%t] %%c [%%p] %%m%%n
log4j.appender.file.filename=/tmp/akumuli.log
log4j.appender.file.datePattern='.'yyyy-MM-dd

".

Definition WAL_CONFIG : string := "# Write-Ahead-Log section (delete to disable)

[WAL]
# WAL location
path=~/.akumuli

# Max volume size. Log records are added until file size
# will exced configured value.
volume_size=256MB

# Number of log volumes to keep on disk per CPU core. E.g. with `volume_size` = 256MB
# and `nvolumes` = 4 and 4 CPUs WAL will use 4GB at most (4*4*256MB).
nvolumes=4

".

(** Help message used in CLI. *)
Definition CLI_HELP_MESSAGE : string := "`akumulid` - time-series database daemon

**SYNOPSIS**
        akumulid

        akumulid --help

        akumulid --init

        akumulid --init-expandable

        akumulid --create

        akumuild --delete

**DESCRIPTION**
        **akumulid** is a time-series database daemon.
        All configuration can be done via `~/.akumulid` configuration
        file.

**OPTIONS**
        **help**
            produce help message and exit

        **init**
            create  configuration  file at `~/.akumulid`  filled with
            default values and exit

        **init-expandable**
            create  configuration  file at `~/.akumulid`  filled with
            default values and exit (sets nvolumes to 0)

        **create**
            generate database files in `~/.akumuli` folder, use with
            --allocate flag to actually allocate disk space

        **delete**
            delete database files in `~/.akumuli` folder

        **(empty)**
            run server

".

End Texts.
Export Texts.

(** ** [struct ConfigFile] *)

Module ConfigFile.

Definition nl : string := String "010" EmptyString.

(** One part of a dotted quad, as [inet_pton] reads it: one to three digits,
    at most 255, no leading zero before another digit. *)
Definition octet (s : string) : option Z :=
  match s with
  | String "0" (String _ _) => None
  | _ =>
      match magnitude s with
      | Some v => if (v <=? 255) && (Nat.leb (String.length s) 3) then Some v else None
      | None => None
      end
  end.

(** [boost::asio::ip::address_v4::from_string] *)
Definition address_v4_from_string (s : string) : outcome (list Z) :=
  match List.map octet (split_on "." s) with
  | [Some a; Some b; Some c; Some d] => Ret [a; b; c; d]
  | _ => Throw "Invalid argument"
  end.

(** [boost::asio::ip::tcp::v4()] used as the address of an endpoint *)
Definition any_v4 : list Z := [0; 0; 0; 0].

(** [u64 get_memory_size(std::string strsize)] *)
Definition throw_decode_error {A} (strsize : string) : outcome A :=
  Throw ("can't decode volume size: `" ++ strsize ++ "`").

Definition get_memory_size (strsize : string) : outcome Z :=
  match lexical_cast_u64 strsize with
  | Some result => Ret result
  | None =>
      (* Try to read suffix (GB or MB) *)
      let tmp := strsize in
      last ← checked (back tmp);
      (if negb (ascii_eqb last "B") && negb (ascii_eqb last "b")
       then throw_decode_error strsize else Ret tt);;
      tmp ← checked (pop_back tmp);
      symbol ← checked (back tmp);
      tmp ← checked (pop_back tmp);
      mul ← (if ascii_eqb symbol "G" || ascii_eqb symbol "g"
             then Ret (1024 * 1024 * 1024)
             else if ascii_eqb symbol "M" || ascii_eqb symbol "m"
             then Ret (1024 * 1024)
             else throw_decode_error strsize);
      match lexical_cast_u64 tmp with
      | Some result => Ret (wrap_u64 (result * mul))
      | None => throw_decode_error strsize
      end
  end.

Definition get_nvolumes (conf : ptree) : outcome Z :=
  get as_i32 "nvolumes" conf.

Definition get_volume_size (conf : ptree) : outcome Z :=
  get_memory_size (get_or as_string "volume_size" "4GB" conf).

Definition get_http_server (conf : ptree) : outcome ServerSettings :=
  match get_optional as_string "HTTP.bind_addr" conf with
  | Some ip =>
      addr ← address_v4_from_string ip;
      port ← get as_ushort "HTTP.port" conf;
      Ret {| name := "HTTP";
             protocols := [ {| proto_name := "HTTP";
                               proto_endpoint := {| address := addr; port := port |} |} ];
             nworkers := -1 |}
  | None =>
      port ← get as_ushort "HTTP.port" conf;
      Ret {| name := "HTTP";
             protocols := [ {| proto_name := "HTTP";
                               proto_endpoint := {| address := any_v4; port := port |} |} ];
             nworkers := -1 |}
  end.

Definition get_udp_server (conf : ptree) : outcome ServerSettings :=
  match get_optional as_string "UDP.bind_addr" conf with
  | Some ip =>
      addr ← address_v4_from_string ip;
      port ← get as_ushort "UDP.port" conf;
      pool ← get as_int "UDP.pool_size" conf;
      Ret {| name := "UDP";
             protocols := [ {| proto_name := "UDP";
                               proto_endpoint := {| address := addr; port := port |} |} ];
             nworkers := pool |}
  | None =>
      port ← get as_ushort "UDP.port" conf;
      pool ← get as_int "UDP.pool_size" conf;
      Ret {| name := "UDP";
             protocols := [ {| proto_name := "UDP";
                               proto_endpoint := {| address := any_v4; port := port |} |} ];
             nworkers := pool |}
  end.

Definition get_tcp_server (conf : ptree) : outcome ServerSettings :=
  resp ← match get_optional as_string "TCP.bind_addr" conf with
         | Some ip =>
             addr ← address_v4_from_string ip;
             port ← get as_ushort "TCP.port" conf;
             Ret {| proto_name := "RESP";
                    proto_endpoint := {| address := addr; port := port |} |}
         | None =>
             port ← get as_ushort "TCP.port" conf;
             Ret {| proto_name := "RESP";
                    proto_endpoint := {| address := any_v4; port := port |} |}
         end;
  tsdb ← (if Nat.eqb (count "OpenTSDB" conf) 0 then Ret []
          else match get_optional as_string "OpenTSDB.bind_addr" conf with
               | Some oip =>
                   addr ← address_v4_from_string oip;
                   port ← get as_ushort "OpenTSDB.port" conf;
                   Ret [ {| proto_name := "OpenTSDB";
                            proto_endpoint := {| address := addr; port := port |} |} ]
               | None =>
                   port ← get as_ushort "OpenTSDB.port" conf;
                   Ret [ {| proto_name := "OpenTSDB";
                            proto_endpoint := {| address := any_v4; port := port |} |} ]
               end);
  pool ← get as_int "TCP.pool_size" conf;
  Ret {| name := "TCP"; protocols := resp :: tsdb; nworkers := pool |}.

(** The [std::map] of section names, walked in key order. *)
Definition mapping : list (string * (ptree -> outcome ServerSettings)) :=
  [ ("HTTP", get_http_server); ("TCP", get_tcp_server); ("UDP", get_udp_server) ].

Fixpoint collect_servers (m : list (string * (ptree -> outcome ServerSettings)))
    (conf : ptree) : outcome (list ServerSettings) :=
  match m with
  | [] => Ret []
  | (key, getter) :: rest =>
      if Nat.eqb (count key conf) 0 then collect_servers rest conf
      else
        settings ← getter conf;
        others ← collect_servers rest conf;
        Ret (settings :: others)
  end.

Definition get_server_settings (conf : ptree) : outcome (list ServerSettings) :=
  collect_servers mapping conf.

Section WithEnvironment.

Variable env : environ.

Definition expand_path (path : string) : outcome string :=
  match wordexp env path with
  | None => Throw ("invalid path: `" ++ path ++ "`")
  | Some [word] => Ret word
  | Some _ => Throw ("expansion error, path: `" ++ path ++ "`")
  end.

(** [getenv("HOME")] is a null pointer when the variable is unset, and a
    path cannot be built from it. *)
Definition get_config_path (config_path : option string) : outcome string :=
  match config_path with
  | Some p => expand_path p
  | None =>
      match HOME env with
      | Some home => Ret (path_append home ".akumulid")
      | None => Undefined
      end
  end.

Definition init_config (path : string) (disable_wal : bool) : proc unit :=
  present ← exists_ path;
  if (present : bool) then throw "configuration file already exists"
  else
    write_file path "";;
    let nvolumes := 4 in
    match format1 DEFAULT_CONFIG (show_Z nvolumes) with
    | None => throw "boost::bad_format_string: format-string is ill-formed"
    | Some config =>
        write_file path
          (config ++ nl ++ (if disable_wal then "" else WAL_CONFIG ++ nl))
    end.

Definition init_exp_config (path : string) (disable_wal : bool) : proc unit :=
  present ← exists_ path;
  if (present : bool) then throw "configuration file already exists"
  else
    write_file path "";;
    let nvolumes := 0 in
    match format1 DEFAULT_CONFIG (show_Z nvolumes) with
    | None => throw "boost::bad_format_string: format-string is ill-formed"
    | Some config =>
        write_file path
          (config ++ nl ++ (if disable_wal then "" else WAL_CONFIG ++ nl))
    end.

Definition read_config_file (file_path : string) : proc ptree :=
  fun w =>
    match fs w !! file_path with
    | None => (Throw ("can't read config file `" ++ quoted file_path ++ "`"), w)
    | Some (File text) => (read_ini file_path text, w)
    | Some Directory => (Throw (file_path ++ "(1): read error"), w)
    end.

Definition get_path (conf : ptree) : outcome string :=
  p ← get as_string "path" conf;
  expand_path p.

Definition no_wal : WALSettings :=
  {| wal_path := ""; wal_nvolumes := 0; volume_size_bytes := 0 |}.

Definition get_wal_settings (conf : ptree) : proc WALSettings :=
  match find "WAL" conf with
  | Some _ =>
      log_info "WAL is enabled in configuration";;
      path ← lift (expand_path (get_or as_string "WAL.path" "" conf));
      present ← exists_ path;
      if (present : bool) then
        let nvolumes := get_or as_int "WAL.nvolumes" 0 conf in
        bytes ← lift (get_memory_size (get_or as_string "WAL.volume_size" "0" conf));
        mret {| wal_path := path; wal_nvolumes := nvolumes;
                volume_size_bytes := cast_u64_to_int bytes |}
      else throw "WAL.path doesn't exist"
  | None =>
      log_info "WAL is disabled in configuration";;
      mret no_wal
  end.

End WithEnvironment.

End ConfigFile.

(** ** The commands of the daemon and [main] *)

Module Daemon.
Import ConfigFile.

(** This is a database size on CI *)
Definition AKU_TEST_DB_SIZE : Z := 2 * 1024 * 1024.

Definition ESC : string := String (ascii_of_nat 27) EmptyString.
Definition BOLD : string := ESC ++ "[1m".
Definition EMPH : string := ESC ++ "[3m".
Definition UNDR : string := ESC ++ "[4m".
Definition NORM : string := ESC ++ "[0m".

(** The [format] lambda of [cli_format]: every occurrence of [pattern], left
    to right, is replaced by [open] (even occurrences) or [NORM] (odd ones).
    [skip] counts the characters of a matched pattern still to drop. The C++
    loop searches again from the place of the replacement; the codes hold no
    pattern character, so that is this left-to-right scan. *)
Fixpoint format_tokens (pattern open : string) (token_num skip : nat)
    (line : string) : string :=
  match line with
  | EmptyString => EmptyString
  | String c rest =>
      match skip with
      | S k => format_tokens pattern open token_num k rest
      | O =>
          if String.prefix pattern line then
            (if Nat.even token_num then open else NORM)
              ++ format_tokens pattern open (S token_num)
                   (Nat.pred (String.length pattern)) rest
          else String c (format_tokens pattern open token_num 0 rest)
      end
  end.

(** The same with every code empty ([plain_text]). *)
Fixpoint strip_tokens (pattern : string) (skip : nat) (line : string) : string :=
  match line with
  | EmptyString => EmptyString
  | String c rest =>
      match skip with
      | S k => strip_tokens pattern k rest
      | O =>
          if String.prefix pattern line
          then strip_tokens pattern (Nat.pred (String.length pattern)) rest
          else String c (strip_tokens pattern 0 rest)
      end
  end.

(** The lines [std::getline] yields: the pieces between newlines, without a
    last empty piece. *)
Definition getlines (text : string) : list string :=
  let pieces := split_on "010" text in
  match List.last pieces "x" with
  | EmptyString => List.removelast pieces
  | _ => pieces
  end.

Definition show_endpoint (e : endpoint) : string :=
  String.concat "." (List.map show_Z (address e)) ++ ":" ++ show_Z (port e).

(** The texts [cmd_run_server] prints about the WAL settings. *)
Definition msg_wal_nvolumes (nvolumes : Z) : string :=
  "**ERROR** invalid configuration value WAL.nvolumes = " ++ show_Z nvolumes
  ++ ", value should not exceed 1000 or be equal to 1".

Definition msg_wal_volume_size (bytes : Z) : string :=
  "**ERROR** invalid configuration value WAL.volume_size = " ++ show_Z bytes
  ++ ", size should be in 1MB-1GB range".

Definition msg_wal_path (path : string) : string :=
  "**ERROR** invalid configuration value WAL.path = " ++ path
  ++ ", directory doesn't exist".

Definition msg_no_database (path : string) : string :=
  "**ERROR** database file doesn't exists at " ++ quoted path.

Definition msg_config_created (path : string) : string :=
  "**OK** configuration file created at: `" ++ quoted path ++ "`".

Section WithEnvironment.

Variable env : environ.

(** Format text for console. [plain_text] flag removes formatting. *)
Definition cli_format (dest : string) : string :=
  let plain_text := negb (isatty_stdout env) in
  if plain_text then
    strip_tokens "`" 0 (strip_tokens "__" 0 (strip_tokens "**" 0 dest))
  else
    format_tokens "`" UNDR 0 0
      (format_tokens "__" EMPH 0 0 (format_tokens "**" BOLD 0 0 dest)).

(** Convert markdown subset to console escape codes and print *)
Fixpoint print_lines (lines : list string) : proc unit :=
  match lines with
  | [] => mret tt
  | line :: rest => print_out (cli_format line);; print_lines rest
  end.

Definition rich_print (msg : string) : proc unit := print_lines (getlines msg).

(** Create database if database not exists. *)
Definition create_db_files (path : string) (nvolumes volume_size : Z)
    (allocate : bool) : proc unit :=
  let full_path := path_append path "db.akumuli" in
  present ← exists_ full_path;
  if (present : bool) then
    print_out (cli_format "**ERROR** database file already exists")
  else
    fun w =>
      let '(status, fs') :=
        aku_create_database_ex env path nvolumes volume_size allocate (fs w) in
      (set_fs fs';;
       record_call (CreateDatabase path nvolumes volume_size allocate);;
       if status =? APR_SUCCESS then
         print_out (cli_format ("**OK** database created, path: `" ++ path ++ "`"))
       else
         throw ("can't create database: " ++ apr_strerror env status)) w.

(** The largest worker count among the servers, as [unsigned]. *)
Fixpoint max_concurrency (servers : list ServerSettings) (log_ccr : Z) : Z :=
  match servers with
  | [] => log_ccr
  | settings :: rest =>
      let ccr := if nworkers settings <? 0 then hardware_concurrency env
                 else cast_int_to_unsigned (nworkers settings) in
      max_concurrency rest (Z.max log_ccr ccr)
  end.

(** The three checks of the WAL settings: each failed check prints its
    message and clears [use_wal]. *)
Definition check_wal (wal_config : WALSettings) : proc bool :=
  let use_wal := true in
  use_wal ←
    (if (wal_nvolumes wal_config <? 0) || (wal_nvolumes wal_config >? 1000)
        || (wal_nvolumes wal_config =? 1)
     then
       print_out (cli_format (msg_wal_nvolumes (wal_nvolumes wal_config)));;
       mret false
     else mret use_wal);
  use_wal ←
    (if (volume_size_bytes wal_config <? 1048576)
        || (volume_size_bytes wal_config >? 1073741824)
     then
       print_out (cli_format (msg_wal_volume_size (volume_size_bytes wal_config)));;
       mret false
     else mret use_wal);
  present ← exists_ (wal_path wal_config);
  if (present : bool) then mret use_wal
  else
    print_out (cli_format (msg_wal_path (wal_path wal_config)));;
    mret false.

(** The engine parameters [cmd_run_server] derives from the WAL settings. *)
Definition wal_params (servers : list ServerSettings) (wal_config : WALSettings)
  : proc aku_FineTuneParams :=
  let params := no_params in
  if negb (String.eqb (wal_path wal_config) "")
     && negb (wal_nvolumes wal_config =? 0)
     && negb (volume_size_bytes wal_config =? 0)
  then
    let log_ccr := max_concurrency servers 0 in
    use_wal ← check_wal wal_config;
    if (use_wal : bool) then
      mret {| input_log_concurrency := log_ccr;
              input_log_path := Some (wal_path wal_config);
              input_log_volume_numb := wrap_u64 (wal_nvolumes wal_config);
              input_log_volume_size := wrap_u64 (volume_size_bytes wal_config) |}
    else mret params
  else mret params.

Definition announce_started (settings : ServerSettings) : proc unit :=
  match protocols settings with
  | [protocol] =>
      print_out (cli_format "**OK** " ++ name settings
                 ++ " server started, endpoint: "
                 ++ show_endpoint (proto_endpoint protocol))
  | several =>
      (fix log_protocols (ps : list ProtocolSettings) : proc unit :=
         match ps with
         | [] => mret tt
         | protocol :: rest =>
             log_info ("Protocol: " ++ proto_name protocol ++ " endpoint: "
                       ++ show_endpoint (proto_endpoint protocol));;
             log_protocols rest
         end) several;;
      print_out (cli_format "**OK** " ++ name settings ++ " server started"
                 ++ String.concat ""
                      (List.map (fun protocol =>
                                   ", " ++ proto_name protocol ++ " endpoint: "
                                   ++ show_endpoint (proto_endpoint protocol))
                                several))
  end.

(** The loop that creates and starts one server per settings entry; yields
    [srvnames]. *)
Fixpoint start_servers (servers : list ServerSettings) (srvid : Z)
    (srvnames : list (Z * string)) : proc (list (Z * string)) :=
  match servers with
  | [] => mret srvnames
  | settings :: rest =>
      lift (create_and_start env settings srvid);;
      record_call (StartServer settings srvid);;
      log_info ("Starting " ++ name settings ++ " index " ++ show_Z srvid);;
      announce_started settings;;
      start_servers rest (srvid + 1) (srvnames ++ [(srvid, name settings)])
  end.

Definition srvname (srvnames : list (Z * string)) (id : Z) : string :=
  match List.find (fun kv => fst kv =? id) srvnames with
  | Some kv => snd kv
  | None => ""
  end.

Fixpoint announce_stopped (srvnames : list (Z * string)) (srvids : list Z)
  : proc unit :=
  match srvids with
  | [] => mret tt
  | id :: rest =>
      print_out (cli_format "**OK** " ++ srvname srvnames id ++ " server stopped");;
      announce_stopped srvnames rest
  end.

(** The branch of [cmd_run_server] taken when the database file is there,
    from the connection on: connect, start every server, wait for the
    signal, report the servers stopped. *)
Definition run_servers (full_path : string) (params : aku_FineTuneParams)
    (ingestion_servers : list ServerSettings) : proc unit :=
  lift (connect env full_path params);;
  record_call (OpenConnection full_path params);;
  srvnames ← start_servers ingestion_servers 0 [];
  let srvids := sighandler_wait env (List.map fst srvnames) in
  announce_stopped srvnames srvids.

(** Read configuration file and run server.
    If config file can't be found - report error. *)
Definition cmd_run_server (cmd_config_path : option string) : proc unit :=
  config_path ← lift (get_config_path env cmd_config_path);
  config ← read_config_file config_path;
  path ← lift (get_path env config);
  ingestion_servers ← lift (get_server_settings config);
  wal_config ← get_wal_settings env config;
  let full_path := path_append path "db.akumuli" in
  present ← exists_ full_path;
  if negb present then
    print_out (cli_format (msg_no_database path))
  else
    params ← wal_params ingestion_servers wal_config;
    run_servers full_path params ingestion_servers.

(** Create database command. *)
Definition cmd_create_database (cmd_config_path : option string)
    (test_db allocate : bool) : proc unit :=
  config_path ← lift (get_config_path env cmd_config_path);
  config ← read_config_file config_path;
  path ← lift (get_path env config);
  volumes ← lift (get_nvolumes config);
  volsize ← lift (get_volume_size config);
  let volsize := if test_db then AKU_TEST_DB_SIZE else volsize in
  create_db_files path volumes volsize allocate.

Definition cmd_delete_database (cmd_config_path : option string) : proc unit :=
  config_path ← lift (get_config_path env cmd_config_path);
  config ← read_config_file config_path;
  path ← lift (get_path env config);
  wal ← get_wal_settings env config;
  let full_path := path_append path "db.akumuli" in
  present ← exists_ full_path;
  if negb present then
    print_out (cli_format "**ERROR** database file doesn't exists")
  else
    fun w =>
      let '(status, fs') := aku_remove_database env full_path (wal_path wal) (fs w) in
      (set_fs fs';;
       record_call (RemoveDatabase full_path (wal_path wal));;
       if status =? APR_SUCCESS then
         print_out (cli_format ("**OK** database at `" ++ quoted path ++ "` deleted"))
       else
         throw ("can't delete database: " ++ apr_strerror env status)) w.

Definition dump_with (dump : string -> option string -> Z)
    (note : string -> option string -> sys_event)
    (cmd_config_path : option string) (outfname : option string) : proc unit :=
  config_path ← lift (get_config_path env cmd_config_path);
  config ← read_config_file config_path;
  path ← lift (get_path env config);
  let full_path := path_append path "db.akumuli" in
  present ← exists_ full_path;
  if (present : bool) then
    let status := dump full_path outfname in
    record_call (note full_path outfname);;
    if status =? APR_SUCCESS then
      match outfname with
      | Some out =>
          print_out (cli_format ("**OK** `" ++ out ++ "` successfully generated for `"
                                 ++ quoted path ++ "`"))
      | None => mret tt
      end
    else throw ("can't dump debug info: " ++ apr_strerror env status)
  else
    print_out (cli_format "**ERROR** database file doesn't exists").

Definition cmd_dump_debug_information :=
  dump_with (aku_debug_report_dump env) DebugDump.

Definition cmd_dump_recovery_debug_information :=
  dump_with (aku_debug_recovery_report_dump env) RecoveryDump.

(** The options [main] reads from the [po::variables_map]. *)
Record variables_map : Type := {
  opt_help : bool;
  opt_config : option string;
  opt_create : bool;
  opt_allocate : bool;
  opt_delete : bool;
  opt_CI : bool;
  opt_init : bool;
  opt_init_expandable : bool;
  opt_disable_wal : bool;
  opt_debug_dump : option string;
  opt_debug_recovery_dump : option string;
  opt_version : bool
}.

Definition when (b : bool) (m : proc unit) : proc unit :=
  if b then m else mret tt.

Definition dump_target (path : string) : option string :=
  if String.eqb path "stdout" then None else Some path.

(** The header [main] writes to the log. *)
Definition banner (argv : list string) : string :=
  nl ++ nl ++ "Started v" ++ AKU_VERSION env ++ nl ++ nl
  ++ "Command line: "
  ++ String.concat "" (List.map (fun a => a ++ " ") argv) ++ nl ++ nl.

(** The [try] block of [main]. *)
Definition main_body (argv : list string) (vm : variables_map) : proc unit :=
  when (opt_help vm) (rich_print CLI_HELP_MESSAGE;; exit EXIT_SUCCESS);;
  let cmd_config_path := opt_config vm in
  path ← lift (get_config_path env cmd_config_path);
  log_info (banner argv);;
  when (opt_init vm)
    (init_config path (opt_disable_wal vm);;
     print_out (cli_format (msg_config_created path));;
     exit EXIT_SUCCESS);;
  when (opt_init_expandable vm)
    (init_exp_config path (opt_disable_wal vm);;
     print_out (cli_format (msg_config_created path));;
     exit EXIT_SUCCESS);;
  when (opt_create vm)
    (cmd_create_database cmd_config_path false (opt_allocate vm);;
     exit EXIT_SUCCESS);;
  when (opt_CI vm)
    (cmd_create_database cmd_config_path true false;; exit EXIT_SUCCESS);;
  when (opt_delete vm)
    (cmd_delete_database cmd_config_path;; exit EXIT_SUCCESS);;
  match opt_debug_dump vm with
  | Some path =>
      cmd_dump_debug_information cmd_config_path (dump_target path);;
      exit EXIT_SUCCESS
  | None => mret tt
  end;;
  match opt_debug_recovery_dump vm with
  | Some path =>
      cmd_dump_recovery_debug_information cmd_config_path (dump_target path);;
      exit EXIT_SUCCESS
  | None => mret tt
  end;;
  when (opt_version vm) (print_out (AKU_VERSION env);; exit EXIT_SUCCESS);;
  cmd_run_server cmd_config_path;;
  log_info (nl ++ nl ++ "Clean exit" ++ nl ++ nl).

(** [main]: the [try] block, the handler that reports a failure, and the
    final [exit(EXIT_SUCCESS)]. *)
Definition main (argv : list string) (vm : variables_map) : proc unit :=
  fun w =>
    match main_body argv vm w with
    | (Ret _, w') => exit EXIT_SUCCESS w'
    | (Throw what, w') =>
        (print_err (cli_format ("**FAILURE** " ++ what));; exit EXIT_FAILURE) w'
    | (Exit code, w') => (Exit code, w')
    | (Undefined, w') => (Undefined, w')
    end.

End WithEnvironment.

End Daemon.

(** ** A concrete machine to run the daemon on *)

Module Scenario.
Import ConfigFile Daemon.

(** [wordexp] on the paths of the scenarios: a leading tilde becomes the home
    directory, the empty string expands to no word. *)
Definition tilde_expand (home : string) (s : string) : option (list string) :=
  match s with
  | EmptyString => Some []
  | String "~" rest => Some [home ++ rest]
  | _ => Some [s]
  end.

Definition machine : environ :=
  {| HOME := Some "/home/aku";
     isatty_stdout := false;
     wordexp := tilde_expand "/home/aku";
     hardware_concurrency := 8;
     AKU_VERSION := "0.8.80";
     connect := fun _ _ => Ret tt;
     create_and_start := fun _ _ => Ret tt;
     sighandler_wait := fun ids => ids;
     aku_create_database_ex :=
       fun path _ _ _ files => (0, <[path_append path "db.akumuli" := File ""]> files);
     aku_remove_database := fun path _ files => (0, delete path files);
     aku_debug_report_dump := fun _ _ => 0;
     aku_debug_recovery_report_dump := fun _ _ => 0;
     apr_strerror := fun _ => "error" |}.

Definition empty_world : world :=
  {| fs := ∅; cout := []; cerr := []; logs := []; calls := [] |}.

Definition with_files (files : list (string * fsnode)) : world :=
  {| fs := list_to_map files; cout := []; cerr := []; logs := []; calls := [] |}.

Definition no_options : variables_map :=
  {| opt_help := false; opt_config := None; opt_create := false;
     opt_allocate := false; opt_delete := false; opt_CI := false;
     opt_init := false; opt_init_expandable := false; opt_disable_wal := false;
     opt_debug_dump := None; opt_debug_recovery_dump := None;
     opt_version := false |}.

Definition only_init : variables_map :=
  {| opt_help := false; opt_config := None; opt_create := false;
     opt_allocate := false; opt_delete := false; opt_CI := false;
     opt_init := true; opt_init_expandable := false; opt_disable_wal := false;
     opt_debug_dump := None; opt_debug_recovery_dump := None;
     opt_version := false |}.



(** A configuration with a [[WAL]] section of the given values. *)
Definition wal_config_text (wal_path nvolumes volume_size : string) : string :=
  "path=/var/akumuli" ++ nl
  ++ "nvolumes=4" ++ nl
  ++ "[HTTP]" ++ nl
  ++ "port=8181" ++ nl
  ++ "[WAL]" ++ nl
  ++ "path=" ++ wal_path ++ nl
  ++ "nvolumes=" ++ nvolumes ++ nl
  ++ "volume_size=" ++ volume_size ++ nl.

(** A machine with that configuration, the database file and the
    directory [/var/wal]. *)
Definition wal_world (wal_path nvolumes volume_size : string) : world :=
  with_files
    [ ("/home/aku/.akumulid", File (wal_config_text wal_path nvolumes volume_size));
      ("/var/akumuli", Directory);
      ("/var/akumuli/db.akumuli", File "");
      ("/var/wal", Directory) ].

End Scenario.

(** ** [UdpServer]: the worker's batch cycle and the stop protocol *)

Module UdpServer.

Local Open Scope list_scope.

(** A datagram queued at the server's port: the one byte [stop()] sends to
    wake a worker, or a datagram of a client. *)
Inductive datagram : Type :=
| Wake
| Data (payload : string).

#[export] Instance datagram_eq_dec : EqDecision datagram.
Proof. solve_decision. Defined.

(** [char payload = 0] of [sendByteToLocalhost] *)
Definition wake_payload : string := String (ascii_of_nat 0) EmptyString.

Definition bytes_of (d : datagram) : string :=
  match d with
  | Wake => wake_payload
  | Data payload => payload
  end.

(** What [parser.parse_next(buf, mlen)] may do: return, or throw one of the
    two exceptions the worker catches per batch, or throw something else.
    The session keeps what was written before the exception. *)
Inductive parse_result (pstate session : Type) : Type :=
| Parsed (parser : pstate) (spout : session)
| StreamError (what : string) (spout : session)
| DatabaseError (what : string) (spout : session)
| OtherError (what : string) (spout : session).

Arguments Parsed {pstate session} parser spout.
Arguments StreamError {pstate session} what spout.
Arguments DatabaseError {pstate session} what spout.
Arguments OtherError {pstate session} what spout.

(** The interface of [RESPProtocolParser] the worker relies on: the
    constructor (a parser with no input consumed), [parse_next], [close]. *)
Class ProtocolParser (session : Type) : Type := {
  pstate : Type;
  new_parser : pstate;
  parse_next : pstate -> session -> string -> parse_result pstate session;
  close : pstate -> session -> session
}.

(** How the [for] loop over a batch ends. *)
Inductive batch_end : Type :=
| Completed
| Broke (what : string)
| Escaped (what : string).

Section Worker.

Context {session : Type} `{ProtocolParser session}.

(** The [for] loop of the worker over the datagrams of one batch:
    [(how it ended, parser, session, datagrams handed to parse_next)]. *)
Fixpoint parse_batch (parser : pstate) (spout : session) (msgs : list string)
  : batch_end * pstate * session * list string :=
  match msgs with
  | [] => (Completed, parser, spout, [])
  | buf :: rest =>
      match parse_next parser spout buf with
      | Parsed parser' spout' =>
          let '(e, p, s, fed) := parse_batch parser' spout' rest in
          (e, p, s, buf :: fed)
      | StreamError what spout' => (Broke what, parser, spout', [buf])
      | DatabaseError what spout' => (Broke what, parser, spout', [buf])
      | OtherError what spout' => (Escaped what, parser, spout', [buf])
      end
  end.

(** What one pass of the worker's [while] loop does with a received batch
    once the stop flag was found clear. *)
Record batch_outcome : Type := {
  continue : bool;
  spout_after : session;
  logged : list string;
  fed : list string
}.

(** The body of the [while] loop after the test of [stop_]: a parser is
    created for the batch, the datagrams are parsed, a caught error is
    logged and ends the [for] loop, the parser is closed. An exception that
    is neither [StreamError] nor [DatabaseError] leaves the [while] loop
    through the outer handler, which logs it. The counters [pps] and [bps]
    and the exchange of the [IOBuf] after a non-empty batch touch nothing
    that is read here and are left out. *)
Definition handle_batch (spout : session) (msgs : list string) : batch_outcome :=
  let parser := new_parser in
  match parse_batch parser spout msgs with
  | (Completed, parser', spout', handed) =>
      {| continue := true; spout_after := close parser' spout';
         logged := []; fed := handed |}
  | (Broke what, parser', spout', handed) =>
      {| continue := true; spout_after := close parser' spout';
         logged := [what]; fed := handed |}
  | (Escaped what, _, spout', handed) =>
      {| continue := false; spout_after := spout';
         logged := [what]; fed := handed |}
  end.

(** The worker over a sequence of received batches, the stop flag clear at
    each: the session and the log at the end. *)
Fixpoint worker_batches (spout : session) (log : list string)
    (batches : list (list string)) : session * list string :=
  match batches with
  | [] => (spout, log)
  | msgs :: rest =>
      let r := handle_batch spout msgs in
      if continue r then worker_batches (spout_after r) (log ++ logged r) rest
      else (spout_after r, log ++ logged r)
  end.

(** *** The threads of the server *)

Inductive worker_pc : Type :=
| AtStartBarrier
| InStartBarrier
| Setup
| Receiving
| Received (batch : list datagram)
| Parsing (batch : list datagram)
| AtStopBarrier
| InStopBarrier
| Finished.

Record worker : Type := { pc : worker_pc; spout : session }.

(** The thread inside [UdpServer::start] *)
Inductive start_pc : Type :=
| StartAtBarrier
| StartInBarrier
| StartReturned.

(** The thread inside [UdpServer::stop] *)
Inductive stop_pc : Type :=
| NotCalled
| Storing
| Sending
| StopAtBarrier
| StopInBarrier
| Logging
| Closing
| Returned.

Inductive event : Type :=
| EvStoreStop
| EvSendWake
| EvStopArrive
| EvStopPass
| EvClose
| EvBind (i : nat)
| EvRecv (i : nat) (batch : list datagram)
| EvTestStop (i : nat) (flag : Z)
| EvParse (i : nat) (batch : list datagram)
| EvLeave (i : nat)
| EvArrive (i : nat).

(** The server: its fields, its threads, the datagrams queued at its port,
    and the events so far (newest first). A thread blocked in
    [barrier.wait()] has been counted in [start_arrived] or [stop_arrived]. *)
Record state : Type := {
  stop_ : Z;
  sockfd_ : option nat;
  workers : list worker;
  starter : start_pc;
  stopper : stop_pc;
  start_arrived : nat;
  stop_arrived : nat;
  net : list datagram;
  closed : list (option nat);
  logger_ : list string;
  history : list event;
  alive : bool
}.

Definition set_worker (i : nat) (w : worker) (s : state) : state :=
  {| stop_ := stop_ s; sockfd_ := sockfd_ s; workers := <[i := w]> (workers s);
     starter := starter s; stopper := stopper s;
     start_arrived := start_arrived s; stop_arrived := stop_arrived s;
     net := net s; closed := closed s; logger_ := logger_ s;
     history := history s; alive := alive s |}.

Definition emit (evs : list event) (s : state) : state :=
  {| stop_ := stop_ s; sockfd_ := sockfd_ s; workers := workers s;
     starter := starter s; stopper := stopper s;
     start_arrived := start_arrived s; stop_arrived := stop_arrived s;
     net := net s; closed := closed s; logger_ := logger_ s;
     history := evs ++ history s; alive := alive s |}.

Definition log_lines (lines : list string) (s : state) : state :=
  {| stop_ := stop_ s; sockfd_ := sockfd_ s; workers := workers s;
     starter := starter s; stopper := stopper s;
     start_arrived := start_arrived s; stop_arrived := stop_arrived s;
     net := net s; closed := closed s; logger_ := logger_ s ++ lines;
     history := history s; alive := alive s |}.

Definition set_stop_ (v : Z) (s : state) : state :=
  {| stop_ := v; sockfd_ := sockfd_ s; workers := workers s;
     starter := starter s; stopper := stopper s;
     start_arrived := start_arrived s; stop_arrived := stop_arrived s;
     net := net s; closed := closed s; logger_ := logger_ s;
     history := history s; alive := alive s |}.

Definition set_sockfd_ (fd : option nat) (s : state) : state :=
  {| stop_ := stop_ s; sockfd_ := fd; workers := workers s;
     starter := starter s; stopper := stopper s;
     start_arrived := start_arrived s; stop_arrived := stop_arrived s;
     net := net s; closed := closed s; logger_ := logger_ s;
     history := history s; alive := alive s |}.

Definition set_starter (p : start_pc) (s : state) : state :=
  {| stop_ := stop_ s; sockfd_ := sockfd_ s; workers := workers s;
     starter := p; stopper := stopper s;
     start_arrived := start_arrived s; stop_arrived := stop_arrived s;
     net := net s; closed := closed s; logger_ := logger_ s;
     history := history s; alive := alive s |}.

Definition set_stopper (p : stop_pc) (s : state) : state :=
  {| stop_ := stop_ s; sockfd_ := sockfd_ s; workers := workers s;
     starter := starter s; stopper := p;
     start_arrived := start_arrived s; stop_arrived := stop_arrived s;
     net := net s; closed := closed s; logger_ := logger_ s;
     history := history s; alive := alive s |}.

Definition arrive_start (s : state) : state :=
  {| stop_ := stop_ s; sockfd_ := sockfd_ s; workers := workers s;
     starter := starter s; stopper := stopper s;
     start_arrived := S (start_arrived s); stop_arrived := stop_arrived s;
     net := net s; closed := closed s; logger_ := logger_ s;
     history := history s; alive := alive s |}.

Definition arrive_stop (s : state) : state :=
  {| stop_ := stop_ s; sockfd_ := sockfd_ s; workers := workers s;
     starter := starter s; stopper := stopper s;
     start_arrived := start_arrived s; stop_arrived := S (stop_arrived s);
     net := net s; closed := closed s; logger_ := logger_ s;
     history := history s; alive := alive s |}.

Definition set_net (n : list datagram) (s : state) : state :=
  {| stop_ := stop_ s; sockfd_ := sockfd_ s; workers := workers s;
     starter := starter s; stopper := stopper s;
     start_arrived := start_arrived s; stop_arrived := stop_arrived s;
     net := n; closed := closed s; logger_ := logger_ s;
     history := history s; alive := alive s |}.

Definition close_fd (s : state) : state :=
  {| stop_ := stop_ s; sockfd_ := sockfd_ s; workers := workers s;
     starter := starter s; stopper := stopper s;
     start_arrived := start_arrived s; stop_arrived := stop_arrived s;
     net := net s; closed := closed s ++ [sockfd_ s]; logger_ := logger_ s;
     history := history s; alive := alive s |}.

(** [std::terminate()] *)
Definition terminate (s : state) : state :=
  {| stop_ := stop_ s; sockfd_ := sockfd_ s; workers := workers s;
     starter := starter s; stopper := stopper s;
     start_arrived := start_arrived s; stop_arrived := stop_arrived s;
     net := net s; closed := closed s; logger_ := logger_ s;
     history := history s; alive := false |}.

Definition at_pc (p : worker_pc) (w : worker) : worker :=
  {| pc := p; spout := spout w |}.

(** The server right after the constructor, with the worker threads of
    [start] created: [stop_{0}], [sockfd_(-1)], nobody at a barrier. *)
Definition init (sessions : list session) : state :=
  {| stop_ := 0; sockfd_ := None;
     workers := List.map (fun s => {| pc := AtStartBarrier; spout := s |}) sessions;
     starter := StartAtBarrier; stopper := NotCalled;
     start_arrived := 0; stop_arrived := 0;
     net := []; closed := []; logger_ := []; history := []; alive := true |}.

Section Steps.

(** [nworkers_] and the capacity of an [IOBuf] *)
Variable nworkers_ : nat.
Variable NPACKETS : nat.

(** Modelled from the spec: the barrier class is declared outside the
    sources at hand; a barrier built for [nworkers + 1] threads lets the
    threads waiting on it go on once that many have arrived. *)
Definition barrier_open (arrived : nat) : Prop := arrived = S nworkers_.

(** One atomic step of one thread of the server (or of the network), the
    threads interleaved in any order. *)
Inductive step (s : state) : state -> Prop :=
(* UdpServer::worker *)
| worker_start_arrive i w :
    alive s = true -> workers s !! i = Some w -> pc w = AtStartBarrier ->
    step s (arrive_start (set_worker i (at_pc InStartBarrier w) s))
| worker_start_pass i w :
    alive s = true -> workers s !! i = Some w -> pc w = InStartBarrier ->
    barrier_open (start_arrived s) ->
    step s (set_worker i (at_pc Setup w) s)
| worker_setup_ok i w :
    alive s = true -> workers s !! i = Some w -> pc w = Setup ->
    step s (emit [EvBind i]
              (set_sockfd_ (Some i) (set_worker i (at_pc Receiving w) s)))
| worker_setup_fail i w what (created : bool) :
    alive s = true -> workers s !! i = Some w -> pc w = Setup ->
    step s (emit [EvLeave i]
              (log_lines [what]
                 (set_sockfd_ (if created then Some i else None)
                    (set_worker i (at_pc AtStopBarrier w) s))))
| worker_receive i w batch rest :
    alive s = true -> workers s !! i = Some w -> pc w = Receiving ->
    net s ≡ₚ batch ++ rest -> (length batch <= NPACKETS)%nat ->
    step s (emit [EvRecv i batch]
              (set_net rest (set_worker i (at_pc (Received batch) w) s)))
| worker_receive_retry i w :
    alive s = true -> workers s !! i = Some w -> pc w = Receiving ->
    step s s
| worker_receive_error i w what :
    alive s = true -> workers s !! i = Some w -> pc w = Receiving ->
    step s (emit [EvLeave i]
              (log_lines [what] (set_worker i (at_pc AtStopBarrier w) s)))
| worker_stop_seen i w batch :
    alive s = true -> workers s !! i = Some w -> pc w = Received batch ->
    stop_ s <> 0 ->
    step s (emit [EvLeave i; EvTestStop i (stop_ s)]
              (set_worker i (at_pc AtStopBarrier w) s))
| worker_stop_clear i w batch :
    alive s = true -> workers s !! i = Some w -> pc w = Received batch ->
    stop_ s = 0 ->
    step s (emit [EvTestStop i 0] (set_worker i (at_pc (Parsing batch) w) s))
| worker_parse i w batch :
    alive s = true -> workers s !! i = Some w -> pc w = Parsing batch ->
    let r := handle_batch (spout w) (List.map bytes_of batch) in
    step s (emit (if continue r then [EvParse i batch]
                  else [EvLeave i; EvParse i batch])
              (log_lines (logged r)
                 (set_worker i
                    {| pc := if continue r then Receiving else AtStopBarrier;
                       spout := spout_after r |} s)))
| worker_stop_arrive i w :
    alive s = true -> workers s !! i = Some w -> pc w = AtStopBarrier ->
    step s (emit [EvArrive i]
              (arrive_stop (set_worker i (at_pc InStopBarrier w) s)))
| worker_stop_pass i w :
    alive s = true -> workers s !! i = Some w -> pc w = InStopBarrier ->
    barrier_open (stop_arrived s) ->
    step s (set_worker i (at_pc Finished w) s)
(* UdpServer::start *)
| start_arrive :
    alive s = true -> starter s = StartAtBarrier ->
    step s (arrive_start (set_starter StartInBarrier s))
| start_pass :
    alive s = true -> starter s = StartInBarrier ->
    barrier_open (start_arrived s) ->
    step s (set_starter StartReturned s)
(* UdpServer::stop *)
| stop_called :
    alive s = true -> stopper s = NotCalled ->
    step s (set_stopper Storing s)
| stop_store :
    alive s = true -> stopper s = Storing ->
    step s (emit [EvStoreStop] (set_stop_ 1 (set_stopper Sending s)))
| stop_send :
    alive s = true -> stopper s = Sending ->
    step s (emit [EvSendWake] (set_net (Wake :: net s) (set_stopper StopAtBarrier s)))
| stop_send_fail what :
    alive s = true -> stopper s = Sending ->
    step s (terminate (log_lines [what] s))
| stop_arrive :
    alive s = true -> stopper s = StopAtBarrier ->
    step s (emit [EvStopArrive] (arrive_stop (set_stopper StopInBarrier s)))
| stop_pass :
    alive s = true -> stopper s = StopInBarrier ->
    barrier_open (stop_arrived s) ->
    step s (emit [EvStopPass] (set_stopper Logging s))
| stop_log :
    alive s = true -> stopper s = Logging ->
    step s (log_lines ["UDP server stopped"] (set_stopper Closing s))
| stop_close :
    alive s = true -> stopper s = Closing ->
    step s (emit [EvClose] (close_fd (set_stopper Returned s)))
(* the network *)
| client_send payload :
    alive s = true ->
    step s (set_net (net s ++ [Data payload]) s)
| datagram_lost d rest :
    alive s = true -> net s ≡ₚ d :: rest ->
    step s (set_net rest s).

(** The states the server can be in, from [nworkers_] workers on. *)
Definition reachable (s : state) : Prop :=
  exists sessions, length sessions = nworkers_ /\ rtc step (init sessions) s.

End Steps.

(** *** Reading the state and the history *)

Definition left_loop (w : worker) : bool :=
  match pc w with
  | AtStopBarrier | InStopBarrier | Finished => true
  | _ => false
  end.

Definition arrived_at_stop (w : worker) : bool :=
  match pc w with
  | InStopBarrier | Finished => true
  | _ => false
  end.

Definition stop_waited (p : stop_pc) : bool :=
  match p with
  | StopInBarrier | Logging | Closing | Returned => true
  | _ => false
  end.

Definition stop_passed (p : stop_pc) : bool :=
  match p with
  | Logging | Closing | Returned => true
  | _ => false
  end.

(** The workers counted at the stop barrier. *)
Definition count_arrived (ws : list worker) : nat :=
  length (List.filter arrived_at_stop ws).

(** The stop barrier of a server of [n] workers: the count of arrivals is
    the workers that arrived plus the thread in [stop()] if it did, and once
    that thread is past the barrier every worker has arrived. *)
Definition barrier_ok (n : nat) (ws : list worker) (arrived : nat) (p : stop_pc)
  : Prop :=
  length ws = n /\
  arrived = (count_arrived ws + (if stop_waited p then 1 else 0))%nat /\
  (stop_passed p = true ->
   forall i w, ws !! i = Some w -> arrived_at_stop w = true).

Definition barrier_inv (n : nat) (s : state) : Prop :=
  barrier_ok n (workers s) (stop_arrived s) (stopper s).

(** [stop_] has been stored by the thread in [stop()]. *)
Definition stop_stored (p : stop_pc) : bool :=
  match p with
  | NotCalled | Storing => false
  | _ => true
  end.

(** The events of [stop()] so far (newest first) at each of its places. *)
Definition stop_trace (p : stop_pc) : list event :=
  match p with
  | NotCalled | Storing => []
  | Sending => [EvStoreStop]
  | StopAtBarrier => [EvSendWake; EvStoreStop]
  | StopInBarrier => [EvStopArrive; EvSendWake; EvStoreStop]
  | Logging | Closing => [EvStopPass; EvStopArrive; EvSendWake; EvStoreStop]
  | Returned => [EvClose; EvStopPass; EvStopArrive; EvSendWake; EvStoreStop]
  end.

(** The thread an event belongs to: a worker or ([None]) another thread. *)
Definition actor (e : event) : option nat :=
  match e with
  | EvBind i | EvRecv i _ | EvTestStop i _ | EvParse i _ | EvLeave i
  | EvArrive i => Some i
  | _ => None
  end.

(** The events of worker [i], newest first. *)
Definition worker_events (i : nat) (h : list event) : list event :=
  List.filter (fun e => bool_decide (actor e = Some i)) h.

Definition is_stop_event (e : event) : bool :=
  match e with
  | EvStoreStop | EvSendWake | EvStopArrive | EvStopPass | EvClose => true
  | _ => false
  end.

(** The events of the thread in [stop()], newest first. *)
Definition stop_events (h : list event) : list event :=
  List.filter is_stop_event h.

(** In a history (newest first): whatever came before a parse of worker
    [i] starts with the test of the flag that found it clear, and before
    that test the receive that returned the very batch. *)
Fixpoint parses_follow_test (h : list event) : Prop :=
  match h with
  | [] => True
  | EvParse i batch :: older =>
      (exists before, older = EvTestStop i 0 :: EvRecv i batch :: before)
      /\ parses_follow_test older
  | _ :: older => parses_follow_test older
  end.

(** What the events of each worker look like in a state: every parse
    follows the test of the flag and the receive of its batch, and a worker
    between the receive and the parse has just done them. *)
Definition events_inv (s : state) : Prop :=
  (forall i, parses_follow_test (worker_events i (history s))) /\
  (forall i w batch,
     workers s !! i = Some w -> pc w = Received batch ->
     exists older, worker_events i (history s) = EvRecv i batch :: older) /\
  (forall i w batch,
     workers s !! i = Some w -> pc w = Parsing batch ->
     exists older,
       worker_events i (history s) = EvTestStop i 0 :: EvRecv i batch :: older).

(** Every event satisfying [Q] has an event satisfying [P] before it. *)
Definition preceded_by (P Q : event -> Prop) (h : list event) : Prop :=
  forall newer e older, h = newer ++ e :: older -> Q e ->
    exists e', In e' older /\ P e'.

End Worker.

Arguments batch_outcome session : clear implicits.
Arguments worker session : clear implicits.
Arguments state session : clear implicits.

(** *** A small parser to run the worker on *)

(** Modelled from the spec: [RESPProtocolParser] is defined outside the
    sources at hand. Of its contract this instance keeps what the worker
    can see: a datagram that starts with a RESP type byte ([+] or [:]) is
    written to the session, any other datagram is a malformed one and
    raises [StreamError]. The session is the list of datagrams written. *)
Definition resp_like (buf : string) : bool :=
  match buf with
  | String c _ => ascii_eqb c "+" || ascii_eqb c ":"
  | EmptyString => false
  end.

#[export] Instance line_parser : ProtocolParser (list string) :=
  {| pstate := unit;
     new_parser := tt;
     parse_next := fun _ written buf =>
       if resp_like buf then Parsed tt (written ++ [buf])
       else StreamError "unexpected parameter id format" written;
     close := fun _ written => written |}.

(** A server with one worker after a whole life: the worker started,
    bound its socket, received a datagram of a client and parsed it;
    [stop()] was called; the worker received the wake datagram, saw the flag
    and left; the barrier opened and the descriptor was closed. *)
Definition stopped_server : state (list string) :=
  {| stop_ := 1; sockfd_ := Some 0%nat;
     workers := [ {| pc := Finished; spout := ["+cpu host=a"] |} ];
     starter := StartReturned; stopper := Returned;
     start_arrived := 2; stop_arrived := 2;
     net := []; closed := [Some 0%nat];
     logger_ := ["UDP server stopped"];
     history := [ EvClose; EvStopPass; EvStopArrive; EvArrive 0; EvLeave 0;
                  EvTestStop 0 1; EvRecv 0 [Wake]; EvSendWake; EvStoreStop;
                  EvParse 0 [Data "+cpu host=a"]; EvTestStop 0 0;
                  EvRecv 0 [Data "+cpu host=a"]; EvBind 0 ];
     alive := true |}.

End UdpServer.

(** ** [QueryResultsPooler] *)

Module QueryResultsPooler.

Local Open Scope nat_scope.

Definition aku_Status : Type := Z.
Definition AKU_SUCCESS : aku_Status := 0%Z.

(** Modelled from the spec: [ApiEndpoint] is declared in [httpserver.h],
    outside the sources at hand; the variants are the endpoints the spec
    names (query, suggest, search). *)
Inductive ApiEndpoint : Type :=
| QUERY
| SUGGEST
| SEARCH.

(** Modelled from the spec: [aku_Sample] is declared in [akumuli.h]; a
    series id, a timestamp and a payload. *)
Record aku_Sample : Type := {
  paramid : Z;
  timestamp : Z;
  payload : Z
}.

(** Modelled from the spec: [DbCursor] produces a finite sequence of
    samples, not restartable, and may surface a non-success status, which
    then stays. The status shows once the samples before it are read. *)
Record DbCursor : Type := {
  pending : list aku_Sample;
  status : aku_Status;
  released : bool
}.

(** Modelled from the spec: [cursor->is_error(&status)]. *)
Definition is_error (c : DbCursor) : bool :=
  match pending c with
  | [] => negb (status c =? AKU_SUCCESS)%Z
  | _ => false
  end.

(** Modelled from the spec: [cursor->is_done()]; a released cursor gives
    nothing more. *)
Definition is_done (c : DbCursor) : bool :=
  match pending c with
  | [] => true
  | _ => released c
  end.

(** Modelled from the spec: [cursor->read(dest, n)]; up to [n] samples
    leave the cursor. *)
Definition cursor_read (n : nat) (c : DbCursor) : list aku_Sample * DbCursor :=
  (firstn n (pending c),
   {| pending := skipn n (pending c); status := status c; released := released c |}).

(** Modelled from the spec: [cursor->close()]. *)
Definition cursor_close (c : DbCursor) : DbCursor :=
  {| pending := pending c; status := status c; released := true |}.

(** Modelled from the spec: a [DbSession] opens a cursor for a query text;
    [OutputFormatter::format] writes the text of a sample when it fits
    between [begin] and [end]. *)
Record DbSession : Type := {
  query : string -> DbCursor;
  sample_text : ApiEndpoint -> aku_Sample -> string
}.

(** The fields of [struct QueryResultsPooler]. [rdbuf_] holds the samples
    read from the cursor, [rdbuf_pos_] is the read position in it and
    [rdbuf_top_] the number of samples in it. The C++ vector is sized by the
    constructor; here [capacity] keeps that size, the [readbufsize] the
    pooler was built with. *)
Record pooler : Type := {
  query_text_ : string;
  session_ : DbSession;
  cursor_ : option DbCursor;
  formatter_ : option (aku_Sample -> string);
  rdbuf_ : list aku_Sample;
  rdbuf_pos_ : nat;
  rdbuf_top_ : nat;
  capacity : nat;
  endpoint_ : ApiEndpoint;
  error_produced_ : bool
}.

Inductive pooler_error : Type :=
| NotStarted
| AlreadyStarted.

(** The result of a method: the error thrown, or the value and the pooler
    after the call. *)
Definition result (A : Type) : Type := pooler_error + (A * pooler).

(** Modelled from the spec: [QueryResultsPooler(session, readbufsize,
    endpoint)]; a pooler in [Created]. *)
Definition create (session : DbSession) (readbufsize : nat) (endpoint : ApiEndpoint)
  : pooler :=
  {| query_text_ := ""; session_ := session; cursor_ := None; formatter_ := None;
     rdbuf_ := []; rdbuf_pos_ := 0; rdbuf_top_ := 0; capacity := readbufsize;
     endpoint_ := endpoint; error_produced_ := false |}.

(** Modelled from the spec: the methods below are declared in the header
    at hand and defined outside it; they follow sections 4.4 and 8 of the
    specification. *)
Definition throw_if_started (p : pooler) : result unit :=
  match cursor_ p with
  | Some _ => inl AlreadyStarted
  | None => inr (tt, p)
  end.

(** Modelled from the spec: [throw_if_not_started]. *)
Definition throw_if_not_started (p : pooler) : result unit :=
  match cursor_ p with
  | Some _ => inr (tt, p)
  | None => inl NotStarted
  end.

(** Modelled from the spec: [append] accumulates the query text and is
    legal only before [start]. *)
Definition append (data : string) (p : pooler) : result unit :=
  match throw_if_started p with
  | inl e => inl e
  | inr _ =>
      inr (tt, {| query_text_ := (query_text_ p ++ data)%string;
                  session_ := session_ p; cursor_ := cursor_ p;
                  formatter_ := formatter_ p; rdbuf_ := rdbuf_ p;
                  rdbuf_pos_ := rdbuf_pos_ p; rdbuf_top_ := rdbuf_top_ p;
                  capacity := capacity p; endpoint_ := endpoint_ p;
                  error_produced_ := error_produced_ p |})
  end.

(** Modelled from the spec: [start] opens a cursor for the accumulated
    text through the session and picks the formatter of the endpoint. *)
Definition start (p : pooler) : result unit :=
  match throw_if_started p with
  | inl e => inl e
  | inr _ =>
      inr (tt, {| query_text_ := query_text_ p; session_ := session_ p;
                  cursor_ := Some (query (session_ p) (query_text_ p));
                  formatter_ := Some (sample_text (session_ p) (endpoint_ p));
                  rdbuf_ := rdbuf_ p; rdbuf_pos_ := rdbuf_pos_ p;
                  rdbuf_top_ := rdbuf_top_ p; capacity := capacity p;
                  endpoint_ := endpoint_ p;
                  error_produced_ := error_produced_ p |})
  end.


(** Modelled from the spec: the text by which [read_some] reports an error
    to the reader of the response. *)
Definition error_text (s : aku_Status) : string :=
  ("-error " ++ show_Z s ++ String (ascii_of_nat 13) (String (ascii_of_nat 10) ""))%string.

(** Modelled from the spec: whole samples of the buffer, from [pos] on, as
    long as they fit the [room] left; the text written and the new read
    position. A sample that does not fit is held back. *)
Fixpoint drain (format : aku_Sample -> string) (samples : list aku_Sample)
    (pos room : nat) : string * nat :=
  match samples with
  | [] => (EmptyString, pos)
  | sample :: rest =>
      let text := format sample in
      if String.length text <=? room then
        let '(more, pos') := drain format rest (S pos) (room - String.length text) in
        ((text ++ more)%string, pos')
      else (EmptyString, pos)
  end.

Definition set_buffer (samples : list aku_Sample) (pos top : nat)
    (c : DbCursor) (p : pooler) : pooler :=
  {| query_text_ := query_text_ p; session_ := session_ p; cursor_ := Some c;
     formatter_ := formatter_ p; rdbuf_ := samples; rdbuf_pos_ := pos;
     rdbuf_top_ := top; capacity := capacity p; endpoint_ := endpoint_ p;
     error_produced_ := error_produced_ p |}.

Definition set_error_produced (p : pooler) : pooler :=
  {| query_text_ := query_text_ p; session_ := session_ p; cursor_ := cursor_ p;
     formatter_ := formatter_ p; rdbuf_ := rdbuf_ p; rdbuf_pos_ := rdbuf_pos_ p;
     rdbuf_top_ := rdbuf_top_ p; capacity := capacity p; endpoint_ := endpoint_ p;
     error_produced_ := true |}.

(** Modelled from the spec: [read_some(buf, buf_size)]. With formatted
    samples left in the buffer it hands out the whole samples that fit.
    With the buffer drained: an error of the cursor is reported once (the
    call that reports it sets [error_produced_]; later calls report
    [complete]); an exhausted cursor gives [complete]; otherwise the buffer
    is filled from the cursor and handed out. *)
Definition read_some (buf_size : nat) (p : pooler) : result (string * bool) :=
  match cursor_ p with
  | None => inl NotStarted
  | Some c =>
      let format := default (fun _ => EmptyString) (formatter_ p) in
      if rdbuf_pos_ p =? rdbuf_top_ p then
        if is_error c then
          if error_produced_ p then inr ((EmptyString, true), p)
          else
            inr ((String.substring 0 buf_size (error_text (status c)), false),
                 set_error_produced p)
        else if is_done c then inr ((EmptyString, true), p)
        else
          let '(samples, c') := cursor_read (capacity p) c in
          let '(text, pos) := drain format samples 0 buf_size in
          inr ((text, false), set_buffer samples pos (length samples) c' p)
      else
        let '(text, pos) :=
          drain format (skipn (rdbuf_pos_ p) (rdbuf_ p)) (rdbuf_pos_ p) buf_size in
        inr ((text, false), set_buffer (rdbuf_ p) pos (rdbuf_top_ p) c p)
  end.

(** Modelled from the spec: [close] releases the cursor; idempotent. *)
Definition close (p : pooler) : pooler :=
  match cursor_ p with
  | Some c => set_buffer (rdbuf_ p) (rdbuf_pos_ p) (rdbuf_top_ p) (cursor_close c) p
  | None => p
  end.

(** [read_some] called again and again with the given buffer sizes: what
    each call returned, or the error of the first call that threw. *)
Fixpoint read_many (sizes : list nat) (p : pooler)
  : pooler_error + (list (string * bool) * pooler) :=
  match sizes with
  | [] => inr ([], p)
  | n :: rest =>
      match read_some n p with
      | inl e => inl e
      | inr (r, p') =>
          match read_many rest p' with
          | inl e => inl e
          | inr (rs, p'') => inr (r :: rs, p'')
          end
      end
  end.

(** The pooler after the chunks of a request body were appended. *)
Fixpoint append_all (chunks : list string) (p : pooler) : result unit :=
  match chunks with
  | [] => inr (tt, p)
  | data :: rest =>
      match append data p with
      | inl e => inl e
      | inr (_, p') => append_all rest p'
      end
  end.

(** A session for the scenarios: the query text [fail] gives a cursor with
    one sample and then the status 7, any other text two samples. *)
Definition s1 : aku_Sample := {| paramid := 1; timestamp := 10; payload := 3 |}.
Definition s2 : aku_Sample := {| paramid := 1; timestamp := 20; payload := 4 |}.



End QueryResultsPooler.

(** ** Values the properties below refer to *)

Module Expected.
Import ConfigFile.

Definition is_giga (c : ascii) : bool := ascii_eqb c "G" || ascii_eqb c "g".
Definition is_mega (c : ascii) : bool := ascii_eqb c "M" || ascii_eqb c "m".
Definition is_b (c : ascii) : bool := ascii_eqb c "B" || ascii_eqb c "b".







End Expected.

(** ** Further readings of the code *)

Module Markup.

(** The characters the markers of [cli_format] are made of. *)
Definition is_marker (c : ascii) : bool :=
  ascii_eqb c "*" || ascii_eqb c "_" || ascii_eqb c "`".

(** No character of [s] is a marker character. *)
Fixpoint marker_free (s : string) : bool :=
  match s with
  | EmptyString => true
  | String c rest => negb (is_marker c) && marker_free rest
  end.

(** Whether the character [c] occurs in [s]. *)
Fixpoint has_char (c : ascii) (s : string) : bool :=
  match s with
  | EmptyString => false
  | String d rest => ascii_eqb c d || has_char c rest
  end.

(** The markers of [cli_format] with the codes that open them. *)
Definition codes : list (string * string) :=
  [ ("**", Daemon.BOLD); ("__", Daemon.EMPH); ("`", Daemon.UNDR) ].

End Markup.

Module Registry.

(** [UdpServerBuilder::operator()]: the settings must name one protocol;
    the server is built from the worker count and the endpoint of it. *)
Definition UdpServerBuilder (settings : ServerSettings) : outcome (Z * endpoint) :=
  match protocols settings with
  | [protocol] => Ret (nworkers settings, proto_endpoint protocol)
  | _ => Throw "invalid upd-server settings"
  end.

(** The worker count [cmd_run_server] takes for a server: the hardware
    concurrency for a negative [nworkers]. *)
Definition concurrency_of (env : environ) (settings : ServerSettings) : Z :=
  if nworkers settings <? 0 then hardware_concurrency env
  else cast_int_to_unsigned (nworkers settings).

End Registry.

Module MoreParsers.
Import UdpServer.

(** Modelled from the spec: [RESPProtocolParser] is defined outside the
    sources at hand. This parser adds to [line_parser] the other ways
    [parse_next] can end for the worker: a datagram that starts with [!] is
    one the database rejects ([DatabaseError]), and an empty datagram raises
    an exception of another type. *)
Definition strict_parser : ProtocolParser (list string) :=
  {| pstate := unit;
     new_parser := tt;
     parse_next := fun _ written buf =>
       match buf with
       | EmptyString => OtherError "std::bad_alloc" written
       | String c _ =>
           if resp_like buf then Parsed tt (written ++ [buf])%list
           else if ascii_eqb c "!" then DatabaseError "late write" written
           else StreamError "unexpected parameter id format" written
       end;
     close := fun _ written => written |}.

(** A server built for no worker after [start()] and [stop()]. *)
Definition idle_server : state (list string) :=
  {| stop_ := 1; sockfd_ := None; workers := [];
     starter := StartReturned; stopper := Returned;
     start_arrived := 1; stop_arrived := 1;
     net := [Wake]; closed := [None];
     logger_ := ["UDP server stopped"];
     history := [ EvClose; EvStopPass; EvStopArrive; EvSendWake; EvStoreStop ];
     alive := true |}.

End MoreParsers.

Module StartBarrier.
Import UdpServer.

Section Readings.

Context {session : Type}.

(** The worker has called [start_barrier_.wait()]. *)
Definition arrived_at_start (w : worker session) : bool :=
  match pc w with
  | AtStartBarrier => false
  | _ => true
  end.

(** The worker is past [start_barrier_.wait()]. *)
Definition passed_start (w : worker session) : bool :=
  match pc w with
  | AtStartBarrier | InStartBarrier => false
  | _ => true
  end.

(** The thread in [start()] has called [start_barrier_.wait()]. *)
Definition start_waited (p : start_pc) : bool :=
  match p with
  | StartAtBarrier => false
  | _ => true
  end.

(** The start barrier of a server of [n] workers: the count of arrivals is
    the workers that arrived plus the thread in [start()] if it did. *)
Definition start_ok (n : nat) (ws : list (worker session)) (arrived : nat)
    (p : start_pc) : Prop :=
  length ws = n /\
  arrived = (length (List.filter arrived_at_start ws)
             + (if start_waited p then 1 else 0))%nat.

(** The start barrier counts the threads that reached it, and whoever is
    past it found it full. *)
Definition start_holds (n : nat) (ws : list (worker session)) (arrived : nat)
    (p : start_pc) : Prop :=
  start_ok n ws arrived p /\
  (p = StartReturned -> arrived = S n) /\
  (forall i w, ws !! i = Some w -> passed_start w = true -> arrived = S n).

Definition start_inv (n : nat) (s : state session) : Prop :=
  start_holds n (workers s) (start_arrived s) (starter s).

End Readings.

End StartBarrier.

Module MoreScenarios.
Import ConfigFile Daemon Scenario.

Definition with_option_help : variables_map :=
  {| opt_help := true; opt_config := Some "~/other"; opt_create := true;
     opt_allocate := false; opt_delete := true; opt_CI := false;
     opt_init := true; opt_init_expandable := false; opt_disable_wal := false;
     opt_debug_dump := None; opt_debug_recovery_dump := None;
     opt_version := true |}.

(** A machine like [machine] without the variable [HOME]. *)
Definition homeless : environ :=
  {| HOME := None;
     isatty_stdout := isatty_stdout machine;
     wordexp := wordexp machine;
     hardware_concurrency := hardware_concurrency machine;
     AKU_VERSION := AKU_VERSION machine;
     connect := connect machine;
     create_and_start := create_and_start machine;
     sighandler_wait := sighandler_wait machine;
     aku_create_database_ex := aku_create_database_ex machine;
     aku_remove_database := aku_remove_database machine;
     aku_debug_report_dump := aku_debug_report_dump machine;
     aku_debug_recovery_report_dump := aku_debug_recovery_report_dump machine;
     apr_strerror := apr_strerror machine |}.

(** A machine like [machine] with a terminal on the standard output. *)
Definition terminal : environ :=
  {| HOME := HOME machine;
     isatty_stdout := true;
     wordexp := wordexp machine;
     hardware_concurrency := hardware_concurrency machine;
     AKU_VERSION := AKU_VERSION machine;
     connect := connect machine;
     create_and_start := create_and_start machine;
     sighandler_wait := sighandler_wait machine;
     aku_create_database_ex := aku_create_database_ex machine;
     aku_remove_database := aku_remove_database machine;
     aku_debug_report_dump := aku_debug_report_dump machine;
     aku_debug_recovery_report_dump := aku_debug_recovery_report_dump machine;
     apr_strerror := apr_strerror machine |}.

(** A configuration with a [[TCP]] section that has no [pool_size]. *)
Definition tcp_without_pool : string :=
  "path=/var/akumuli" ++ nl
  ++ "nvolumes=4" ++ nl
  ++ "[UDP]" ++ nl
  ++ "port=8383" ++ nl
  ++ "pool_size=2" ++ nl
  ++ "[TCP]" ++ nl
  ++ "port=8282" ++ nl
  ++ "[HTTP]" ++ nl
  ++ "port=8181" ++ nl.

(** A configuration with the sections in the order UDP, OpenTSDB, HTTP and
    no [[TCP]] section. *)
Definition udp_then_http : string :=
  "path=/var/akumuli" ++ nl
  ++ "nvolumes=4" ++ nl
  ++ "[UDP]" ++ nl
  ++ "port=8383" ++ nl
  ++ "pool_size=2" ++ nl
  ++ "[OpenTSDB]" ++ nl
  ++ "port=4242" ++ nl
  ++ "[HTTP]" ++ nl
  ++ "port=8181" ++ nl.

(** A configuration whose [volume_size] has a unit the daemon does not
    know. *)
Definition terabyte_volumes : string :=
  "path=/var/akumuli" ++ nl
  ++ "nvolumes=4" ++ nl
  ++ "volume_size=4TB" ++ nl.

(** A machine with a configuration of the given text and the data
    directory, without a database. *)
Definition configured (text : string) : world :=
  with_files
    [ ("/home/aku/.akumulid", File text);
      ("/var/akumuli", Directory) ].

(** The same machine with a database. *)
Definition configured_with_database (text : string) : world :=
  with_files
    [ ("/home/aku/.akumulid", File text);
      ("/var/akumuli", Directory);
      ("/var/akumuli/db.akumuli", File "") ].

(** A configuration with a [[WAL]] section that has no [path]. *)
Definition wal_without_path : string :=
  "path=/var/akumuli" ++ nl
  ++ "nvolumes=4" ++ nl
  ++ "[WAL]" ++ nl
  ++ "nvolumes=4" ++ nl
  ++ "volume_size=256MB" ++ nl.

(** The tree [read_ini] gives for a text, the empty tree when it throws. *)
Definition tree_of (text : string) : ptree :=
  match read_ini "akumulid" text with
  | Ret conf => conf
  | _ => PNode "" []
  end.

End MoreScenarios.

(** ** The world after an effect *)

Module Effects.

(** The world after one more line on the standard output. *)
Definition printed (line : string) (w : world) : world :=
  snd (print_out line w).

(** The world after one more call of the engine was noted. *)
Definition called (e : sys_event) (w : world) : world :=
  snd (record_call e w).



End Effects.

(** * Properties *)

(** ** Strings and sizes *)

Section SizeFacts.
Import ConfigFile Expected.

Lemma append_cons (c : ascii) (s t : string) :
  String c s ++ t = String c (s ++ t).
Proof. reflexivity. Qed.

Lemma back_None (s : string) : back s = None <-> s = EmptyString.
Proof.
  split; [| intros ->; reflexivity].
  induction s as [| c rest IH]; [reflexivity |].
  simpl. destruct rest; [discriminate |]. intros Hb. specialize (IH Hb). discriminate.
Qed.

Lemma pop_back_None (s : string) : pop_back s = None <-> s = EmptyString.
Proof.
  split; [| intros ->; reflexivity].
  induction s as [| c rest IH]; [reflexivity |].
  simpl. destruct rest; [discriminate |].
  destruct (pop_back (String a rest)) eqn:E; [discriminate |].
  intros _. specialize (IH eq_refl). discriminate.
Qed.

Lemma back_snoc (s : string) (c : ascii) : back (s ++ String c "") = Some c.
Proof.
  induction s as [| d rest IH]; [reflexivity |].
  simpl. destruct (rest ++ String c "") eqn:E.
  - destruct rest; discriminate.
  - exact IH.
Qed.

Lemma pop_back_snoc (s : string) (c : ascii) : pop_back (s ++ String c "") = Some s.
Proof.
  induction s as [| d rest IH]; [reflexivity |].
  simpl. destruct (rest ++ String c "") eqn:E.
  - destruct rest; discriminate.
  - rewrite IH. reflexivity.
Qed.

(** A string with exactly one character pops to the empty string. *)
Lemma pop_back_empty (s : string) :
  pop_back s = Some EmptyString -> exists c, s = String c "".
Proof.
  destruct s as [| c rest]; [discriminate |].
  simpl. destruct rest; [eauto |].
  destruct (pop_back (String a rest)); discriminate.
Qed.

Lemma digits_value_snoc (s : string) (c : ascii) (acc : Z) :
  is_digit c = false -> digits_value acc (s ++ String c "") = None.
Proof.
  intros Hc. revert acc.
  induction s as [| d rest IH]; intros acc; simpl.
  - rewrite Hc. reflexivity.
  - destruct (is_digit d); [apply IH | reflexivity].
Qed.

Lemma magnitude_snoc (s : string) (c : ascii) :
  is_digit c = false -> magnitude (s ++ String c "") = None.
Proof.
  intros Hc. unfold magnitude.
  destruct (s ++ String c "") eqn:E; [reflexivity |].
  rewrite <- E. apply digits_value_snoc, Hc.
Qed.

(** [lexical_cast] rejects a string whose last character is not a digit. *)
Lemma lexical_cast_u64_snoc (s : string) (c : ascii) :
  is_digit c = false -> lexical_cast_u64 (s ++ String c "") = None.
Proof.
  intros Hc. unfold lexical_cast_u64, split_sign.
  destruct s as [| d rest]; simpl.
  - destruct (ascii_eqb c "-"); [reflexivity |].
    destruct (ascii_eqb c "+"); [reflexivity |].
    simpl. rewrite Hc. reflexivity.
  - destruct (ascii_eqb d "-"); [rewrite magnitude_snoc by exact Hc; reflexivity |].
    destruct (ascii_eqb d "+"); [rewrite magnitude_snoc by exact Hc; reflexivity |].
    change (String d (rest ++ String c "")) with (String d rest ++ String c "").
    rewrite magnitude_snoc by exact Hc. reflexivity.
Qed.

Lemma is_b_not_digit (c : ascii) : is_b c = true -> is_digit c = false.
Proof.
  unfold is_b, ascii_eqb. intros Hb. apply orb_true_iff in Hb.
  destruct Hb as [Hb | Hb]; apply Ascii.eqb_eq in Hb; subst; reflexivity.
Qed.

(** A number followed by a unit letter and [B], in either case, is the
    number times the unit, modulo [2^64]. *)
Lemma get_memory_size_suffix (digits : string) (unit_letter b : ascii) (v : Z) :
  lexical_cast_u64 digits = Some v ->
  is_b b = true ->
  is_giga unit_letter || is_mega unit_letter = true ->
  get_memory_size (digits ++ String unit_letter (String b "")) =
  Ret (wrap_u64 (v * (if is_giga unit_letter then 2 ^ 30 else 2 ^ 20))).
Proof.
  intros Hv Hb Hu.
  assert (Hs : digits ++ String unit_letter (String b "")
               = (digits ++ String unit_letter "") ++ String b "").
  { clear Hv. induction digits as [| d rest IH]; [reflexivity |].
    rewrite !append_cons, IH. reflexivity. }
  unfold get_memory_size. rewrite Hs.
  rewrite lexical_cast_u64_snoc by (apply is_b_not_digit, Hb).
  rewrite back_snoc, pop_back_snoc. simpl.
  assert (Hb' : negb (ascii_eqb b "B") && negb (ascii_eqb b "b") = false).
  { unfold is_b in Hb. destruct (ascii_eqb b "B"), (ascii_eqb b "b");
      simpl in *; congruence. }
  rewrite Hb'. simpl.
  rewrite back_snoc, pop_back_snoc. simpl.
  unfold is_giga, is_mega in *.
  destruct (ascii_eqb unit_letter "G" || ascii_eqb unit_letter "g") eqn:Eg; simpl.
  - rewrite Hv. reflexivity.
  - simpl in Hu. rewrite Hu. simpl. rewrite Hv. reflexivity.
Qed.

(** The inputs on which [get_memory_size] reads or erases out of bounds are
    the empty string and a lone [B] or [b]. *)
Lemma get_memory_size_undefined (s : string) :
  get_memory_size s = Undefined <-> s = "" \/ s = "B" \/ s = "b".
Proof.
  split.
  - unfold get_memory_size.
    destruct (lexical_cast_u64 s); [discriminate |].
    destruct (back s) as [last |] eqn:Eback; simpl.
    2: { intros _. left. apply back_None, Eback. }
    destruct (negb (ascii_eqb last "B") && negb (ascii_eqb last "b")) eqn:Eb;
      simpl; [discriminate |].
    destruct (pop_back s) as [tmp |] eqn:Epop; simpl.
    2: { apply pop_back_None in Epop. subst. discriminate. }
    destruct (back tmp) as [symbol |] eqn:Eback2; simpl.
    + destruct (pop_back tmp) as [tmp' |] eqn:Epop2; simpl.
      2: { apply pop_back_None in Epop2. subst. discriminate. }
      destruct (ascii_eqb symbol "G" || ascii_eqb symbol "g"); simpl.
      * destruct (lexical_cast_u64 tmp'); discriminate.
      * destruct (ascii_eqb symbol "M" || ascii_eqb symbol "m"); simpl;
          [destruct (lexical_cast_u64 tmp') |]; discriminate.
    + intros _. apply back_None in Eback2. subst tmp.
      apply pop_back_empty in Epop. destruct Epop as [c ->].
      simpl in Eback. injection Eback as ->.
      apply andb_false_iff in Eb. right.
      destruct Eb as [Eb | Eb]; apply negb_false_iff, Ascii.eqb_eq in Eb; subst; auto.
  - intros [-> | [-> | ->]]; reflexivity.
Qed.

End SizeFacts.

(** C7: [get_memory_size] maps "4GB" to 4·2^30, "256MB" to 256·2^20, "1024"
    to 1024 and "4gb" to 4·2^30, and throws the decode error on "4XB" and on
    "GB". *)
Theorem get_memory_size_examples :
  ConfigFile.get_memory_size "4GB" = Ret (4 * 2 ^ 30) /\
  ConfigFile.get_memory_size "256MB" = Ret (256 * 2 ^ 20) /\
  ConfigFile.get_memory_size "1024" = Ret 1024 /\
  ConfigFile.get_memory_size "4gb" = Ret (4 * 2 ^ 30) /\
  ConfigFile.get_memory_size "4XB" = Throw "can't decode volume size: `4XB`" /\
  ConfigFile.get_memory_size "GB" = Throw "can't decode volume size: `GB`".
Proof. repeat split; vm_compute; reflexivity. Qed.

(** C9: on the empty string and on "B" the suffix path of [get_memory_size]
    calls [back()] (and [pop_back()]) on an empty string: the outcome is
    undefined behaviour, not a decode error. *)
Theorem get_memory_size_reads_out_of_bounds :
  ConfigFile.get_memory_size "" = Undefined /\
  ConfigFile.get_memory_size "B" = Undefined.
Proof. split; reflexivity. Qed.

(** A configuration line [volume_size=] brings the empty string to
    [get_memory_size]. *)
Lemma empty_volume_size_is_undefined :
  exists conf,
    read_ini "akumulid" ("volume_size=" ++ ConfigFile.nl) = Ret conf /\
    ConfigFile.get_volume_size conf = Undefined.
Proof.
  eexists. split.
  - vm_compute. reflexivity.
  - reflexivity.
Qed.

(** ** Configuration files and startup *)

Section StartupFacts.
Import ConfigFile Daemon.

Lemma exists_present (path : string) (w : world) :
  is_Some (fs w !! path) -> exists_ path w = (Ret true, w).
Proof.
  intros Hp. unfold exists_. rewrite bool_decide_eq_true_2 by exact Hp. reflexivity.
Qed.

Lemma exists_absent (path : string) (w : world) :
  fs w !! path = None -> exists_ path w = (Ret false, w).
Proof.
  intros Hp. unfold exists_. rewrite bool_decide_eq_false_2; [reflexivity |].
  rewrite Hp. intros [x Hx]. discriminate.
Qed.

Lemma init_config_existing (path : string) (disable_wal : bool) (w : world) :
  is_Some (fs w !! path) ->
  init_config path disable_wal w = (Throw "configuration file already exists", w).
Proof.
  intros Hp. unfold init_config, mbind, proc_mbind, proc_bind.
  rewrite exists_present by exact Hp. reflexivity.
Qed.

Lemma init_exp_config_existing (path : string) (disable_wal : bool) (w : world) :
  is_Some (fs w !! path) ->
  init_exp_config path disable_wal w = (Throw "configuration file already exists", w).
Proof.
  intros Hp. unfold init_exp_config, mbind, proc_mbind, proc_bind.
  rewrite exists_present by exact Hp. reflexivity.
Qed.

End StartupFacts.

(** C10: when a file exists at the configuration path, [init_config] and
    [init_exp_config] throw and leave the world as it is; [main] run with
    [--init] or [--init-expandable] (and without [--help], which exits
    before anything else) then exits with [EXIT_FAILURE], the file system
    untouched, nothing printed to the standard output, the failure on the
    error stream. *)
Theorem init_never_overwrites (env : environ) (argv : list string)
    (vm : Daemon.variables_map) (w : world) (path : string) :
  Daemon.opt_help vm = false ->
  Daemon.opt_init vm = true \/ Daemon.opt_init_expandable vm = true ->
  ConfigFile.get_config_path env (Daemon.opt_config vm) = Ret path ->
  is_Some (fs w !! path) ->
  (forall disable_wal,
     ConfigFile.init_config path disable_wal w
       = (Throw "configuration file already exists", w) /\
     ConfigFile.init_exp_config path disable_wal w
       = (Throw "configuration file already exists", w)) /\
  exists w',
    Daemon.main env argv vm w = (Exit EXIT_FAILURE, w') /\
    EXIT_FAILURE <> EXIT_SUCCESS /\
    fs w' = fs w /\
    cout w' = cout w /\
    cerr w' = (cerr w ++ [Daemon.cli_format env
                            "**FAILURE** configuration file already exists"])%list.
Proof.
  intros Hhelp Hinit Hpath Hp. split.
  { intros dw. split; [apply init_config_existing | apply init_exp_config_existing];
      exact Hp. }
  unfold Daemon.main, Daemon.main_body, Daemon.when, mbind, proc_mbind, proc_bind,
    mret, proc_mret, proc_ret, lift.
  rewrite Hhelp, Hpath. unfold log_info.
  set (w0 := {| fs := fs w; cout := cout w; cerr := cerr w; logs := _;
                calls := calls w |}).
  assert (Hp0 : is_Some (fs w0 !! path)) by exact Hp.
  destruct (Daemon.opt_init vm) eqn:Einit.
  - rewrite (init_config_existing _ _ _ Hp0). cbn.
    eexists; split; [reflexivity |]. cbn. repeat split; try reflexivity. discriminate.
  - destruct Hinit as [Hinit | Hinit]; [discriminate |].
    rewrite Hinit. rewrite (init_exp_config_existing _ _ _ Hp0). cbn.
    eexists; split; [reflexivity |]. cbn. repeat split; try reflexivity. discriminate.
Qed.

(** [--init] on a machine whose configuration file is already there. *)
Lemma init_never_overwrites_witness :
  let w := Scenario.with_files [("/home/aku/.akumulid", File "precious")] in
  is_Some (fs w !! "/home/aku/.akumulid") /\
  ((forall disable_wal,
      ConfigFile.init_config "/home/aku/.akumulid" disable_wal w
        = (Throw "configuration file already exists", w) /\
      ConfigFile.init_exp_config "/home/aku/.akumulid" disable_wal w
        = (Throw "configuration file already exists", w)) /\
   exists w',
     Daemon.main Scenario.machine ["akumulid"; "--init"] Scenario.only_init w
       = (Exit EXIT_FAILURE, w') /\
     EXIT_FAILURE <> EXIT_SUCCESS /\
     fs w' = fs w /\
     cout w' = cout w /\
     cerr w' = (cerr w ++ [Daemon.cli_format Scenario.machine
                             "**FAILURE** configuration file already exists"])%list).
Proof.
  intros w.
  assert (Hp : is_Some (fs w !! "/home/aku/.akumulid")) by (vm_compute; eauto).
  split; [exact Hp |].
  apply (init_never_overwrites Scenario.machine ["akumulid"; "--init"]
           Scenario.only_init w "/home/aku/.akumulid");
    [reflexivity | left; reflexivity | reflexivity | exact Hp].
Defined.

Section RoundTrip.
Import ConfigFile Daemon Expected.



End RoundTrip.



Section ServerFacts.
Import ConfigFile Daemon Expected.


Lemma get_wal_settings_missing_path (env : environ) (conf : ptree) (w : world)
    (wpath : string) :
  is_Some (find "WAL" conf) ->
  expand_path env (get_or as_string "WAL.path" "" conf) = Ret wpath ->
  fs w !! wpath = None ->
  get_wal_settings env conf w
  = (Throw "WAL.path doesn't exist", logged_line "WAL is enabled in configuration" w).
Proof.
  intros [section Hfind] Hpath Hnone.
  unfold get_wal_settings, mbind, proc_mbind, proc_bind, lift. rewrite Hfind.
  cbn [log_info]. rewrite Hpath.
  rewrite exists_absent by exact Hnone. reflexivity.
Qed.





End ServerFacts.

Section RunServerFacts.
Import ConfigFile Daemon Expected.

(** [cmd_run_server] up to the test for the database file, for a
    configuration that reads well. *)
Lemma cmd_run_server_prologue (env : environ) (cfg : option string) (w : world)
    (cfg_path text : string) (conf : ptree) (path : string)
    (servers : list ServerSettings) (wal : WALSettings) (w1 : world) :
  get_config_path env cfg = Ret cfg_path ->
  fs w !! cfg_path = Some (File text) ->
  read_ini cfg_path text = Ret conf ->
  get_path env conf = Ret path ->
  get_server_settings conf = Ret servers ->
  get_wal_settings env conf w = (Ret wal, w1) ->
  cmd_run_server env cfg w
  = (if bool_decide (is_Some (fs w1 !! path_append path "db.akumuli"))
     then (params ← wal_params env servers wal;
           run_servers env (path_append path "db.akumuli") params servers) w1
     else print_out (cli_format env (msg_no_database path)) w1).
Proof.
  intros Hcfg Hfile Hini Hpath Hservers Hwal.
  unfold cmd_run_server, read_config_file, mbind at 1 2 3 4 5 6, proc_mbind,
    proc_bind, lift, exists_.
  rewrite Hcfg, Hfile, Hini, Hpath, Hservers, Hwal.
  destruct (bool_decide _); reflexivity.
Qed.

End RunServerFacts.







(** A [WAL.path] that does not exist aborts startup: [get_wal_settings]
    throws before [cmd_run_server] reaches its own check of the path. *)
Lemma missing_wal_path_aborts :
  fs (Scenario.wal_world "/var/nowal" "4" "256MB") !! "/var/nowal" = None /\
  fst (Daemon.main Scenario.machine ["akumulid"] Scenario.no_options
         (Scenario.wal_world "/var/nowal" "4" "256MB")) = Exit EXIT_FAILURE /\
  cerr (snd (Daemon.main Scenario.machine ["akumulid"] Scenario.no_options
               (Scenario.wal_world "/var/nowal" "4" "256MB")))
  = ["FAILURE WAL.path doesn't exist"] /\
  calls (snd (Daemon.main Scenario.machine ["akumulid"] Scenario.no_options
                (Scenario.wal_world "/var/nowal" "4" "256MB"))) = [].
Proof. vm_compute. repeat split; reflexivity. Qed.

(** A [WAL.volume_size] of 5 GiB passes the check as 1 GiB: the size is
    narrowed to [int] before it is compared. *)
Lemma wal_volume_size_is_narrowed :
  ConfigFile.get_memory_size "5GB" = Ret (5 * 2 ^ 30) /\
  cast_u64_to_int (5 * 2 ^ 30) = 2 ^ 30 /\
  calls (snd (Daemon.main Scenario.machine ["akumulid"] Scenario.no_options
                (Scenario.wal_world "/var/wal" "4" "5GB")))
  = [ OpenConnection "/var/akumuli/db.akumuli"
        {| input_log_concurrency := 8; input_log_path := Some "/var/wal";
           input_log_volume_numb := 4; input_log_volume_size := 2 ^ 30 |};
      StartServer
        {| name := "HTTP";
           protocols := [ {| proto_name := "HTTP";
                             proto_endpoint := {| address := ConfigFile.any_v4;
                                                  port := 8181 |} |} ];
           nworkers := -1 |} 0 ].
Proof. vm_compute. repeat split; reflexivity. Qed.

(** ** The UDP worker: one batch *)

Local Open Scope list_scope.

Section BatchFacts.
Import UdpServer.
Context {session : Type} `{ProtocolParser session}.

(** The [for] loop over [before ++ rest] when [before] parses well. *)
Lemma parse_batch_app (parser parser' : pstate) (spout spout' : session)
    (before rest : list string) :
  parse_batch parser spout before = (Completed, parser', spout', before) ->
  parse_batch parser spout (before ++ rest)
  = (let '(e, p, s, handed) := parse_batch parser' spout' rest in
     (e, p, s, before ++ handed)).
Proof.
  revert parser spout.
  induction before as [| buf before IH]; intros parser spout Hbefore; simpl in *.
  - injection Hbefore as -> ->. destruct (parse_batch parser' spout' rest) as [[[e p] s] h].
    reflexivity.
  - destruct (parse_next parser spout buf) as [p1 s1 | | |]; try discriminate.
    destruct (parse_batch p1 s1 before) as [[[e p] s] h] eqn:E.
    injection Hbefore as -> -> -> ->.
    rewrite (IH p1 s1 E).
    destruct (parse_batch parser' spout' rest) as [[[e2 p2] s2] h2]. reflexivity.
Qed.

(** The datagrams handed to the parser are a prefix of the batch. *)
Lemma parse_batch_fed_prefix (parser : pstate) (spout : session) (msgs : list string) :
  exists dropped, msgs = snd (parse_batch parser spout msgs) ++ dropped.
Proof.
  revert parser spout. induction msgs as [| buf rest IH]; intros parser spout; simpl.
  - exists []. reflexivity.
  - destruct (parse_next parser spout buf) as [p1 s1 | | |];
      try (exists rest; reflexivity).
    destruct (IH p1 s1) as [dropped Hd].
    destruct (parse_batch p1 s1 rest) as [[[e p] s] h]. simpl in *.
    exists dropped. congruence.
Qed.

End BatchFacts.

(** C2 (as the code has it): when the datagrams [before] of a batch parse
    well and the next one, [bad], raises [StreamError], the error is caught
    and logged and the worker goes on; the datagrams [after] it in the batch
    are not handed to the parser; and the worker carries on with the
    following batches the way a worker just started on the session left
    behind does, each batch with a parser of its own. *)
Theorem malformed_datagram_ends_batch {session : Type}
    `{UdpServer.ProtocolParser session}
    (spout : session) (log : list string) (before after : list string)
    (bad what : string) (parser : UdpServer.pstate) (s s' : session)
    (batches : list (list string)) :
  UdpServer.parse_batch UdpServer.new_parser spout before
    = (UdpServer.Completed, parser, s, before) ->
  UdpServer.parse_next parser s bad = UdpServer.StreamError what s' ->
  UdpServer.handle_batch spout (before ++ bad :: after)
    = {| UdpServer.continue := true;
         UdpServer.spout_after := UdpServer.close parser s';
         UdpServer.logged := [what];
         UdpServer.fed := before ++ [bad] |} /\
  UdpServer.worker_batches spout log ((before ++ bad :: after) :: batches)
    = UdpServer.worker_batches (UdpServer.close parser s') (log ++ [what]) batches.
Proof.
  intros Hbefore Hbad.
  assert (Hhandle :
    UdpServer.handle_batch spout (before ++ bad :: after)
    = {| UdpServer.continue := true;
         UdpServer.spout_after := UdpServer.close parser s';
         UdpServer.logged := [what];
         UdpServer.fed := before ++ [bad] |}).
  { unfold UdpServer.handle_batch.
    rewrite (parse_batch_app _ _ _ _ _ _ Hbefore). simpl. rewrite Hbad. reflexivity. }
  split; [exact Hhandle |].
  simpl. rewrite Hhandle. reflexivity.
Qed.

(** A batch of a valid datagram, a malformed one and another valid one,
    followed by a batch of one valid datagram. *)
Lemma malformed_datagram_ends_batch_witness :
  UdpServer.handle_batch (H := UdpServer.line_parser) []
    (["+cpu host=a"] ++ "garbage" :: ["+mem host=a"])
    = {| UdpServer.continue := true;
         UdpServer.spout_after := ["+cpu host=a"];
         UdpServer.logged := ["unexpected parameter id format"];
         UdpServer.fed := ["+cpu host=a"] ++ ["garbage"] |} /\
  UdpServer.worker_batches (H := UdpServer.line_parser) [] []
    ((["+cpu host=a"] ++ "garbage" :: ["+mem host=a"]) :: [["+disk host=a"]])
    = UdpServer.worker_batches (H := UdpServer.line_parser) ["+cpu host=a"]
        ([] ++ ["unexpected parameter id format"]) [["+disk host=a"]].
Proof.
  apply (malformed_datagram_ends_batch (H := UdpServer.line_parser)
           [] [] ["+cpu host=a"] ["+mem host=a"] "garbage"
           "unexpected parameter id format" tt ["+cpu host=a"] ["+cpu host=a"]
           [["+disk host=a"]]);
    reflexivity.
Defined.

(** C2, the claim as stated fails: in the batch of a malformed datagram
    followed by a valid one, the valid datagram is not ingested, though alone
    in a batch it is. *)
Lemma valid_datagram_after_malformed_is_dropped :
  UdpServer.spout_after
    (UdpServer.handle_batch (H := UdpServer.line_parser) []
       ["garbage"; "+cpu host=a"]) = [] /\
  UdpServer.fed
    (UdpServer.handle_batch (H := UdpServer.line_parser) []
       ["garbage"; "+cpu host=a"]) = ["garbage"] /\
  UdpServer.spout_after
    (UdpServer.handle_batch (H := UdpServer.line_parser) [] ["+cpu host=a"])
  = ["+cpu host=a"].
Proof. repeat split; reflexivity. Qed.

(** ** The stop protocol of the UDP server *)

Section StopProtocol.
Import UdpServer.
Context {session : Type} `{ProtocolParser session}.
Variable nworkers_ : nat.
Variable NPACKETS : nat.

Local Abbreviation step := (step nworkers_ NPACKETS).
Local Abbreviation reachable := (reachable nworkers_ NPACKETS).

(** Induction over the runs of the server, newest step last. *)
Lemma reachable_ind (P : state session -> Prop) :
  (forall sessions, length sessions = nworkers_ -> P (init sessions)) ->
  (forall s s', reachable s -> step s s' -> P s -> P s') ->
  forall s, reachable s -> P s.
Proof.
  intros Hinit Hstep s (sessions & Hlen & Hrun).
  apply (rtc_ind_r (R := step) P (init sessions)); [apply Hinit, Hlen | | exact Hrun].
  intros s1 s2 Hrun1 Hs IH.
  apply (Hstep s1 s2); [exists sessions; split; assumption | exact Hs | exact IH].
Qed.

Lemma reachable_step (s s' : state session) : reachable s -> step s s' -> reachable s'.
Proof.
  intros (sessions & Hlen & Hrun) Hs. exists sessions. split; [exact Hlen |].
  eapply rtc_r; eassumption.
Qed.

(** The worker at [j] after the worker at [i] was replaced. *)
Lemma lookup_set_worker (ws : list (worker session)) (i j : nat) (w0 w' w : worker session) :
  ws !! i = Some w0 ->
  <[i := w']> ws !! j = Some w ->
  (j = i /\ w = w') \/ (j <> i /\ ws !! j = Some w).
Proof.
  intros Hi Hj. destruct (decide (j = i)) as [-> | Hne].
  - left. split; [reflexivity |].
    rewrite list_lookup_insert_eq in Hj by (eapply lookup_lt_Some; exact Hi).
    congruence.
  - right. split; [exact Hne |].
    rewrite list_lookup_insert_ne in Hj by congruence. exact Hj.
Qed.

Lemma init_lookup (sessions : list session) (i : nat) (w : worker session) :
  workers (init sessions) !! i = Some w -> pc w = AtStartBarrier.
Proof.
  unfold init. cbn [workers]. intros Hw.
  apply list_elem_of_lookup_2 in Hw. apply list_elem_of_In, in_map_iff in Hw.
  destruct Hw as (x & <- & _). reflexivity.
Qed.

(** *** The flag and the wake datagram *)

Ltac step_cases Hstep :=
  inversion Hstep; subst; clear Hstep;
  cbn [stop_ sockfd_ workers starter stopper start_arrived stop_arrived net
       closed logger_ history alive set_worker emit log_lines set_stop_
       set_sockfd_ set_starter set_stopper arrive_start arrive_stop set_net
       close_fd terminate] in *.

Ltac other_worker Hi Hj :=
  let Hne := fresh "Hne" in
  destruct (lookup_set_worker _ _ _ _ _ _ Hi Hj) as [[-> ->] | [Hne Hj']];
  cbn [pc spout at_pc] in *.

(** [stop_] is 1 from the store on, and 0 before. *)
Lemma flag_value (s : state session) :
  reachable s -> stop_ s = if stop_stored (stopper s) then 1 else 0.
Proof.
  revert s. apply reachable_ind; [reflexivity |].
  intros s s' Hreach Hstep IH.
  step_cases Hstep; try assumption;
    match goal with
    | Hpc : stopper s = _ |- _ => rewrite Hpc in IH; cbn in *; congruence
    end.
Qed.

(** A wake datagram, queued or received, means the flag is set. *)
Lemma wake_means_flag (s : state session) :
  reachable s ->
  (In Wake (net s) -> stop_ s = 1) /\
  (forall i w batch,
     workers s !! i = Some w -> pc w = Received batch -> In Wake batch ->
     stop_ s = 1).
Proof.
  revert s. apply reachable_ind.
  { intros sessions _. split; [intros [] |].
    intros i w b Hw Hpc. apply init_lookup in Hw. congruence. }
  intros s s' Hreach Hstep [Hnet Hrecv].
  pose proof (flag_value s Hreach) as Hflag.
  step_cases Hstep;
    try (split; [exact Hnet |];
         intros j wj bj Hj Hpcj Hin;
         match goal with
         | Hi : workers s !! _ = Some _ |- _ => other_worker Hi Hj
         end; [discriminate | eapply Hrecv; eassumption]);
    try (split; [exact Hnet | exact Hrecv]).
  - (* receive *)
    match goal with Hperm : net s ≡ₚ _ |- _ => rename Hperm into Hp end.
    split.
    + intros Hin. apply Hnet. eapply Permutation_in; [symmetry; exact Hp |].
      apply in_or_app. right. exact Hin.
    + intros j wj bj Hj Hpcj Hin.
      match goal with
      | Hi : workers s !! _ = Some _ |- _ => other_worker Hi Hj
      end.
      * injection Hpcj as <-. apply Hnet.
        eapply Permutation_in; [symmetry; exact Hp |].
        apply in_or_app. left. exact Hin.
      * eapply Hrecv; eassumption.
  - (* parse *)
    split; [exact Hnet |].
    intros j wj bj Hj Hpcj Hin.
    match goal with
    | Hi : workers s !! _ = Some _ |- _ => other_worker Hi Hj
    end; [| eapply Hrecv; eassumption].
    subst r. destruct (continue _); discriminate.
  - (* store *) split; reflexivity.
  - (* send *)
    match goal with Hpc : stopper s = Sending |- _ => rewrite Hpc in Hflag end.
    split; [intros _; exact Hflag | exact Hrecv].
  - (* client *)
    split; [| exact Hrecv]. intros Hin. apply Hnet.
    apply in_app_or in Hin. destruct Hin as [Hin | [Hin | []]];
      [exact Hin | discriminate].
  - (* lost *)
    split; [| exact Hrecv]. intros Hin. apply Hnet.
    match goal with Hperm : net s ≡ₚ _ |- _ =>
      eapply Permutation_in; [symmetry; exact Hperm | right; exact Hin]
    end.
Qed.

(** A worker about to parse holds no wake datagram: it found the flag
    clear after the receive. *)
Lemma wake_not_parsing (s : state session) :
  reachable s ->
  forall i w batch,
    workers s !! i = Some w -> pc w = Parsing batch -> ~ In Wake batch.
Proof.
  intros Hr. pattern s. eapply reachable_ind; [| | exact Hr]; clear s Hr.
  { intros sessions _ i w b Hw Hpc. apply init_lookup in Hw. congruence. }
  intros s s' Hreach Hstep IH.
  pose proof (flag_value s Hreach) as Hflag.
  destruct (wake_means_flag s Hreach) as [_ Hrecv].
  step_cases Hstep; try exact IH;
    intros j wj bj Hj Hpcj;
    match goal with
    | Hi : workers s !! _ = Some _ |- _ => other_worker Hi Hj
    end;
    try (eapply IH; eassumption); try discriminate.
  - (* the flag was found clear *)
    injection Hpcj as <-. intros Hin.
    match goal with
    | Hi : workers s !! _ = Some _, Hpc : pc _ = Received _, Hz : stop_ s = 0 |- _ =>
        pose proof (Hrecv _ _ _ Hi Hpc Hin) as Hone; rewrite Hz in Hone; discriminate
    end.
  - subst r. destruct (continue _); discriminate.
Qed.

(** No batch that was parsed held the wake datagram. *)
Lemma wake_not_parsed (s : state session) :
  reachable s ->
  forall i batch, In (EvParse i batch) (history s) -> ~ In Wake batch.
Proof.
  intros Hr. pattern s. eapply reachable_ind; [| | exact Hr]; clear s Hr;
    [intros sessions _ i b [] |].
  intros s s' Hreach Hstep IH.
  pose proof (wake_not_parsing s Hreach) as Hparsing.
  step_cases Hstep; try exact IH;
    intros j bj Hin;
    try (cbn in Hin;
         repeat (destruct Hin as [Hin | Hin]; [discriminate |]);
         eapply IH; exact Hin).
  (* parse *)
  apply in_app_or in Hin. destruct Hin as [Hin | Hin]; [| eapply IH; exact Hin].
  assert (Heq : EvParse i batch = EvParse j bj).
  { subst r. destruct (continue _); cbn in Hin;
      repeat (destruct Hin as [Hin | Hin]; try discriminate; try exact Hin);
      destruct Hin. }
  injection Heq as <- <-. eapply Hparsing; eassumption.
Qed.

(** *** The stop barrier *)

Lemma count_insert (f : worker session -> bool) (ws : list (worker session))
    (i : nat) (w w' : worker session) :
  ws !! i = Some w ->
  (length (List.filter f (<[i := w']> ws)) + (if f w then 1 else 0)
   = length (List.filter f ws) + (if f w' then 1 else 0))%nat.
Proof.
  intros Hi.
  rewrite insert_take_drop by (eapply lookup_lt_Some; exact Hi).
  rewrite <- (take_drop_middle ws i w Hi) at 3.
  rewrite !List.filter_app, !length_app. cbn [List.filter].
  destruct (f w), (f w'); cbn [length]; lia.
Qed.

Lemma all_counted (f : worker session -> bool) (ws : list (worker session)) :
  length (List.filter f ws) = length ws ->
  forall i w, ws !! i = Some w -> f w = true.
Proof.
  induction ws as [| x ws IH]; intros Hlen i w Hi; [discriminate |].
  cbn [List.filter] in Hlen.
  pose proof (List.filter_length_le f ws) as Hle.
  destruct (f x) eqn:Ex; cbn [length] in Hlen; [| lia].
  destruct i as [| i]; cbn in Hi.
  - congruence.
  - apply (IH ltac:(lia) i w Hi).
Qed.

(** A worker moves without reaching or leaving the barrier. *)
Lemma barrier_ok_worker (ws : list (worker session)) (arrived : nat) (p : stop_pc)
    (i : nat) (w w' : worker session) :
  barrier_ok nworkers_ ws arrived p ->
  ws !! i = Some w ->
  arrived_at_stop w' = arrived_at_stop w ->
  barrier_ok nworkers_ (<[i := w']> ws) arrived p.
Proof.
  intros (Hlen & Harr & Hall) Hi Hsame. unfold barrier_ok, count_arrived in *.
  split; [rewrite length_insert; exact Hlen |]. split.
  - pose proof (count_insert arrived_at_stop ws i w w' Hi) as Hc.
    rewrite Hsame in Hc. destruct (arrived_at_stop w); lia.
  - intros Hp j wj Hj.
    destruct (lookup_set_worker _ _ _ _ _ _ Hi Hj) as [[-> ->] | [Hne Hj']].
    + rewrite Hsame. eapply Hall; eassumption.
    + eapply Hall; eassumption.
Qed.

(** A worker arrives at the barrier. *)
Lemma barrier_ok_arrive (ws : list (worker session)) (arrived : nat) (p : stop_pc)
    (i : nat) (w w' : worker session) :
  barrier_ok nworkers_ ws arrived p ->
  ws !! i = Some w ->
  arrived_at_stop w = false ->
  arrived_at_stop w' = true ->
  barrier_ok nworkers_ (<[i := w']> ws) (S arrived) p.
Proof.
  intros (Hlen & Harr & Hall) Hi Hw Hw'. unfold barrier_ok, count_arrived in *.
  split; [rewrite length_insert; exact Hlen |]. split.
  - pose proof (count_insert arrived_at_stop ws i w w' Hi) as Hc.
    rewrite Hw, Hw' in Hc. lia.
  - intros Hp. specialize (Hall Hp i w Hi). congruence.
Qed.

Lemma barrier_inv_reachable (s : state session) :
  reachable s -> barrier_inv nworkers_ s.
Proof.
  intros Hr. pattern s. eapply reachable_ind; [| | exact Hr]; clear s Hr.
  { intros sessions Hlen. unfold barrier_inv, barrier_ok. cbn. split; [| split].
    - rewrite length_map. exact Hlen.
    - clear Hlen. unfold count_arrived.
      induction sessions as [| x xs IH]; [reflexivity | exact IH].
    - discriminate. }
  intros s s' Hreach Hstep IH. unfold barrier_inv in *.
  step_cases Hstep; try exact IH;
    try (eapply barrier_ok_worker; [exact IH | eassumption |];
         unfold arrived_at_stop; cbn [pc at_pc];
         match goal with Hpc : pc _ = _ |- _ => rewrite Hpc end;
         try reflexivity).
  - (* parse *) subst r. destruct (continue _); reflexivity.
  - (* a worker arrives *)
    eapply barrier_ok_arrive; [exact IH | eassumption | |];
      unfold arrived_at_stop; cbn [pc at_pc];
      [match goal with Hpc : pc _ = _ |- _ => rewrite Hpc end |]; reflexivity.
  - (* stop() called *)
    match goal with Hpc : stopper s = _ |- _ => rewrite Hpc in IH end. exact IH.
  - (* store *)
    match goal with Hpc : stopper s = _ |- _ => rewrite Hpc in IH end. exact IH.
  - (* send *)
    match goal with Hpc : stopper s = _ |- _ => rewrite Hpc in IH end. exact IH.
  - (* stop() arrives *)
    match goal with Hpc : stopper s = _ |- _ => rewrite Hpc in IH end.
    destruct IH as (Hlen & Harr & Hall). split; [exact Hlen |]. split.
    + cbn in *. lia.
    + discriminate.
  - (* stop() passes *)
    match goal with Hpc : stopper s = _ |- _ => rewrite Hpc in IH end.
    destruct IH as (Hlen & Harr & Hall). split; [exact Hlen |]. split.
    + exact Harr.
    + intros _. apply all_counted.
      match goal with Hopen : barrier_open _ _ |- _ =>
        unfold barrier_open in Hopen; rewrite Hopen in Harr end.
      cbn in Harr. unfold count_arrived in Harr. lia.
  - (* log *)
    match goal with Hpc : stopper s = _ |- _ => rewrite Hpc in IH end. exact IH.
  - (* close *)
    match goal with Hpc : stopper s = _ |- _ => rewrite Hpc in IH end. exact IH.
Qed.

(** *** The history *)

(** The events of the thread in [stop()] are those of its place in the
    code: the store, the send, the barrier, the close, in this order. *)
Lemma stop_events_trace (s : state session) :
  reachable s -> stop_events (history s) = stop_trace (stopper s).
Proof.
  intros Hr. pattern s. eapply reachable_ind; [| | exact Hr]; clear s Hr;
    [reflexivity |].
  intros s s' Hreach Hstep IH. unfold stop_events in *.
  step_cases Hstep;
    try match goal with r := handle_batch _ _ |- _ =>
          subst r; destruct (continue _) end;
    cbn [List.filter is_stop_event app]; try exact IH;
    match goal with Hpc : stopper s = _ |- _ =>
      rewrite Hpc in IH; cbn [stop_trace] in *; rewrite ?IH; try reflexivity;
      try exact IH
    end.
Qed.

Lemma preceded_by_nil (P Q : event -> Prop) : preceded_by P Q [].
Proof. intros newer e older Hsplit. destruct newer; discriminate. Qed.

Lemma preceded_by_cons (P Q : event -> Prop) (e : event) (h : list event) :
  preceded_by P Q h ->
  (Q e -> exists e', In e' h /\ P e') ->
  preceded_by P Q (e :: h).
Proof.
  intros Hh He newer e0 older Hsplit Hq.
  destruct newer as [| x newer]; cbn in Hsplit; injection Hsplit as -> ->.
  - apply He, Hq.
  - eapply Hh; [reflexivity | exact Hq].
Qed.

(** A worker that left its loop has the event of it in the history. *)
Lemma leave_recorded (s : state session) :
  reachable s ->
  forall i w, workers s !! i = Some w -> left_loop w = true ->
              In (EvLeave i) (history s).
Proof.
  intros Hr. pattern s. eapply reachable_ind; [| | exact Hr]; clear s Hr.
  { intros sessions _ i w Hw Hleft. apply init_lookup in Hw.
    unfold left_loop in Hleft. rewrite Hw in Hleft. discriminate. }
  intros s s' Hreach Hstep IH.
  step_cases Hstep; try exact IH;
    try (intros j wj Hj Hleft; apply in_or_app; right; eapply IH; eassumption);
    intros j wj Hj Hleft;
    match goal with
    | Hi : workers s !! _ = Some _ |- _ => other_worker Hi Hj
    end;
    try (apply in_or_app; right; eapply IH; eassumption);
    try (eapply IH; eassumption);
    try (unfold left_loop in Hleft; cbn [pc] in Hleft; discriminate);
    try (cbn; tauto).
  - (* parse *)
    subst r. unfold left_loop in Hleft. cbn [pc] in Hleft.
    destruct (continue _); [discriminate | cbn; tauto].
  - (* a worker arrives: it had left before *)
    right. eapply IH; [eassumption |].
    unfold left_loop. match goal with Hpc : pc _ = _ |- _ => rewrite Hpc end.
    reflexivity.
  - (* a worker passes: it had left before *)
    eapply IH; [eassumption |].
    unfold left_loop. match goal with Hpc : pc _ = _ |- _ => rewrite Hpc end.
    reflexivity.
Qed.

(** Every worker left its loop before the socket was closed. *)
Lemma leave_before_close (s : state session) :
  reachable s ->
  forall i, (i < nworkers_)%nat ->
            preceded_by (eq (EvLeave i)) (eq EvClose) (history s).
Proof.
  intros Hr. pattern s. eapply reachable_ind; [| | exact Hr]; clear s Hr.
  { intros sessions _ i _. apply preceded_by_nil. }
  intros s s' Hreach Hstep IH i Hi. specialize (IH i Hi).
  pose proof (barrier_inv_reachable s Hreach) as (Hlen & _ & Hall).
  pose proof (leave_recorded s Hreach) as Hleave.
  step_cases Hstep;
    try match goal with r := handle_batch _ _ |- _ =>
          subst r; destruct (continue _) end;
    cbn [app]; try exact IH;
    repeat (apply preceded_by_cons; [| try (intros Hq; discriminate Hq)]);
    try exact IH.
  (* close *)
  intros _. exists (EvLeave i). split; [| reflexivity].
  destruct (lookup_lt_is_Some_2 (workers s) i) as [w Hw]; [lia |].
  apply (Hleave i w Hw).
  match goal with Hpc : stopper s = _ |- _ => rewrite Hpc in Hall end.
  specialize (Hall eq_refl i w Hw).
  unfold arrived_at_stop in Hall. unfold left_loop.
  destruct (pc w); try discriminate; reflexivity.
Qed.

(** *** The events of one worker *)

Lemma worker_events_same (i : nat) (e : event) (h : list event) :
  actor e = Some i -> worker_events i (e :: h) = e :: worker_events i h.
Proof.
  intros He. unfold worker_events. cbn [List.filter].
  rewrite bool_decide_eq_true_2 by exact He. reflexivity.
Qed.

Lemma worker_events_other (i : nat) (e : event) (h : list event) :
  actor e <> Some i -> worker_events i (e :: h) = worker_events i h.
Proof.
  intros He. unfold worker_events. cbn [List.filter].
  rewrite bool_decide_eq_false_2 by exact He. reflexivity.
Qed.

Ltac events_of j :=
  repeat first
    [ rewrite (worker_events_same j) by reflexivity
    | rewrite (worker_events_other j) by (cbn; congruence) ].

Lemma events_inv_reachable (s : state session) : reachable s -> events_inv s.
Proof.
  intros Hr. pattern s. eapply reachable_ind; [| | exact Hr]; clear s Hr.
  { intros sessions _. split; [intros i; exact I |].
    split; intros i w b Hw Hpc; apply init_lookup in Hw; congruence. }
  intros s s' Hreach Hstep (Hparse & Hrecv & Htest). unfold events_inv.
  step_cases Hstep;
    try match goal with r := handle_batch _ _ |- _ =>
          subst r; destruct (continue _) eqn:Econt end;
    cbn [app];
    try (split; [| split]; assumption).
  all: split; [| split].
  all: try (intros j; events_of j; apply Hparse).
  all: try (intros j wj bj Hj Hpcj;
            match goal with
            | Hi : workers _ !! _ = Some _ |- _ => other_worker Hi Hj
            end;
            [ try discriminate
            | events_of j; first [eapply Hrecv | eapply Htest]; eassumption ]).
  all: try (intros j wj bj Hj Hpcj; events_of j;
            first [eapply Hrecv | eapply Htest]; eassumption).
  all: try (intros j;
            match goal with
            | Hi : workers _ !! ?i = Some _ |- _ =>
                destruct (decide (j = i)) as [-> | Hne]
            end;
            [ events_of i; cbn [parses_follow_test];
              try apply Hparse
            | events_of j; apply Hparse ]).
  - (* receive: the worker holds the batch *)
    injection Hpcj as <-. events_of i. eexists. reflexivity.
  - (* the flag found clear: the worker had received the batch *)
    injection Hpcj as <-. events_of i.
    match goal with
    | Hi : workers _ !! _ = Some _, Hpc : pc _ = Received _ |- _ =>
        destruct (Hrecv _ _ _ Hi Hpc) as [older Ho]
    end.
    rewrite Ho. eexists. reflexivity.
  - (* parse, the loop goes on *)
    split; [| apply Hparse].
    match goal with
    | Hi : workers _ !! _ = Some _, Hpc : pc _ = Parsing _ |- _ =>
        destruct (Htest _ _ _ Hi Hpc) as [older Ho]
    end.
    rewrite Ho. eexists. reflexivity.
  - (* parse, the loop is left *)
    split; [| apply Hparse].
    match goal with
    | Hi : workers _ !! _ = Some _, Hpc : pc _ = Parsing _ |- _ =>
        destruct (Htest _ _ _ Hi Hpc) as [older Ho]
    end.
    rewrite Ho. eexists. reflexivity.
Qed.

(** *** The socket *)

(** The descriptor is closed by the last statement of [stop()] only. *)
Lemma closed_means_returned (s : state session) :
  reachable s -> closed s <> [] -> stopper s = Returned.
Proof.
  intros Hr. pattern s. eapply reachable_ind; [| | exact Hr]; clear s Hr.
  { intros sessions _ Hc. exfalso. apply Hc. reflexivity. }
  intros s s' Hreach Hstep IH.
  step_cases Hstep; try exact IH; try reflexivity;
    intros Hc; specialize (IH Hc); congruence.
Qed.

(** In the order of [stop()], the store comes before the send and the
    barrier before the close. *)
Lemma stop_order (s : state session) :
  reachable s ->
  preceded_by (eq EvStoreStop) (eq EvSendWake) (history s) /\
  preceded_by (eq EvStopPass) (eq EvClose) (history s).
Proof.
  intros Hr. pattern s. eapply reachable_ind; [| | exact Hr]; clear s Hr.
  { intros sessions _. split; apply preceded_by_nil. }
  intros s s' Hreach Hstep [IHsend IHclose].
  pose proof (stop_events_trace s Hreach) as Htrace.
  assert (Hin : forall e, In e (stop_events (history s)) -> In e (history s)).
  { intros e Hin. unfold stop_events in Hin. apply List.filter_In in Hin. tauto. }
  step_cases Hstep;
    try match goal with r := handle_batch _ _ |- _ =>
          subst r; destruct (continue _) end;
    cbn [app]; try (split; assumption);
    (split;
     [ repeat (apply preceded_by_cons; [| try (intros Hq; discriminate Hq)]);
       try exact IHsend
     | repeat (apply preceded_by_cons; [| try (intros Hq; discriminate Hq)]);
       try exact IHclose ]).
  - (* send *)
    intros _. exists EvStoreStop. split; [| reflexivity]. apply Hin.
    match goal with Hpc : stopper s = _ |- _ => rewrite Hpc in Htrace end.
    rewrite Htrace. cbn. tauto.
  - (* close *)
    intros _. exists EvStopPass. split; [| reflexivity]. apply Hin.
    match goal with Hpc : stopper s = _ |- _ => rewrite Hpc in Htrace end.
    rewrite Htrace. cbn. tauto.
Qed.

End StopProtocol.

(** C1: in every state the server can reach, with the threads interleaved
    in any order: [stop_] is 1 from the store of [stop()] on; the events of
    [stop()] are, in this order, the store, the one wake datagram, the
    arrival at the stop barrier, the passing of it, the close; each parse of
    a worker comes right after its test of the flag (found clear), which
    comes right after the receive of the batch, and no parsed batch holds
    the wake datagram; every worker left its receive loop before the close,
    and once the descriptor is closed every worker is out of the loop. *)
Theorem stop_protocol {session : Type} `{UdpServer.ProtocolParser session}
    (nworkers_ NPACKETS : nat) (s : UdpServer.state session) :
  UdpServer.reachable nworkers_ NPACKETS s ->
  UdpServer.stop_ s
    = (if UdpServer.stop_stored (UdpServer.stopper s) then 1 else 0) /\
  UdpServer.stop_events (UdpServer.history s)
    = UdpServer.stop_trace (UdpServer.stopper s) /\
  UdpServer.preceded_by (eq UdpServer.EvStoreStop) (eq UdpServer.EvSendWake)
    (UdpServer.history s) /\
  (forall i,
     UdpServer.parses_follow_test
       (UdpServer.worker_events i (UdpServer.history s))) /\
  (forall i batch,
     In (UdpServer.EvParse i batch) (UdpServer.history s) ->
     ~ In UdpServer.Wake batch) /\
  UdpServer.preceded_by (eq UdpServer.EvStopPass) (eq UdpServer.EvClose)
    (UdpServer.history s) /\
  (forall i, (i < nworkers_)%nat ->
     UdpServer.preceded_by (eq (UdpServer.EvLeave i)) (eq UdpServer.EvClose)
       (UdpServer.history s)) /\
  (UdpServer.closed s <> [] ->
   forall i w, UdpServer.workers s !! i = Some w -> UdpServer.left_loop w = true).
Proof.
  intros Hreach.
  pose proof (stop_events_trace _ _ s Hreach) as Htrace.
  destruct (stop_order _ _ s Hreach) as [Hstore Hpass].
  repeat split.
  - apply (flag_value _ _ s Hreach).
  - exact Htrace.
  - exact Hstore.
  - apply (events_inv_reachable _ _ s Hreach).
  - apply (wake_not_parsed _ _ s Hreach).
  - exact Hpass.
  - apply (leave_before_close _ _ s Hreach).
  - intros Hclosed i w Hw.
    pose proof (closed_means_returned _ _ s Hreach Hclosed) as Hret.
    destruct (barrier_inv_reachable _ _ s Hreach) as (_ & _ & Hall).
    rewrite Hret in Hall. specialize (Hall eq_refl i w Hw).
    unfold UdpServer.arrived_at_stop in Hall. unfold UdpServer.left_loop.
    destruct (UdpServer.pc w); try discriminate; reflexivity.
Qed.

Section StoppedServer.
Import UdpServer.

Local Tactic Notation "go" open_constr(c) :=
  eapply rtc_l; [ eapply c; try reflexivity; try (cbn; lia) | cbn ].

(** The run that leads to [stopped_server]. *)
Lemma stopped_server_reachable : reachable 1 2 stopped_server.
Proof.
  exists [[]]. split; [reflexivity |].
  go (worker_start_arrive 1 2 _ 0%nat).
  go (start_arrive 1 2).
  go (worker_start_pass 1 2 _ 0%nat).
  go (start_pass 1 2).
  go (worker_setup_ok 1 2 _ 0%nat).
  go (client_send 1 2 _ "+cpu host=a").
  go (worker_receive 1 2 _ 0%nat _ [Data "+cpu host=a"] []).
  go (worker_stop_clear 1 2 _ 0%nat).
  go (worker_parse 1 2 _ 0%nat).
  go (stop_called 1 2).
  go (stop_store 1 2).
  go (stop_send 1 2).
  go (worker_receive 1 2 _ 0%nat _ [Wake] []).
  go (worker_stop_seen 1 2 _ 0%nat).
  go (worker_stop_arrive 1 2 _ 0%nat).
  go (stop_arrive 1 2).
  go (stop_pass 1 2).
  go (worker_stop_pass 1 2 _ 0%nat).
  go (stop_log 1 2).
  go (stop_close 1 2).
  apply rtc_refl.
Qed.

(** The stop protocol on the run of [stopped_server]. *)
Lemma stop_protocol_witness :
  UdpServer.reachable 1 2 UdpServer.stopped_server /\
  UdpServer.stop_ UdpServer.stopped_server
    = (if UdpServer.stop_stored (UdpServer.stopper UdpServer.stopped_server)
       then 1 else 0) /\
  UdpServer.stop_events (UdpServer.history UdpServer.stopped_server)
    = UdpServer.stop_trace (UdpServer.stopper UdpServer.stopped_server) /\
  UdpServer.preceded_by (eq UdpServer.EvStoreStop) (eq UdpServer.EvSendWake)
    (UdpServer.history UdpServer.stopped_server) /\
  (forall i,
     UdpServer.parses_follow_test
       (UdpServer.worker_events i (UdpServer.history UdpServer.stopped_server))) /\
  (forall i batch,
     In (UdpServer.EvParse i batch) (UdpServer.history UdpServer.stopped_server) ->
     ~ In UdpServer.Wake batch) /\
  UdpServer.preceded_by (eq UdpServer.EvStopPass) (eq UdpServer.EvClose)
    (UdpServer.history UdpServer.stopped_server) /\
  (forall i, (i < 1)%nat ->
     UdpServer.preceded_by (eq (UdpServer.EvLeave i)) (eq UdpServer.EvClose)
       (UdpServer.history UdpServer.stopped_server)) /\
  (UdpServer.closed UdpServer.stopped_server <> [] ->
   forall i w,
     UdpServer.workers UdpServer.stopped_server !! i = Some w ->
     UdpServer.left_loop w = true).
Proof.
  split; [exact stopped_server_reachable |].
  apply (stop_protocol 1 2 UdpServer.stopped_server stopped_server_reachable).
Defined.

End StoppedServer.

(** ** The query results pooler *)

Section PoolerFacts.
Import QueryResultsPooler.

Lemma append_created (data : string) (p : pooler) :
  cursor_ p = None ->
  exists p', append data p = inr (tt, p') /\ cursor_ p' = None.
Proof.
  intros Hc. unfold append, throw_if_started. rewrite Hc.
  eexists. split; [reflexivity | reflexivity].
Qed.

Lemma append_all_created (chunks : list string) (p : pooler) :
  cursor_ p = None ->
  exists p', append_all chunks p = inr (tt, p') /\ cursor_ p' = None.
Proof.
  revert p. induction chunks as [| data rest IH]; intros p Hc; cbn [append_all].
  - exists p. split; [reflexivity | exact Hc].
  - destruct (append_created data p Hc) as (p1 & Happ & Hc1).
    rewrite Happ. apply IH, Hc1.
Qed.

Lemma started_rejects (p : pooler) :
  is_Some (cursor_ p) ->
  (forall data, append data p = inl AlreadyStarted) /\ start p = inl AlreadyStarted.
Proof.
  intros [c Hc]. unfold append, start, throw_if_started. rewrite Hc. auto.
Qed.

(** [read_some] keeps a started pooler started. *)
Lemma read_some_started (n : nat) (p p' : pooler) (r : string * bool) :
  read_some n p = inr (r, p') -> is_Some (cursor_ p').
Proof.
  unfold read_some. destruct (cursor_ p) as [c |] eqn:Hc; [| discriminate].
  destruct (rdbuf_pos_ p =? rdbuf_top_ p)%nat.
  - destruct (is_error c).
    + destruct (error_produced_ p); intros Hr; injection Hr as _ <-; cbn; eauto.
    + destruct (is_done c).
      * intros Hr; injection Hr as _ <-; eauto.
      * destruct (cursor_read (capacity p) c) as [samples c'].
        destruct (drain _ samples 0 n) as [text pos].
        intros Hr; injection Hr as _ <-; cbn; eauto.
  - destruct (drain _ _ _ n) as [text pos].
    intros Hr; injection Hr as _ <-; cbn; eauto.
Qed.

Lemma read_many_started (sizes : list nat) (p p' : pooler)
    (rs : list (string * bool)) :
  is_Some (cursor_ p) ->
  read_many sizes p = inr (rs, p') -> is_Some (cursor_ p').
Proof.
  revert p rs. induction sizes as [| n rest IH]; intros p rs Hc; cbn [read_many].
  - intros Hr; injection Hr as _ <-. exact Hc.
  - destruct (read_some n p) as [e | [r p1]] eqn:Hread; [discriminate |].
    destruct (read_many rest p1) as [e | [rs1 p2]] eqn:Hmany; [discriminate |].
    intros Hr; injection Hr as _ <-.
    eapply IH; [eapply read_some_started; exact Hread | exact Hmany].
Qed.


End PoolerFacts.

(** C3: a pooler in [Created] (built, with any chunks appended) rejects
    [read_some] with [NotStarted]; [start] then succeeds, and from then on,
    also after any reads, [append] and a second [start] fail with
    [AlreadyStarted]. *)
Theorem pooler_created_started (session : QueryResultsPooler.DbSession)
    (readbufsize : nat) (endpoint : QueryResultsPooler.ApiEndpoint)
    (chunks : list string) (buf_size : nat) :
  exists p,
    QueryResultsPooler.append_all chunks
      (QueryResultsPooler.create session readbufsize endpoint) = inr (tt, p) /\
    QueryResultsPooler.read_some buf_size p = inl QueryResultsPooler.NotStarted /\
    exists p',
      QueryResultsPooler.start p = inr (tt, p') /\
      (forall data,
         QueryResultsPooler.append data p' = inl QueryResultsPooler.AlreadyStarted) /\
      QueryResultsPooler.start p' = inl QueryResultsPooler.AlreadyStarted /\
      (forall sizes rs p'',
         QueryResultsPooler.read_many sizes p' = inr (rs, p'') ->
         (forall data,
            QueryResultsPooler.append data p''
            = inl QueryResultsPooler.AlreadyStarted) /\
         QueryResultsPooler.start p'' = inl QueryResultsPooler.AlreadyStarted).
Proof.
  destruct (append_all_created chunks
              (QueryResultsPooler.create session readbufsize endpoint) eq_refl)
    as (p & Happ & Hc).
  exists p. split; [exact Happ |]. split.
  { unfold QueryResultsPooler.read_some. rewrite Hc. reflexivity. }
  unfold QueryResultsPooler.start at 1, QueryResultsPooler.throw_if_started.
  rewrite Hc. eexists. split; [reflexivity |].
  assert (Hs : is_Some (QueryResultsPooler.cursor_
                          {| QueryResultsPooler.query_text_ := QueryResultsPooler.query_text_ p;
                             QueryResultsPooler.session_ := QueryResultsPooler.session_ p;
                             QueryResultsPooler.cursor_ :=
                               Some (QueryResultsPooler.query
                                       (QueryResultsPooler.session_ p)
                                       (QueryResultsPooler.query_text_ p));
                             QueryResultsPooler.formatter_ :=
                               Some (QueryResultsPooler.sample_text
                                       (QueryResultsPooler.session_ p)
                                       (QueryResultsPooler.endpoint_ p));
                             QueryResultsPooler.rdbuf_ := QueryResultsPooler.rdbuf_ p;
                             QueryResultsPooler.rdbuf_pos_ := QueryResultsPooler.rdbuf_pos_ p;
                             QueryResultsPooler.rdbuf_top_ := QueryResultsPooler.rdbuf_top_ p;
                             QueryResultsPooler.capacity := QueryResultsPooler.capacity p;
                             QueryResultsPooler.endpoint_ := QueryResultsPooler.endpoint_ p;
                             QueryResultsPooler.error_produced_ :=
                               QueryResultsPooler.error_produced_ p |}))
    by (cbn; eauto).
  destruct (started_rejects _ Hs) as [Happend Hstart].
  split; [exact Happend |]. split; [exact Hstart |].
  intros sizes rs p'' Hmany.
  apply started_rejects. eapply read_many_started; [exact Hs | exact Hmany].
Qed.



(** * Further properties *)

(** ** Sizes and server settings *)

Section SettingsFacts.
Import ConfigFile Registry MoreScenarios.
Local Open Scope string_scope.
Local Open Scope Z_scope.

Lemma digits_value_nonneg (s : string) (acc v : Z) :
  0 <= acc -> digits_value acc s = Some v -> 0 <= v.
Proof.
  revert acc. induction s as [| c rest IH]; intros acc Hacc; cbn [digits_value].
  - intros Hv. injection Hv as <-. exact Hacc.
  - destruct (is_digit c) eqn:Hd; [| discriminate].
    apply IH. unfold is_digit in Hd. unfold digit_value.
    apply andb_true_iff in Hd. destruct Hd as [Hlo _]. apply Z.leb_le in Hlo. lia.
Qed.

Lemma magnitude_nonneg (s : string) (v : Z) : magnitude s = Some v -> 0 <= v.
Proof.
  unfold magnitude. destruct s; [discriminate |].
  apply digits_value_nonneg. lia.
Qed.

Lemma lexical_cast_u64_range (s : string) (v : Z) :
  lexical_cast_u64 s = Some v -> 0 <= v < 2 ^ 64.
Proof.
  unfold lexical_cast_u64. destruct (split_sign s) as [neg body].
  destruct (magnitude body) as [m |] eqn:Hm; [| discriminate].
  apply magnitude_nonneg in Hm.
  destruct (m <=? u64_max) eqn:Hle; [| discriminate].
  apply Z.leb_le in Hle. unfold u64_max in Hle.
  intros Hv. injection Hv as <-.
  destruct neg; [unfold wrap_u64; apply Z.mod_pos_bound |]; lia.
Qed.

Lemma as_ushort_range (s : string) (v : Z) :
  as_ushort s = Some v -> 0 <= v < 65536.
Proof.
  unfold as_ushort, extract_unsigned. destruct (split_sign s) as [neg body].
  destruct (magnitude body) as [m |] eqn:Hm; [| discriminate].
  apply magnitude_nonneg in Hm.
  destruct (m <=? 2 ^ 16 - 1) eqn:Hle; [| discriminate].
  apply Z.leb_le in Hle.
  intros Hv. injection Hv as <-.
  destruct neg; [change 65536 with (2 ^ 16); apply Z.mod_pos_bound |]; lia.
Qed.

Lemma get_port_range (path : string) (conf : ptree) (v : Z) :
  get as_ushort path conf = Ret v -> 0 <= v < 65536.
Proof.
  unfold get. destruct (get_child_optional path conf); [| discriminate].
  destruct (as_ushort (data p)) eqn:Hp; [| discriminate].
  intros Hv. injection Hv as <-. eapply as_ushort_range, Hp.
Qed.

Ltac run_outcome :=
  unfold mbind, outcome_bind, bind, mret, outcome_ret in *.

(** What [get_http_server] returns. *)
Lemma get_http_server_shape (conf : ptree) (s : ServerSettings) :
  get_http_server conf = Ret s ->
  name s = "HTTP" /\ nworkers s = -1 /\
  exists e, protocols s = [ {| proto_name := "HTTP"; proto_endpoint := e |} ] /\
            0 <= port e < 65536.
Proof.
  unfold get_http_server. run_outcome.
  destruct (get_optional as_string "HTTP.bind_addr" conf).
  - destruct (address_v4_from_string s0); try discriminate.
    destruct (get as_ushort "HTTP.port" conf) eqn:Hp; try discriminate.
    intros Hs. injection Hs as <-. cbn. repeat split.
    eexists. split; [reflexivity |]. cbn. eapply get_port_range, Hp.
  - destruct (get as_ushort "HTTP.port" conf) eqn:Hp; try discriminate.
    intros Hs. injection Hs as <-. cbn. repeat split.
    eexists. split; [reflexivity |]. cbn. eapply get_port_range, Hp.
Qed.

(** What [get_udp_server] returns. *)
Lemma get_udp_server_shape (conf : ptree) (s : ServerSettings) :
  get_udp_server conf = Ret s ->
  name s = "UDP" /\ get as_int "UDP.pool_size" conf = Ret (nworkers s) /\
  exists e, protocols s = [ {| proto_name := "UDP"; proto_endpoint := e |} ] /\
            0 <= port e < 65536.
Proof.
  unfold get_udp_server. run_outcome.
  destruct (get_optional as_string "UDP.bind_addr" conf).
  - destruct (address_v4_from_string s0); try discriminate.
    destruct (get as_ushort "UDP.port" conf) eqn:Hp; try discriminate.
    destruct (get as_int "UDP.pool_size" conf) eqn:Hw; try discriminate.
    intros Hs. injection Hs as <-. cbn. repeat split.
    eexists. split; [reflexivity |]. cbn. eapply get_port_range, Hp.
  - destruct (get as_ushort "UDP.port" conf) eqn:Hp; try discriminate.
    destruct (get as_int "UDP.pool_size" conf) eqn:Hw; try discriminate.
    intros Hs. injection Hs as <-. cbn. repeat split.
    eexists. split; [reflexivity |]. cbn. eapply get_port_range, Hp.
Qed.

(** What [get_tcp_server] returns. *)
Lemma get_tcp_server_shape (conf : ptree) (s : ServerSettings) :
  get_tcp_server conf = Ret s ->
  name s = "TCP" /\ get as_int "TCP.pool_size" conf = Ret (nworkers s) /\
  exists e,
    0 <= port e < 65536 /\
    ((count "OpenTSDB" conf = 0%nat /\
      protocols s = [ {| proto_name := "RESP"; proto_endpoint := e |} ]) \/
     (count "OpenTSDB" conf <> 0%nat /\
      exists o,
        0 <= port o < 65536 /\
        protocols s = [ {| proto_name := "RESP"; proto_endpoint := e |};
                        {| proto_name := "OpenTSDB"; proto_endpoint := o |} ])).
Proof.
  unfold get_tcp_server. run_outcome.
  intros Hs.
  match type of Hs with
  | match ?resp with _ => _ end = _ =>
      destruct resp as [r | | |] eqn:Hresp; try discriminate
  end.
  assert (Hr : exists e, r = {| proto_name := "RESP"; proto_endpoint := e |}
                         /\ 0 <= port e < 65536).
  { destruct (get_optional as_string "TCP.bind_addr" conf).
    - destruct (address_v4_from_string s0); try discriminate.
      destruct (get as_ushort "TCP.port" conf) eqn:Hp; try discriminate.
      injection Hresp as <-. eexists. split; [reflexivity |].
      cbn. eapply get_port_range, Hp.
    - destruct (get as_ushort "TCP.port" conf) eqn:Hp; try discriminate.
      injection Hresp as <-. eexists. split; [reflexivity |].
      cbn. eapply get_port_range, Hp. }
  destruct Hr as (e & -> & He). clear Hresp.
  destruct (Nat.eqb (count "OpenTSDB" conf) 0) eqn:Hcount.
  - apply Nat.eqb_eq in Hcount.
    destruct (get as_int "TCP.pool_size" conf) eqn:Hw; try discriminate.
    injection Hs as <-. cbn. repeat split. exists e. split; [exact He |].
    left. split; [exact Hcount | reflexivity].
  - apply Nat.eqb_neq in Hcount.
    match type of Hs with
    | match ?tsdb with _ => _ end = _ =>
        destruct tsdb as [t | | |] eqn:Htsdb; try discriminate
    end.
    assert (Ht : exists o, t = [ {| proto_name := "OpenTSDB"; proto_endpoint := o |} ]
                           /\ 0 <= port o < 65536).
    { destruct (get_optional as_string "OpenTSDB.bind_addr" conf).
      - destruct (address_v4_from_string s0); try discriminate.
        destruct (get as_ushort "OpenTSDB.port" conf) eqn:Hp; try discriminate.
        injection Htsdb as <-. eexists. split; [reflexivity |].
        cbn. eapply get_port_range, Hp.
      - destruct (get as_ushort "OpenTSDB.port" conf) eqn:Hp; try discriminate.
        injection Htsdb as <-. eexists. split; [reflexivity |].
        cbn. eapply get_port_range, Hp. }
    destruct Ht as (o & -> & Ho). clear Htsdb.
    destruct (get as_int "TCP.pool_size" conf) eqn:Hw; try discriminate.
    injection Hs as <-. cbn. repeat split. exists e. split; [exact He |].
    right. split; [exact Hcount |]. exists o. split; [exact Ho | reflexivity].
Qed.

(** [get_server_settings] taken apart: one getter per section present, in
    the order of the map. *)
Lemma get_server_settings_parts (conf : ptree) (servers : list ServerSettings) :
  get_server_settings conf = Ret servers ->
  exists http tcp udp,
    servers = (http ++ tcp ++ udp)%list /\
    (if Nat.eqb (count "HTTP" conf) 0 then http = []
     else exists s, http = [s] /\ get_http_server conf = Ret s) /\
    (if Nat.eqb (count "TCP" conf) 0 then tcp = []
     else exists s, tcp = [s] /\ get_tcp_server conf = Ret s) /\
    (if Nat.eqb (count "UDP" conf) 0 then udp = []
     else exists s, udp = [s] /\ get_udp_server conf = Ret s).
Proof.
  unfold get_server_settings, mapping. cbn [collect_servers]. run_outcome.
  intros Hs.
  destruct (Nat.eqb (count "HTTP" conf) 0);
    [| destruct (get_http_server conf) as [h | | |]; try discriminate ];
  (destruct (Nat.eqb (count "TCP" conf) 0);
    [| destruct (get_tcp_server conf) as [t | | |]; try discriminate ]);
  (destruct (Nat.eqb (count "UDP" conf) 0);
    [| destruct (get_udp_server conf) as [u | | |]; try discriminate ]);
  injection Hs as <-.
  - exists [], [], []. repeat split.
  - exists [], [], [u]. repeat split. eauto.
  - exists [], [t], []. repeat split. eauto.
  - exists [], [t], [u]. repeat split; eauto.
  - exists [h], [], []. repeat split. eauto.
  - exists [h], [], [u]. repeat split; eauto.
  - exists [h], [t], []. repeat split; eauto.
  - exists [h], [t], [u]. repeat split; eauto.
Qed.

(** Each getter returns or throws. *)
Lemma getter_returns_or_throws (key : string)
    (getter : ptree -> outcome ServerSettings) (conf : ptree) :
  In (key, getter) mapping ->
  (exists s, getter conf = Ret s) \/ (exists what, getter conf = Throw what).
Proof.
  assert (Hget : forall A (tr : string -> option A) path,
             (exists v, get tr path conf = Ret v)
             \/ (exists what, get tr path conf = Throw what)).
  { intros A tr path. unfold get.
    destruct (get_child_optional path conf); [| right; eauto].
    destruct (tr (data p)); [left | right]; eauto. }
  assert (Haddr : forall ip,
             (exists v, address_v4_from_string ip = Ret v)
             \/ (exists what, address_v4_from_string ip = Throw what)).
  { intros ip. unfold address_v4_from_string.
    destruct (List.map octet (split_on "." ip)) as [| [a |] [| [b |] [| [c |] [| [d |] [|]]]]];
      eauto. }
  assert (Hendpoint : forall A (bind_addr port_key : string) (k : list Z -> Z -> A),
             (exists v,
                 match get_optional as_string bind_addr conf with
                 | Some ip =>
                     addr ← address_v4_from_string ip;
                     port ← get as_ushort port_key conf;
                     Ret (k addr port)
                 | None =>
                     port ← get as_ushort port_key conf;
                     Ret (k any_v4 port)
                 end = Ret v)
             \/ (exists what,
                 match get_optional as_string bind_addr conf with
                 | Some ip =>
                     addr ← address_v4_from_string ip;
                     port ← get as_ushort port_key conf;
                     Ret (k addr port)
                 | None =>
                     port ← get as_ushort port_key conf;
                     Ret (k any_v4 port)
                 end = Throw what)).
  { intros A bind_addr port_key k. run_outcome.
    destruct (get_optional as_string bind_addr conf) as [ip |].
    - destruct (Haddr ip) as [[a ->] | [what ->]]; [| eauto].
      destruct (Hget _ as_ushort port_key) as [[p ->] | [what ->]]; eauto.
    - destruct (Hget _ as_ushort port_key) as [[p ->] | [what ->]]; eauto. }
  unfold mapping. cbn [In].
  intros [Hk | [Hk | [Hk | []]]]; injection Hk as _ <-.
  - apply (Hendpoint _ "HTTP.bind_addr" "HTTP.port"
             (fun addr port =>
                {| name := "HTTP";
                   protocols := [ {| proto_name := "HTTP";
                                     proto_endpoint := {| address := addr; port := port |} |} ];
                   nworkers := -1 |})).
  - unfold get_tcp_server. run_outcome.
    destruct (Hendpoint _ "TCP.bind_addr" "TCP.port"
                (fun addr port =>
                   {| proto_name := "RESP";
                      proto_endpoint := {| address := addr; port := port |} |}))
      as [[r Hr] | [what Hr]]; run_outcome; cbn in Hr; rewrite Hr; [| eauto].
    destruct (Nat.eqb (count "OpenTSDB" conf) 0).
    + destruct (Hget _ as_int "TCP.pool_size") as [[p ->] | [what ->]]; eauto.
    + destruct (Hendpoint _ "OpenTSDB.bind_addr" "OpenTSDB.port"
                  (fun addr port =>
                     [ {| proto_name := "OpenTSDB";
                          proto_endpoint := {| address := addr; port := port |} |} ]))
        as [[t Ht] | [what Ht]]; run_outcome; cbn in Ht; rewrite Ht; [| eauto].
      destruct (Hget _ as_int "TCP.pool_size") as [[p ->] | [what ->]]; eauto.
  - unfold get_udp_server. run_outcome.
    destruct (get_optional as_string "UDP.bind_addr" conf) as [ip |].
    + destruct (Haddr ip) as [[a ->] | [what ->]]; [| eauto].
      destruct (Hget _ as_ushort "UDP.port") as [[p ->] | [what ->]]; [| eauto].
      destruct (Hget _ as_int "UDP.pool_size") as [[n ->] | [what ->]]; eauto.
    + destruct (Hget _ as_ushort "UDP.port") as [[p ->] | [what ->]]; [| eauto].
      destruct (Hget _ as_int "UDP.pool_size") as [[n ->] | [what ->]]; eauto.
Qed.

(** [collect_servers] returns or throws, and throws as soon as the getter
    of a section that is there throws. *)
Lemma collect_servers_throws (m : list (string * (ptree -> outcome ServerSettings)))
    (conf : ptree) (key : string) (getter : ptree -> outcome ServerSettings)
    (what : string) :
  (forall k g, In (k, g) m ->
     (exists s, g conf = Ret s) \/ (exists what, g conf = Throw what)) ->
  In (key, getter) m ->
  count key conf <> 0%nat ->
  getter conf = Throw what ->
  exists what', collect_servers m conf = Throw what'.
Proof.
  induction m as [| [k g] rest IH]; intros Hm Hin Hcount Hthrow; [destruct Hin |].
  cbn [collect_servers]. run_outcome.
  destruct Hin as [Heq | Hin].
  - injection Heq as -> ->.
    apply Nat.eqb_neq in Hcount. rewrite Hcount, Hthrow. eauto.
  - destruct (IH (fun k' g' Hi => Hm k' g' (or_intror Hi)) Hin Hcount Hthrow)
      as [what' Hrest].
    destruct (Nat.eqb (count k conf) 0); [eauto |].
    destruct (Hm k g (or_introl eq_refl)) as [[s ->] | [w' ->]]; [| eauto].
    run_outcome. rewrite Hrest. eauto.
Qed.

(** X1: a size written as a number, a unit letter G, g, M or m and a final
    B or b is the number times 2^30 or 2^20, reduced modulo 2^64: a product
    that does not fit 64 bits wraps around and is not rejected. *)
Theorem memory_size_with_suffix (digits : string) (unit_letter b : ascii) (v : Z) :
  lexical_cast_u64 digits = Some v ->
  Expected.is_b b = true ->
  Expected.is_giga unit_letter || Expected.is_mega unit_letter = true ->
  get_memory_size (digits ++ String unit_letter (String b ""))
  = Ret ((v * (if Expected.is_giga unit_letter then 2 ^ 30 else 2 ^ 20)) mod 2 ^ 64).
Proof.
  intros Hv Hb Hu.
  rewrite (get_memory_size_suffix digits unit_letter b v Hv Hb Hu).
  reflexivity.
Qed.

(** The size [17179869184GB] is 2^64 bytes and comes out as 0. *)
Lemma memory_size_with_suffix_witness :
  get_memory_size ("17179869184" ++ String "G" (String "B" "")) = Ret 0.
Proof.
  apply (memory_size_with_suffix "17179869184" "G" "B" 17179869184); reflexivity.
Defined.

(** X2: [get_memory_size] reads or erases out of the bounds of its string
    on exactly three inputs: the empty string, [B] and [b]. On every other
    input it returns a size or throws. *)
Theorem memory_size_undefined_inputs (s : string) :
  get_memory_size s = Undefined <-> s = "" \/ s = "B" \/ s = "b".
Proof. apply get_memory_size_undefined. Qed.

(** X3: the servers come in the order HTTP, TCP, UDP, one for each of these
    sections the configuration has, whatever the order of the sections in
    the file. *)
Theorem server_settings_order (conf : ptree) (servers : list ServerSettings) :
  get_server_settings conf = Ret servers ->
  List.map name servers
  = List.filter (fun key => negb (Nat.eqb (count key conf) 0)) ["HTTP"; "TCP"; "UDP"].
Proof.
  intros Hs.
  destruct (get_server_settings_parts conf servers Hs)
    as (http & tcp & udp & -> & Hhttp & Htcp & Hudp).
  cbn [List.filter].
  destruct (Nat.eqb (count "HTTP" conf) 0);
    [subst http | destruct Hhttp as (h & -> & Hh);
                  apply get_http_server_shape in Hh; destruct Hh as (Hn1 & _)];
  (destruct (Nat.eqb (count "TCP" conf) 0);
    [subst tcp | destruct Htcp as (t & -> & Ht);
                 apply get_tcp_server_shape in Ht; destruct Ht as (Hn2 & _)]);
  (destruct (Nat.eqb (count "UDP" conf) 0);
    [subst udp | destruct Hudp as (u & -> & Hu);
                 apply get_udp_server_shape in Hu; destruct Hu as (Hn3 & _)]);
  cbn; congruence.
Qed.

Lemma server_settings_order_witness :
  List.map name
    [ {| name := "HTTP";
         protocols := [ {| proto_name := "HTTP";
                           proto_endpoint := {| address := any_v4; port := 8181 |} |} ];
         nworkers := -1 |};
      {| name := "UDP";
         protocols := [ {| proto_name := "UDP";
                           proto_endpoint := {| address := any_v4; port := 8383 |} |} ];
         nworkers := 2 |} ]
  = List.filter (fun key => negb (Nat.eqb (count key (tree_of udp_then_http)) 0))
      ["HTTP"; "TCP"; "UDP"].
Proof. apply (server_settings_order (tree_of udp_then_http)). reflexivity. Defined.

(** X4: a [[TCP]] or [[UDP]] section without the key [pool_size] makes
    [get_server_settings] throw: the key has no default. *)
Theorem missing_pool_size_aborts (conf : ptree) (section : string) :
  section = "TCP" \/ section = "UDP" ->
  count section conf <> 0%nat ->
  get_child_optional (section ++ ".pool_size") conf = None ->
  exists what, get_server_settings conf = Throw what.
Proof.
  intros Hsection Hcount Hmissing.
  unfold get_server_settings.
  destruct Hsection as [-> | ->].
  - assert (Hpool : get as_int "TCP.pool_size" conf
                    = Throw "No such node (TCP.pool_size)").
    { unfold get.
      replace (get_child_optional "TCP.pool_size" conf) with (@None ptree)
        by (symmetry; exact Hmissing).
      reflexivity. }
    destruct (getter_returns_or_throws "TCP" get_tcp_server conf)
      as [[s Hs] | [what Hs]]; [cbn; tauto | |].
    + apply get_tcp_server_shape in Hs. destruct Hs as (_ & Hs & _).
      rewrite Hpool in Hs. discriminate.
    + eapply (collect_servers_throws mapping conf "TCP" get_tcp_server what);
        [ intros k g; apply getter_returns_or_throws | cbn; tauto
        | exact Hcount | exact Hs ].
  - assert (Hpool : get as_int "UDP.pool_size" conf
                    = Throw "No such node (UDP.pool_size)").
    { unfold get.
      replace (get_child_optional "UDP.pool_size" conf) with (@None ptree)
        by (symmetry; exact Hmissing).
      reflexivity. }
    destruct (getter_returns_or_throws "UDP" get_udp_server conf)
      as [[s Hs] | [what Hs]]; [cbn; tauto | |].
    + apply get_udp_server_shape in Hs. destruct Hs as (_ & Hs & _).
      rewrite Hpool in Hs. discriminate.
    + eapply (collect_servers_throws mapping conf "UDP" get_udp_server what);
        [ intros k g; apply getter_returns_or_throws | cbn; tauto
        | exact Hcount | exact Hs ].
Qed.

Lemma missing_pool_size_aborts_witness :
  exists what, get_server_settings (tree_of tcp_without_pool) = Throw what.
Proof.
  apply (missing_pool_size_aborts (tree_of tcp_without_pool) "TCP").
  - left. reflexivity.
  - vm_compute. discriminate.
  - reflexivity.
Defined.

(** X5: the OpenTSDB listener is a protocol of the TCP server only: without
    a [[TCP]] section no server listens for OpenTSDB, whatever the
    [[OpenTSDB]] section says. *)
Theorem opentsdb_needs_tcp (conf : ptree) (servers : list ServerSettings) :
  count "TCP" conf = 0%nat ->
  get_server_settings conf = Ret servers ->
  forall settings protocol,
    In settings servers -> In protocol (protocols settings) ->
    proto_name protocol <> "OpenTSDB".
Proof.
  intros Hcount Hs settings protocol Hin Hp.
  destruct (get_server_settings_parts conf servers Hs)
    as (http & tcp & udp & -> & Hhttp & Htcp & Hudp).
  rewrite Hcount in Htcp. cbn in Htcp. subst tcp. cbn [app] in Hin.
  apply in_app_or in Hin. destruct Hin as [Hin | Hin].
  - destruct (Nat.eqb (count "HTTP" conf) 0); [subst http; destruct Hin |].
    destruct Hhttp as (h & -> & Hh). destruct Hin as [<- | []].
    apply get_http_server_shape in Hh. destruct Hh as (_ & _ & e & Hprot & _).
    rewrite Hprot in Hp. destruct Hp as [<- | []]. discriminate.
  - destruct (Nat.eqb (count "UDP" conf) 0); [subst udp; destruct Hin |].
    destruct Hudp as (u & -> & Hu). destruct Hin as [<- | []].
    apply get_udp_server_shape in Hu. destruct Hu as (_ & _ & e & Hprot & _).
    rewrite Hprot in Hp. destruct Hp as [<- | []]. discriminate.
Qed.

Lemma opentsdb_needs_tcp_witness :
  count "OpenTSDB" (tree_of udp_then_http) = 1%nat /\
  forall settings protocol,
    In settings
      [ {| name := "HTTP";
           protocols := [ {| proto_name := "HTTP";
                             proto_endpoint := {| address := any_v4; port := 8181 |} |} ];
           nworkers := -1 |};
        {| name := "UDP";
           protocols := [ {| proto_name := "UDP";
                             proto_endpoint := {| address := any_v4; port := 8383 |} |} ];
           nworkers := 2 |} ] ->
    In protocol (protocols settings) ->
    proto_name protocol <> "OpenTSDB".
Proof.
  split; [reflexivity |].
  apply (opentsdb_needs_tcp (tree_of udp_then_http)); reflexivity.
Defined.

(** X6: the settings [get_server_settings] makes for the [[UDP]] section are
    accepted by [UdpServerBuilder]: the server is built with one protocol,
    and its worker count is the [UDP.pool_size] of the configuration as it
    stands (a zero or negative count is passed on). *)
Theorem udp_settings_pass_builder (conf : ptree) (servers : list ServerSettings)
    (settings : ServerSettings) :
  get_server_settings conf = Ret servers ->
  In settings servers ->
  name settings = "UDP" ->
  exists e,
    UdpServerBuilder settings = Ret (nworkers settings, e) /\
    get as_int "UDP.pool_size" conf = Ret (nworkers settings) /\
    get as_ushort "UDP.port" conf = Ret (port e).
Proof.
  intros Hs Hin Hname.
  destruct (get_server_settings_parts conf servers Hs)
    as (http & tcp & udp & -> & Hhttp & Htcp & Hudp).
  apply in_app_or in Hin. destruct Hin as [Hin | Hin].
  { destruct (Nat.eqb (count "HTTP" conf) 0); [subst http; destruct Hin |].
    destruct Hhttp as (h & -> & Hh). destruct Hin as [<- | []].
    apply get_http_server_shape in Hh. destruct Hh as (Hn & _).
    rewrite Hn in Hname. discriminate. }
  apply in_app_or in Hin. destruct Hin as [Hin | Hin].
  { destruct (Nat.eqb (count "TCP" conf) 0); [subst tcp; destruct Hin |].
    destruct Htcp as (t & -> & Ht). destruct Hin as [<- | []].
    apply get_tcp_server_shape in Ht. destruct Ht as (Hn & _).
    rewrite Hn in Hname. discriminate. }
  destruct (Nat.eqb (count "UDP" conf) 0); [subst udp; destruct Hin |].
  destruct Hudp as (u & -> & Hu). destruct Hin as [<- | []].
  clear Hhttp Htcp Hs Hname.
  unfold get_udp_server in Hu. run_outcome.
  destruct (get_optional as_string "UDP.bind_addr" conf).
  - destruct (address_v4_from_string s); try discriminate.
    destruct (get as_ushort "UDP.port" conf) eqn:Hp; try discriminate.
    destruct (get as_int "UDP.pool_size" conf) eqn:Hw; try discriminate.
    injection Hu as <-. eexists. repeat split.
  - destruct (get as_ushort "UDP.port" conf) eqn:Hp; try discriminate.
    destruct (get as_int "UDP.pool_size" conf) eqn:Hw; try discriminate.
    injection Hu as <-. eexists. repeat split.
Qed.

Lemma udp_settings_pass_builder_witness :
  exists e,
    UdpServerBuilder
      {| name := "UDP";
         protocols := [ {| proto_name := "UDP";
                           proto_endpoint := {| address := any_v4; port := 8383 |} |} ];
         nworkers := 2 |}
    = Ret (2, e) /\
    get as_int "UDP.pool_size" (tree_of udp_then_http) = Ret 2 /\
    get as_ushort "UDP.port" (tree_of udp_then_http) = Ret (port e).
Proof.
  apply (udp_settings_pass_builder (tree_of udp_then_http)
           [ {| name := "HTTP";
                protocols := [ {| proto_name := "HTTP";
                                  proto_endpoint := {| address := any_v4; port := 8181 |} |} ];
                nworkers := -1 |};
             {| name := "UDP";
                protocols := [ {| proto_name := "UDP";
                                  proto_endpoint := {| address := any_v4; port := 8383 |} |} ];
                nworkers := 2 |} ]).
  - reflexivity.
  - right. left. reflexivity.
  - reflexivity.
Defined.

End SettingsFacts.

(** ** The commands and [main] *)

Section CommandFacts.
Import ConfigFile Daemon Scenario MoreScenarios Effects.
Local Open Scope string_scope.
Local Open Scope Z_scope.

Ltac proc_unfold :=
  unfold mbind, proc_mbind, proc_bind, mret, proc_mret, proc_ret, lift, throw,
    exit in *.

Lemma world_eta (w : world) :
  {| fs := fs w; cout := cout w; cerr := cerr w; logs := logs w; calls := calls w |}
  = w.
Proof. destruct w. reflexivity. Qed.

(** [rich_print] puts one line on the standard output for each line of the
    text. *)
Lemma print_lines_cout (env : environ) (lines : list string) (w : world) :
  print_lines env lines w
  = (Ret tt, {| fs := fs w;
                cout := (cout w ++ List.map (cli_format env) lines)%list;
                cerr := cerr w; logs := logs w; calls := calls w |}).
Proof.
  revert w. induction lines as [| line rest IH]; intros w; cbn [print_lines List.map].
  - proc_unfold. rewrite app_nil_r, world_eta. reflexivity.
  - proc_unfold. unfold print_out at 1. rewrite IH. cbn [fs cout cerr logs calls].
    rewrite <- app_assoc. reflexivity.
Qed.


(** X7: [--help] wins over every other option: the help text is printed,
    one formatted line for each of its lines, and the process exits with
    success; no file is read or written, the engine is not called, nothing
    is logged, and the configuration path is not even looked up. *)
Theorem help_wins (env : environ) (argv : list string) (vm : variables_map)
    (w : world) :
  opt_help vm = true ->
  main env argv vm w
  = (Exit EXIT_SUCCESS,
     {| fs := fs w;
        cout := (cout w ++ List.map (cli_format env) (getlines CLI_HELP_MESSAGE))%list;
        cerr := cerr w; logs := logs w; calls := calls w |}).
Proof.
  intros Hhelp. unfold main, main_body, when. rewrite Hhelp.
  unfold rich_print. proc_unfold. rewrite print_lines_cout. reflexivity.
Qed.

Lemma help_wins_witness :
  main homeless ["akumulid"; "--help"; "--init"] with_option_help empty_world
  = (Exit EXIT_SUCCESS,
     {| fs := fs empty_world;
        cout := (cout empty_world
                 ++ List.map (cli_format homeless) (getlines CLI_HELP_MESSAGE))%list;
        cerr := cerr empty_world; logs := logs empty_world;
        calls := calls empty_world |}).
Proof.
  apply (help_wins homeless ["akumulid"; "--help"; "--init"] with_option_help
           empty_world).
  reflexivity.
Defined.

(** X8: without [HOME] in the environment and without [--config], every
    run but [--help] has undefined behaviour: [get_config_path] builds a
    path from the null pointer that [getenv] returns, before any command
    is looked at. *)
Theorem no_home_is_undefined (env : environ) (argv : list string)
    (vm : variables_map) (w : world) :
  HOME env = None ->
  opt_config vm = None ->
  opt_help vm = false ->
  main env argv vm w = (Undefined, w).
Proof.
  intros Hhome Hconfig Hhelp.
  unfold main, main_body, when. rewrite Hhelp, Hconfig.
  unfold get_config_path. rewrite Hhome. reflexivity.
Qed.

Lemma no_home_is_undefined_witness :
  main homeless ["akumulid"; "--version"]
    {| opt_help := false; opt_config := None; opt_create := false;
       opt_allocate := false; opt_delete := false; opt_CI := false;
       opt_init := false; opt_init_expandable := false; opt_disable_wal := false;
       opt_debug_dump := None; opt_debug_recovery_dump := None;
       opt_version := true |} empty_world
  = (Undefined, empty_world).
Proof. apply no_home_is_undefined; reflexivity. Defined.





End CommandFacts.

(** ** The commands on a configuration that was read *)

Section LoadedConfiguration.
Import ConfigFile Daemon Scenario MoreScenarios Effects.
Local Open Scope string_scope.
Local Open Scope Z_scope.

Variable env : environ.
Variable cfg : option string.
Variable w : world.
Variables config_path text path : string.
Variable config : ptree.

Hypothesis Hconfig_path : get_config_path env cfg = Ret config_path.
Hypothesis Hfile : fs w !! config_path = Some (File text).
Hypothesis Hparse : read_ini config_path text = Ret config.
Hypothesis Hpath : get_path env config = Ret path.

Ltac proc_unfold :=
  unfold mbind, proc_mbind, proc_bind, mret, proc_mret, proc_ret, lift, throw,
    exit in *.

Lemma read_loaded : read_config_file config_path w = (Ret config, w).
Proof. unfold read_config_file. rewrite Hfile, Hparse. reflexivity. Qed.

(** X11: [--create] and [--CI] never touch a database that is there: the
    command prints an error line and returns, the engine is not called and
    no file changes. *)
Theorem existing_database_is_kept (test_db allocate : bool) (volumes volsize : Z) :
  get_nvolumes config = Ret volumes ->
  get_volume_size config = Ret volsize ->
  is_Some (fs w !! path_append path "db.akumuli") ->
  cmd_create_database env cfg test_db allocate w
  = (Ret tt, printed (cli_format env "**ERROR** database file already exists") w).
Proof.
  intros Hvolumes Hvolsize Hthere.
  unfold cmd_create_database. proc_unfold.
  rewrite Hconfig_path, read_loaded, Hpath, Hvolumes, Hvolsize.
  unfold create_db_files. proc_unfold.
  rewrite (exists_present _ _ Hthere). reflexivity.
Qed.

(** X12: when no database is there, the engine is asked once for a new
    one, with the configured number of volumes and volume size; with [--CI]
    the size is [AKU_TEST_DB_SIZE] instead. If the engine reports an error
    the command throws; the call and what the engine did to the files
    stay. *)
Theorem new_database_sizes (test_db allocate : bool) (volumes volsize status : Z)
    (files : gmap string fsnode) :
  get_nvolumes config = Ret volumes ->
  get_volume_size config = Ret volsize ->
  fs w !! path_append path "db.akumuli" = None ->
  aku_create_database_ex env path volumes
    (if test_db then AKU_TEST_DB_SIZE else volsize) allocate (fs w)
  = (status, files) ->
  cmd_create_database env cfg test_db allocate w
  = (if status =? APR_SUCCESS then Ret tt
     else Throw ("can't create database: " ++ apr_strerror env status),
     {| fs := files;
        cout := if status =? APR_SUCCESS
                then (cout w ++ [cli_format env ("**OK** database created, path: `"
                                                 ++ path ++ "`")])%list
                else cout w;
        cerr := cerr w; logs := logs w;
        calls := (calls w
                  ++ [CreateDatabase path volumes
                        (if test_db then AKU_TEST_DB_SIZE else volsize)
                        allocate])%list |}).
Proof.
  intros Hvolumes Hvolsize Hnone Hengine.
  unfold cmd_create_database. proc_unfold.
  rewrite Hconfig_path, read_loaded, Hpath, Hvolumes, Hvolsize.
  unfold create_db_files. proc_unfold.
  rewrite (exists_absent _ _ Hnone). rewrite Hengine.
  unfold set_fs, record_call, print_out. cbn [fs cout cerr logs calls].
  destruct (status =? APR_SUCCESS); reflexivity.
Qed.

(** X13: [--CI] does not use the configured [volume_size], yet the command
    fails when that size cannot be decoded: the size is read before it is
    replaced. The engine is not called. *)
Theorem ci_needs_volume_size (allocate : bool) (volumes : Z) (what : string) :
  get_nvolumes config = Ret volumes ->
  get_volume_size config = Throw what ->
  cmd_create_database env cfg true allocate w = (Throw what, w).
Proof.
  intros Hvolumes Hvolsize.
  unfold cmd_create_database. proc_unfold.
  rewrite Hconfig_path, read_loaded, Hpath, Hvolumes, Hvolsize. reflexivity.
Qed.

(** X14: [--delete] reads the WAL settings first: when the configuration
    has a [[WAL]] section whose path does not exist, the command throws and
    the database is not removed. *)
Theorem delete_needs_wal_path (wpath : string) :
  is_Some (find "WAL" config) ->
  expand_path env (get_or as_string "WAL.path" "" config) = Ret wpath ->
  fs w !! wpath = None ->
  cmd_delete_database env cfg w
  = (Throw "WAL.path doesn't exist",
     logged_line "WAL is enabled in configuration" w).
Proof.
  intros Hwal Hwpath Hnone.
  unfold cmd_delete_database. proc_unfold.
  rewrite Hconfig_path, read_loaded, Hpath.
  rewrite (get_wal_settings_missing_path env config w wpath Hwal Hwpath Hnone).
  reflexivity.
Qed.

(** X15: a dump asked for a database that is not there prints an error
    line and returns normally; the dump function of the engine is not
    called. *)
Theorem dump_without_database (dump : string -> option string -> Z)
    (note : string -> option string -> sys_event) (outfname : option string) :
  fs w !! path_append path "db.akumuli" = None ->
  dump_with env dump note cfg outfname w
  = (Ret tt, printed (cli_format env "**ERROR** database file doesn't exists") w).
Proof.
  intros Hnone.
  unfold dump_with. proc_unfold.
  rewrite Hconfig_path, read_loaded, Hpath.
  rewrite (exists_absent _ _ Hnone). reflexivity.
Qed.

(** X16: a dump to [stdout] that succeeds prints nothing of its own: the
    engine is called with a null file name and the standard output is left
    to it. A dump to a file prints one line that names the file. *)
Theorem dump_to_stdout_is_silent (dump : string -> option string -> Z)
    (note : string -> option string -> sys_event) (target : string) :
  is_Some (fs w !! path_append path "db.akumuli") ->
  dump (path_append path "db.akumuli") (dump_target target) = APR_SUCCESS ->
  dump_with env dump note cfg (dump_target target) w
  = (Ret tt,
     if String.eqb target "stdout"
     then called (note (path_append path "db.akumuli") None) w
     else printed (cli_format env ("**OK** `" ++ target
                                   ++ "` successfully generated for `"
                                   ++ quoted path ++ "`"))
            (called (note (path_append path "db.akumuli") (Some target)) w)).
Proof.
  intros Hthere Hstatus.
  unfold dump_with. proc_unfold.
  rewrite Hconfig_path, read_loaded, Hpath.
  rewrite (exists_present _ _ Hthere). rewrite Hstatus.
  unfold dump_target. destruct (String.eqb target "stdout"); reflexivity.
Qed.

End LoadedConfiguration.


Section LoadedWitnesses.
Import ConfigFile Daemon Scenario MoreScenarios Effects.
Local Open Scope string_scope.
Local Open Scope Z_scope.

(** [--create --allocate] on a machine that has a database. *)
Lemma existing_database_is_kept_witness :
  cmd_create_database machine None false true
    (configured_with_database udp_then_http)
  = (Ret tt,
     printed (cli_format machine "**ERROR** database file already exists")
       (configured_with_database udp_then_http)).
Proof.
  apply (existing_database_is_kept machine None
           (configured_with_database udp_then_http)
           "/home/aku/.akumulid" udp_then_http "/var/akumuli"
           (tree_of udp_then_http)) with (volumes := 4) (volsize := 4 * 2 ^ 30).
  - reflexivity.
  - vm_compute. reflexivity.
  - vm_compute. reflexivity.
  - vm_compute. reflexivity.
  - vm_compute. reflexivity.
  - vm_compute. reflexivity.
  - vm_compute. eauto.
Defined.

(** [--CI] on a machine without a database. *)
Lemma new_database_sizes_witness :
  cmd_create_database machine None true false (configured udp_then_http)
  = (if 0 =? APR_SUCCESS then Ret tt
     else Throw ("can't create database: " ++ apr_strerror machine 0),
     {| fs := <["/var/akumuli/db.akumuli" := File ""]>
                (fs (configured udp_then_http));
        cout := if 0 =? APR_SUCCESS
                then (cout (configured udp_then_http)
                      ++ [cli_format machine ("**OK** database created, path: `"
                                              ++ "/var/akumuli" ++ "`")])%list
                else cout (configured udp_then_http);
        cerr := cerr (configured udp_then_http);
        logs := logs (configured udp_then_http);
        calls := (calls (configured udp_then_http)
                  ++ [CreateDatabase "/var/akumuli" 4
                        (if true then AKU_TEST_DB_SIZE else 4 * 2 ^ 30)
                        false])%list |}).
Proof.
  apply (new_database_sizes machine None (configured udp_then_http)
           "/home/aku/.akumulid" udp_then_http "/var/akumuli"
           (tree_of udp_then_http)).
  - reflexivity.
  - vm_compute. reflexivity.
  - vm_compute. reflexivity.
  - vm_compute. reflexivity.
  - vm_compute. reflexivity.
  - vm_compute. reflexivity.
  - vm_compute. reflexivity.
  - reflexivity.
Defined.

(** [--CI] with a [volume_size] of [4TB]. *)
Lemma ci_needs_volume_size_witness :
  cmd_create_database machine None true false (configured terabyte_volumes)
  = (Throw "can't decode volume size: `4TB`", configured terabyte_volumes).
Proof.
  apply (ci_needs_volume_size machine None (configured terabyte_volumes)
           "/home/aku/.akumulid" terabyte_volumes "/var/akumuli"
           (tree_of terabyte_volumes)) with (volumes := 4).
  - reflexivity.
  - vm_compute. reflexivity.
  - vm_compute. reflexivity.
  - vm_compute. reflexivity.
  - vm_compute. reflexivity.
  - vm_compute. reflexivity.
Defined.

(** [--delete] with the WAL directory gone. *)
Lemma delete_needs_wal_path_witness :
  cmd_delete_database machine None (wal_world "/var/nowal" "4" "256MB")
  = (Throw "WAL.path doesn't exist",
     logged_line "WAL is enabled in configuration"
       (wal_world "/var/nowal" "4" "256MB")).
Proof.
  apply (delete_needs_wal_path machine None (wal_world "/var/nowal" "4" "256MB")
           "/home/aku/.akumulid" (wal_config_text "/var/nowal" "4" "256MB")
           "/var/akumuli"
           (tree_of (wal_config_text "/var/nowal" "4" "256MB")))
    with (wpath := "/var/nowal").
  - reflexivity.
  - vm_compute. reflexivity.
  - vm_compute. reflexivity.
  - vm_compute. reflexivity.
  - vm_compute. eauto.
  - vm_compute. reflexivity.
  - vm_compute. reflexivity.
Defined.

(** [--debug-dump=stdout] on a machine without a database. *)
Lemma dump_without_database_witness :
  dump_with machine (aku_debug_report_dump machine) DebugDump None None
    (configured udp_then_http)
  = (Ret tt,
     printed (cli_format machine "**ERROR** database file doesn't exists")
       (configured udp_then_http)).
Proof.
  apply (dump_without_database machine None (configured udp_then_http)
           "/home/aku/.akumulid" udp_then_http "/var/akumuli"
           (tree_of udp_then_http)).
  - reflexivity.
  - vm_compute. reflexivity.
  - vm_compute. reflexivity.
  - vm_compute. reflexivity.
  - vm_compute. reflexivity.
Defined.

(** [--debug-recovery-dump=stdout] on a machine with a database. *)
Lemma dump_to_stdout_is_silent_witness :
  dump_with machine (aku_debug_recovery_report_dump machine) RecoveryDump None
    (dump_target "stdout") (configured_with_database udp_then_http)
  = (Ret tt,
     if String.eqb "stdout" "stdout"
     then called (RecoveryDump (path_append "/var/akumuli" "db.akumuli") None)
            (configured_with_database udp_then_http)
     else printed (cli_format machine ("**OK** `" ++ "stdout"
                                       ++ "` successfully generated for `"
                                       ++ quoted "/var/akumuli" ++ "`"))
            (called (RecoveryDump (path_append "/var/akumuli" "db.akumuli")
                       (Some "stdout"))
               (configured_with_database udp_then_http))).
Proof.
  apply (dump_to_stdout_is_silent machine None
           (configured_with_database udp_then_http)
           "/home/aku/.akumulid" udp_then_http "/var/akumuli"
           (tree_of udp_then_http)).
  - reflexivity.
  - vm_compute. reflexivity.
  - vm_compute. reflexivity.
  - vm_compute. reflexivity.
  - vm_compute. eauto.
  - reflexivity.
Defined.

End LoadedWitnesses.

(** ** The WAL settings and the concurrency of the log *)

Section WalFacts.
Import ConfigFile Daemon Scenario MoreScenarios Registry Effects.
Local Open Scope string_scope.
Local Open Scope Z_scope.

Lemma max_concurrency_lower (env : environ) (servers : list ServerSettings) (c : Z) :
  c <= max_concurrency env servers c.
Proof.
  revert c. induction servers as [| s rest IH]; intros c; cbn [max_concurrency].
  - lia.
  - etransitivity; [| apply IH]. apply Z.le_max_l.
Qed.

Lemma max_concurrency_spec (env : environ) (servers : list ServerSettings) (c : Z) :
  c <= max_concurrency env servers c /\
  Forall (fun settings => concurrency_of env settings <= max_concurrency env servers c)
    servers /\
  (max_concurrency env servers c = c \/
   exists settings,
     In settings servers /\ max_concurrency env servers c = concurrency_of env settings).
Proof.
  revert c. induction servers as [| s rest IH]; intros c; cbn [max_concurrency].
  - split; [lia |]. split; [constructor | left; reflexivity].
  - fold (concurrency_of env s).
    destruct (IH (Z.max c (concurrency_of env s))) as (Hlow & Hall & Hmax).
    split; [lia |]. split.
    + constructor; [lia | exact Hall].
    + destruct Hmax as [Hmax | (t & Hin & Hmax)].
      * destruct (Z.max_spec c (concurrency_of env s)) as [[_ Hm] | [_ Hm]].
        -- right. exists s. split; [left; reflexivity | congruence].
        -- left. congruence.
      * right. exists t. split; [right; exact Hin | exact Hmax].
Qed.

(** X17: a [[WAL]] section without the key [path] does not disable the
    log: the empty default is handed to [wordexp], which finds no word in
    it, and [get_wal_settings] throws. *)
Theorem wal_section_needs_path (env : environ) (conf : ptree) (w : world) :
  is_Some (find "WAL" conf) ->
  get_child_optional "WAL.path" conf = None ->
  wordexp env "" = Some [] ->
  get_wal_settings env conf w
  = (Throw "expansion error, path: ``",
     logged_line "WAL is enabled in configuration" w).
Proof.
  intros [section Hfind] Hmissing Hwordexp.
  unfold get_wal_settings, mbind, proc_mbind, proc_bind, lift. rewrite Hfind.
  cbn [log_info].
  unfold get_or, get_optional. rewrite Hmissing.
  unfold expand_path. rewrite Hwordexp. reflexivity.
Qed.

Lemma wal_section_needs_path_witness :
  get_wal_settings machine (tree_of wal_without_path) empty_world
  = (Throw "expansion error, path: ``",
     logged_line "WAL is enabled in configuration" empty_world).
Proof.
  apply (wal_section_needs_path machine (tree_of wal_without_path) empty_world).
  - vm_compute. eauto.
  - reflexivity.
  - reflexivity.
Defined.

(** X18: with no [[WAL]] section in the configuration and the database
    in place, [cmd_run_server] opens the engine with the zeroed parameters
    (no log) and starts the servers; the checks of the WAL values are not
    run and print nothing. *)
Theorem run_without_wal_section (env : environ) (cfg : option string) (w : world)
    (config_path text path : string) (config : ptree)
    (servers : list ServerSettings) :
  get_config_path env cfg = Ret config_path ->
  fs w !! config_path = Some (File text) ->
  read_ini config_path text = Ret config ->
  get_path env config = Ret path ->
  get_server_settings config = Ret servers ->
  find "WAL" config = None ->
  is_Some (fs w !! path_append path "db.akumuli") ->
  cmd_run_server env cfg w
  = run_servers env (path_append path "db.akumuli") no_params servers
      (logged_line "WAL is disabled in configuration" w).
Proof.
  intros Hcp Hfile Hparse Hpath Hservers Hwal Hdb.
  assert (Hsettings : get_wal_settings env config w
                      = (Ret no_wal, logged_line "WAL is disabled in configuration" w)).
  { unfold get_wal_settings. rewrite Hwal. reflexivity. }
  rewrite (cmd_run_server_prologue env cfg w config_path text config path servers
             no_wal _ Hcp Hfile Hparse Hpath Hservers Hsettings).
  rewrite bool_decide_eq_true_2 by exact Hdb.
  reflexivity.
Qed.

Lemma run_without_wal_section_witness :
  cmd_run_server machine None (configured_with_database udp_then_http)
  = run_servers machine (path_append "/var/akumuli" "db.akumuli") no_params
      [ {| name := "HTTP";
           protocols := [ {| proto_name := "HTTP";
                             proto_endpoint := {| address := any_v4; port := 8181 |} |} ];
           nworkers := -1 |};
        {| name := "UDP";
           protocols := [ {| proto_name := "UDP";
                             proto_endpoint := {| address := any_v4; port := 8383 |} |} ];
           nworkers := 2 |} ]
      (logged_line "WAL is disabled in configuration"
         (configured_with_database udp_then_http)).
Proof.
  apply (run_without_wal_section machine None
           (configured_with_database udp_then_http)
           "/home/aku/.akumulid" udp_then_http "/var/akumuli"
           (tree_of udp_then_http)).
  - reflexivity.
  - vm_compute. reflexivity.
  - vm_compute. reflexivity.
  - vm_compute. reflexivity.
  - vm_compute. reflexivity.
  - vm_compute. reflexivity.
  - vm_compute. eauto.
Defined.

(** X19: the concurrency [cmd_run_server] gives the log is the largest
    worker count among the servers, a negative count standing for the
    hardware concurrency and any other count read as [unsigned]; it is 0
    when no server has a larger one. *)
Theorem max_concurrency_is_maximum (env : environ) (servers : list ServerSettings) :
  0 <= max_concurrency env servers 0 /\
  Forall (fun settings => concurrency_of env settings <= max_concurrency env servers 0)
    servers /\
  (max_concurrency env servers 0 = 0 \/
   exists settings,
     In settings servers /\ max_concurrency env servers 0 = concurrency_of env settings).
Proof.
  destruct (max_concurrency_spec env servers 0) as (Hlow & Hall & Hmax).
  split; [exact Hlow |]. split; [exact Hall | exact Hmax].
Qed.

End WalFacts.

(** ** The console format *)

Section FormatFacts.
Import Daemon Markup MoreScenarios.
Local Open Scope string_scope.

Lemma prefix_other (c d : ascii) (p rest : string) :
  ascii_eqb c d = false -> String.prefix (String c p) (String d rest) = false.
Proof.
  intros Hne. cbn [String.prefix].
  destruct (ascii_dec c d) as [-> | _]; [| reflexivity].
  unfold ascii_eqb in Hne. rewrite Ascii.eqb_refl in Hne. discriminate.
Qed.

Lemma has_char_app (c : ascii) (s t : string) :
  has_char c (s ++ t) = has_char c s || has_char c t.
Proof.
  induction s as [| d rest IH]; [reflexivity |].
  rewrite append_cons. cbn [has_char]. rewrite IH. apply orb_assoc.
Qed.

Lemma marker_free_has_char (c : ascii) (s : string) :
  is_marker c = true -> marker_free s = true -> has_char c s = false.
Proof.
  intros Hc. induction s as [| d rest IH]; [reflexivity |].
  cbn [marker_free has_char]. intros Hs.
  apply andb_true_iff in Hs. destruct Hs as [Hd Hrest].
  rewrite (IH Hrest), orb_false_r.
  unfold ascii_eqb. destruct (Ascii.eqb c d) eqn:E; [| reflexivity].
  apply Ascii.eqb_eq in E. subst d. rewrite Hc in Hd. discriminate.
Qed.

(** A piece without the first character of the pattern goes through a pass
    as it is. *)
Lemma format_tokens_skip (c : ascii) (p open : string) (n : nat) (a rest : string) :
  has_char c a = false ->
  format_tokens (String c p) open n 0 (a ++ rest)
  = a ++ format_tokens (String c p) open n 0 rest.
Proof.
  induction a as [| d a' IH]; [reflexivity |].
  cbn [has_char]. intros Hno. apply orb_false_iff in Hno. destruct Hno as [Hd Ha].
  rewrite !append_cons. cbn [format_tokens].
  rewrite (prefix_other c d p _ Hd). rewrite (IH Ha). reflexivity.
Qed.

Lemma strip_tokens_skip (c : ascii) (p : string) (a rest : string) :
  has_char c a = false ->
  strip_tokens (String c p) 0 (a ++ rest) = a ++ strip_tokens (String c p) 0 rest.
Proof.
  induction a as [| d a' IH]; [reflexivity |].
  cbn [has_char]. intros Hno. apply orb_false_iff in Hno. destruct Hno as [Hd Ha].
  rewrite !append_cons. cbn [strip_tokens].
  rewrite (prefix_other c d p _ Hd). rewrite (IH Ha). reflexivity.
Qed.

Lemma append_empty (s : string) : s ++ "" = s.
Proof. induction s as [| c rest IH]; [reflexivity |]. rewrite append_cons, IH. reflexivity. Qed.

Lemma format_tokens_id (c : ascii) (p open : string) (n : nat) (s : string) :
  has_char c s = false -> format_tokens (String c p) open n 0 s = s.
Proof.
  intros Hno. rewrite <- (append_empty s) at 1.
  rewrite (format_tokens_skip c p open n s "" Hno). apply append_empty.
Qed.

Lemma strip_tokens_id (c : ascii) (p : string) (s : string) :
  has_char c s = false -> strip_tokens (String c p) 0 s = s.
Proof.
  intros Hno. rewrite <- (append_empty s) at 1.
  rewrite (strip_tokens_skip c p s "" Hno). apply append_empty.
Qed.

Lemma format_tokens_hit2 (c : ascii) (open : string) (n : nat) (rest : string) :
  format_tokens (String c (String c "")) open n 0 (String c (String c "") ++ rest)
  = (if Nat.even n then open else NORM)
    ++ format_tokens (String c (String c "")) open (S n) 0 rest.
Proof.
  rewrite !append_cons. change ("" ++ rest) with rest.
  cbn [format_tokens String.prefix String.length Nat.pred].
  destruct (ascii_dec c c) as [_ | Hne]; [| contradiction].
  destruct (ascii_dec c c) as [_ | Hne]; [| contradiction].
  destruct rest; reflexivity.
Qed.

Lemma format_tokens_hit1 (c : ascii) (open : string) (n : nat) (rest : string) :
  format_tokens (String c "") open n 0 (String c "" ++ rest)
  = (if Nat.even n then open else NORM)
    ++ format_tokens (String c "") open (S n) 0 rest.
Proof.
  rewrite !append_cons. change ("" ++ rest) with rest.
  cbn [format_tokens String.prefix String.length Nat.pred].
  destruct (ascii_dec c c) as [_ | Hne]; [| contradiction].
  destruct rest; reflexivity.
Qed.

Lemma strip_tokens_hit2 (c : ascii) (rest : string) :
  strip_tokens (String c (String c "")) 0 (String c (String c "") ++ rest)
  = strip_tokens (String c (String c "")) 0 rest.
Proof.
  rewrite !append_cons. change ("" ++ rest) with rest.
  cbn [strip_tokens String.prefix String.length Nat.pred].
  destruct (ascii_dec c c) as [_ | Hne]; [| contradiction].
  destruct (ascii_dec c c) as [_ | Hne]; [| contradiction].
  destruct rest; reflexivity.
Qed.

Lemma strip_tokens_hit1 (c : ascii) (rest : string) :
  strip_tokens (String c "") 0 (String c "" ++ rest)
  = strip_tokens (String c "") 0 rest.
Proof.
  rewrite !append_cons. change ("" ++ rest) with rest.
  cbn [strip_tokens String.prefix String.length Nat.pred].
  destruct (ascii_dec c c) as [_ | Hne]; [| contradiction].
  destruct rest; reflexivity.
Qed.

Ltac no_char :=
  rewrite ?has_char_app;
  repeat (rewrite marker_free_has_char by (assumption || reflexivity));
  reflexivity.

(** X20: a line without any of the characters [*], [_] and backtick is
    printed as it is, on a terminal or not. *)
Theorem cli_format_keeps_plain_text (env : environ) (line : string) :
  marker_free line = true -> cli_format env line = line.
Proof.
  intros Hfree. unfold cli_format.
  destruct (negb (isatty_stdout env)).
  - rewrite (strip_tokens_id "*") by no_char.
    rewrite (strip_tokens_id "_") by no_char.
    apply (strip_tokens_id "`"). no_char.
  - rewrite (format_tokens_id "*") by no_char.
    rewrite (format_tokens_id "_") by no_char.
    apply (format_tokens_id "`"). no_char.
Qed.

Lemma cli_format_keeps_plain_text_witness :
  cli_format terminal "UDP server stopped" = "UDP server stopped".
Proof. apply (cli_format_keeps_plain_text terminal "UDP server stopped"). reflexivity. Defined.

(** X21: a piece of text between two markers of one kind ([**], [__] or
    backtick) is printed on a terminal between the code of the marker and
    the code that resets the format, and elsewhere without the markers;
    after a marker that is not closed the code stays open to the end of
    the line. The pieces hold no marker character. *)
Theorem cli_format_pair (env : environ) (marker code a b c : string) :
  In (marker, code) codes ->
  marker_free a = true -> marker_free b = true -> marker_free c = true ->
  cli_format env (a ++ marker ++ b ++ marker ++ c)
  = (if isatty_stdout env then a ++ code ++ b ++ NORM ++ c else a ++ b ++ c)
  /\
  cli_format env (a ++ marker ++ b)
  = (if isatty_stdout env then a ++ code ++ b else a ++ b).
Proof.
  intros Hin Ha Hb Hc.
  pose proof (marker_free_has_char "*" a eq_refl Ha) as Ha1.
  pose proof (marker_free_has_char "_" a eq_refl Ha) as Ha2.
  pose proof (marker_free_has_char "`" a eq_refl Ha) as Ha3.
  pose proof (marker_free_has_char "*" b eq_refl Hb) as Hb1.
  pose proof (marker_free_has_char "_" b eq_refl Hb) as Hb2.
  pose proof (marker_free_has_char "`" b eq_refl Hb) as Hb3.
  pose proof (marker_free_has_char "*" c eq_refl Hc) as Hc1.
  pose proof (marker_free_has_char "_" c eq_refl Hc) as Hc2.
  pose proof (marker_free_has_char "`" c eq_refl Hc) as Hc3.
  assert (Hfree : forall ch s t, has_char ch (s ++ t) = false
                                 <-> has_char ch s = false /\ has_char ch t = false).
  { intros ch s t. rewrite has_char_app. apply orb_false_iff. }
  unfold cli_format, codes in *.
  destruct Hin as [Hin | [Hin | [Hin | []]]]; injection Hin as <- <-;
    destruct (isatty_stdout env); cbn [negb]; split.
  - rewrite (format_tokens_skip "*" _ _ _ a) by assumption.
    rewrite format_tokens_hit2.
    rewrite (format_tokens_skip "*" _ _ _ b) by assumption.
    rewrite format_tokens_hit2.
    rewrite (format_tokens_id "*" _ _ _ c) by assumption. cbn [Nat.even].
    rewrite (format_tokens_id "_") by (rewrite !Hfree; repeat split; assumption || reflexivity).
    apply (format_tokens_id "`"). rewrite !Hfree; repeat split; assumption || reflexivity.
  - rewrite (format_tokens_skip "*" _ _ _ a) by assumption.
    rewrite format_tokens_hit2.
    rewrite (format_tokens_id "*" _ _ _ b) by assumption. cbn [Nat.even].
    rewrite (format_tokens_id "_") by (rewrite !Hfree; repeat split; assumption || reflexivity).
    apply (format_tokens_id "`"). rewrite !Hfree; repeat split; assumption || reflexivity.
  - rewrite (strip_tokens_skip "*" _ a) by assumption.
    rewrite strip_tokens_hit2.
    rewrite (strip_tokens_skip "*" _ b) by assumption.
    rewrite strip_tokens_hit2.
    rewrite (strip_tokens_id "*" _ c) by assumption.
    rewrite (strip_tokens_id "_") by (rewrite !Hfree; repeat split; assumption || reflexivity).
    apply (strip_tokens_id "`"). rewrite !Hfree; repeat split; assumption || reflexivity.
  - rewrite (strip_tokens_skip "*" _ a) by assumption.
    rewrite strip_tokens_hit2.
    rewrite (strip_tokens_id "*" _ b) by assumption.
    rewrite (strip_tokens_id "_") by (rewrite !Hfree; repeat split; assumption || reflexivity).
    apply (strip_tokens_id "`"). rewrite !Hfree; repeat split; assumption || reflexivity.
  - rewrite (format_tokens_id "*") by (rewrite !Hfree; repeat split; assumption || reflexivity).
    rewrite (format_tokens_skip "_" _ _ _ a) by assumption.
    rewrite format_tokens_hit2.
    rewrite (format_tokens_skip "_" _ _ _ b) by assumption.
    rewrite format_tokens_hit2.
    rewrite (format_tokens_id "_" _ _ _ c) by assumption. cbn [Nat.even].
    apply (format_tokens_id "`"). rewrite !Hfree; repeat split; assumption || reflexivity.
  - rewrite (format_tokens_id "*") by (rewrite !Hfree; repeat split; assumption || reflexivity).
    rewrite (format_tokens_skip "_" _ _ _ a) by assumption.
    rewrite format_tokens_hit2.
    rewrite (format_tokens_id "_" _ _ _ b) by assumption. cbn [Nat.even].
    apply (format_tokens_id "`"). rewrite !Hfree; repeat split; assumption || reflexivity.
  - rewrite (strip_tokens_id "*") by (rewrite !Hfree; repeat split; assumption || reflexivity).
    rewrite (strip_tokens_skip "_" _ a) by assumption.
    rewrite strip_tokens_hit2.
    rewrite (strip_tokens_skip "_" _ b) by assumption.
    rewrite strip_tokens_hit2.
    rewrite (strip_tokens_id "_" _ c) by assumption.
    apply (strip_tokens_id "`"). rewrite !Hfree; repeat split; assumption || reflexivity.
  - rewrite (strip_tokens_id "*") by (rewrite !Hfree; repeat split; assumption || reflexivity).
    rewrite (strip_tokens_skip "_" _ a) by assumption.
    rewrite strip_tokens_hit2.
    rewrite (strip_tokens_id "_" _ b) by assumption.
    apply (strip_tokens_id "`"). rewrite !Hfree; repeat split; assumption || reflexivity.
  - rewrite (format_tokens_id "*") by (rewrite !Hfree; repeat split; assumption || reflexivity).
    rewrite (format_tokens_id "_") by (rewrite !Hfree; repeat split; assumption || reflexivity).
    rewrite (format_tokens_skip "`" _ _ _ a) by assumption.
    rewrite format_tokens_hit1.
    rewrite (format_tokens_skip "`" _ _ _ b) by assumption.
    rewrite format_tokens_hit1.
    rewrite (format_tokens_id "`" _ _ _ c) by assumption. reflexivity.
  - rewrite (format_tokens_id "*") by (rewrite !Hfree; repeat split; assumption || reflexivity).
    rewrite (format_tokens_id "_") by (rewrite !Hfree; repeat split; assumption || reflexivity).
    rewrite (format_tokens_skip "`" _ _ _ a) by assumption.
    rewrite format_tokens_hit1.
    rewrite (format_tokens_id "`" _ _ _ b) by assumption. reflexivity.
  - rewrite (strip_tokens_id "*") by (rewrite !Hfree; repeat split; assumption || reflexivity).
    rewrite (strip_tokens_id "_") by (rewrite !Hfree; repeat split; assumption || reflexivity).
    rewrite (strip_tokens_skip "`" _ a) by assumption.
    rewrite strip_tokens_hit1.
    rewrite (strip_tokens_skip "`" _ b) by assumption.
    rewrite strip_tokens_hit1.
    rewrite (strip_tokens_id "`" _ c) by assumption. reflexivity.
  - rewrite (strip_tokens_id "*") by (rewrite !Hfree; repeat split; assumption || reflexivity).
    rewrite (strip_tokens_id "_") by (rewrite !Hfree; repeat split; assumption || reflexivity).
    rewrite (strip_tokens_skip "`" _ a) by assumption.
    rewrite strip_tokens_hit1.
    rewrite (strip_tokens_id "`" _ b) by assumption. reflexivity.
Qed.

Lemma cli_format_pair_witness :
  cli_format terminal ("" ++ "**" ++ "OK" ++ "**" ++ " database created")
  = (if isatty_stdout terminal
     then "" ++ BOLD ++ "OK" ++ NORM ++ " database created"
     else "" ++ "OK" ++ " database created")
  /\
  cli_format terminal ("" ++ "**" ++ "OK")
  = (if isatty_stdout terminal then "" ++ BOLD ++ "OK" else "" ++ "OK").
Proof.
  apply (cli_format_pair terminal "**" BOLD "" "OK" " database created").
  - left. reflexivity.
  - reflexivity.
  - reflexivity.
  - reflexivity.
Defined.

End FormatFacts.

(** ** The UDP worker: every way a batch can end *)

Section MoreBatchFacts.
Import UdpServer.
Context {session : Type} `{ProtocolParser session}.
Local Open Scope list_scope.

(** A batch that is parsed to its end was handed over whole. *)
Lemma parse_batch_completed (parser parser' : pstate) (spout spout' : session)
    (msgs handed : list string) :
  parse_batch parser spout msgs = (Completed, parser', spout', handed) ->
  handed = msgs.
Proof.
  revert parser spout handed.
  induction msgs as [| buf rest IH]; intros parser spout handed; simpl.
  - intros Hp. injection Hp as _ _ <-. reflexivity.
  - destruct (parse_next parser spout buf) as [p1 s1 | | |]; try discriminate.
    destruct (parse_batch p1 s1 rest) as [[[e p] s] h] eqn:E.
    intros Hp. injection Hp as -> -> -> <-.
    f_equal. eapply IH. exact E.
Qed.

(** X22: whatever the parser does, the datagrams of a batch are handed to
    it in the order received, from the first one on, without a gap; at most
    one line is logged for a batch; and a batch that logged nothing was
    handed over whole, with the worker going on: no datagram is dropped
    without a line in the log. *)
Theorem batch_is_fed_in_order (spout : session) (msgs : list string) :
  (exists dropped, msgs = fed (handle_batch spout msgs) ++ dropped) /\
  (length (logged (handle_batch spout msgs)) <= 1)%nat /\
  (logged (handle_batch spout msgs) = [] ->
   fed (handle_batch spout msgs) = msgs /\
   continue (handle_batch spout msgs) = true).
Proof.
  unfold handle_batch.
  destruct (parse_batch_fed_prefix new_parser spout msgs) as [dropped Hd].
  destruct (parse_batch new_parser spout msgs) as [[[e p] s] h] eqn:E.
  cbn [snd] in Hd.
  destruct e; cbn [fed logged continue length].
  - split; [exists dropped; exact Hd |]. split; [lia |].
    intros _. split; [| reflexivity]. eapply parse_batch_completed. exact E.
  - split; [exists dropped; exact Hd |]. split; [lia |]. discriminate.
  - split; [exists dropped; exact Hd |]. split; [lia |]. discriminate.
Qed.

(** X23: a datagram the database rejects ([DatabaseError], a late write)
    ends its batch the way a malformed one does: the error is logged, the
    datagrams after it in the batch are not handed to the parser, the parser
    is closed and the worker goes on with the next batch. *)
Theorem database_error_ends_batch (spout : session) (log : list string)
    (before after : list string) (bad what : string) (parser : pstate)
    (s s' : session) (batches : list (list string)) :
  parse_batch new_parser spout before = (Completed, parser, s, before) ->
  parse_next parser s bad = DatabaseError what s' ->
  handle_batch spout (before ++ bad :: after)
    = {| continue := true; spout_after := close parser s';
         logged := [what]; fed := before ++ [bad] |} /\
  worker_batches spout log ((before ++ bad :: after) :: batches)
    = worker_batches (close parser s') (log ++ [what]) batches.
Proof.
  intros Hbefore Hbad.
  assert (Hhandle :
    handle_batch spout (before ++ bad :: after)
    = {| continue := true; spout_after := close parser s';
         logged := [what]; fed := before ++ [bad] |}).
  { unfold handle_batch.
    rewrite (parse_batch_app _ _ _ _ _ _ Hbefore). simpl. rewrite Hbad. reflexivity. }
  split; [exact Hhandle |].
  simpl. rewrite Hhandle. reflexivity.
Qed.

(** X24: an exception of [parse_next] that is neither [StreamError] nor
    [DatabaseError] ends the worker for good: it is logged by the outer
    handler, the parser of the batch is not closed, and neither the rest of
    the batch nor any later batch is handed to a parser. *)
Theorem other_exception_ends_worker (spout : session) (log : list string)
    (before after : list string) (bad what : string) (parser : pstate)
    (s s' : session) (batches : list (list string)) :
  parse_batch new_parser spout before = (Completed, parser, s, before) ->
  parse_next parser s bad = OtherError what s' ->
  handle_batch spout (before ++ bad :: after)
    = {| continue := false; spout_after := s';
         logged := [what]; fed := before ++ [bad] |} /\
  worker_batches spout log ((before ++ bad :: after) :: batches)
    = (s', log ++ [what]).
Proof.
  intros Hbefore Hbad.
  assert (Hhandle :
    handle_batch spout (before ++ bad :: after)
    = {| continue := false; spout_after := s';
         logged := [what]; fed := before ++ [bad] |}).
  { unfold handle_batch.
    rewrite (parse_batch_app _ _ _ _ _ _ Hbefore). simpl. rewrite Hbad. reflexivity. }
  split; [exact Hhandle |].
  simpl. rewrite Hhandle. reflexivity.
Qed.

End MoreBatchFacts.

Section MoreBatchWitnesses.
Import UdpServer MoreParsers.
Local Open Scope list_scope.

(** A batch of a valid datagram, a late write and another valid one,
    followed by a batch of one valid datagram. *)
Lemma database_error_ends_batch_witness :
  handle_batch (H := strict_parser) []
    (["+cpu host=a"] ++ "!cpu host=a" :: ["+mem host=a"])
    = {| continue := true; spout_after := ["+cpu host=a"];
         logged := ["late write"];
         fed := ["+cpu host=a"] ++ ["!cpu host=a"] |} /\
  worker_batches (H := strict_parser) [] []
    ((["+cpu host=a"] ++ "!cpu host=a" :: ["+mem host=a"]) :: [["+disk host=a"]])
    = worker_batches (H := strict_parser) ["+cpu host=a"] ([] ++ ["late write"])
        [["+disk host=a"]].
Proof.
  apply (database_error_ends_batch (H := strict_parser) [] []
           ["+cpu host=a"] ["+mem host=a"] "!cpu host=a" "late write" tt
           ["+cpu host=a"] ["+cpu host=a"] [["+disk host=a"]]);
    reflexivity.
Defined.

(** A batch of a valid datagram, an empty one and another valid one,
    followed by a batch of one valid datagram. *)
Lemma other_exception_ends_worker_witness :
  handle_batch (H := strict_parser) []
    (["+cpu host=a"] ++ "" :: ["+mem host=a"])
    = {| continue := false; spout_after := ["+cpu host=a"];
         logged := ["std::bad_alloc"];
         fed := ["+cpu host=a"] ++ [""] |} /\
  worker_batches (H := strict_parser) [] []
    ((["+cpu host=a"] ++ "" :: ["+mem host=a"]) :: [["+disk host=a"]])
    = (["+cpu host=a"], [] ++ ["std::bad_alloc"]).
Proof.
  apply (other_exception_ends_worker (H := strict_parser) [] []
           ["+cpu host=a"] ["+mem host=a"] "" "std::bad_alloc" tt
           ["+cpu host=a"] ["+cpu host=a"] [["+disk host=a"]]);
    reflexivity.
Defined.

End MoreBatchWitnesses.

(** ** The UDP server: the start barrier and the descriptor *)

Section StartProtocol.
Import UdpServer StartBarrier.
Context {session : Type} `{ProtocolParser session}.
Variable nworkers_ : nat.
Variable NPACKETS : nat.

Local Abbreviation step := (step nworkers_ NPACKETS).
Local Abbreviation reachable := (reachable nworkers_ NPACKETS).

Ltac step_cases Hstep :=
  inversion Hstep; subst; clear Hstep;
  cbn [stop_ sockfd_ workers starter stopper start_arrived stop_arrived net
       closed logger_ history alive set_worker emit log_lines set_stop_
       set_sockfd_ set_starter set_stopper arrive_start arrive_stop set_net
       close_fd terminate] in *.

(** The descriptor is closed by the last step of [stop()], as [sockfd_]
    stands then, and [sockfd_] does not change afterwards. *)
Lemma closed_is_sockfd (s : state session) :
  reachable s ->
  closed s = match stopper s with Returned => [sockfd_ s] | _ => [] end.
Proof.
  intros Hr. pattern s. eapply reachable_ind; [| | exact Hr]; clear s Hr.
  { intros sessions _. reflexivity. }
  intros s s' Hreach Hstep IH.
  pose proof (barrier_inv_reachable _ _ s Hreach) as (_ & _ & Hall).
  step_cases Hstep; try exact IH;
    try (match goal with Hpc : stopper s = _ |- _ =>
           rewrite Hpc in IH; rewrite IH; reflexivity end).
  - (* a worker binds its socket *)
    destruct (stopper s) eqn:Estop; try exact IH.
    match goal with Hi : workers s !! _ = Some ?w0, Hpc : pc ?w0 = Setup |- _ =>
      specialize (Hall eq_refl _ _ Hi); unfold arrived_at_stop in Hall;
      rewrite Hpc in Hall; discriminate end.
  - (* a worker fails to set its socket up *)
    destruct (stopper s) eqn:Estop; try exact IH.
    match goal with Hi : workers s !! _ = Some ?w0, Hpc : pc ?w0 = Setup |- _ =>
      specialize (Hall eq_refl _ _ Hi); unfold arrived_at_stop in Hall;
      rewrite Hpc in Hall; discriminate end.
Qed.

(** A full start barrier: the thread in [start()] and every worker have
    arrived. *)
Lemma start_full (ws : list (worker session)) (arrived : nat) (p : start_pc) :
  start_ok nworkers_ ws arrived p ->
  arrived = S nworkers_ ->
  start_waited p = true /\
  forall i w, ws !! i = Some w -> arrived_at_start w = true.
Proof.
  intros (Hlen & Harr) Hfull.
  pose proof (List.filter_length_le arrived_at_start ws) as Hle.
  destruct (start_waited p); [| lia].
  split; [reflexivity |]. apply all_counted. lia.
Qed.

(** A worker moves without reaching the start barrier. *)
Lemma start_holds_worker (ws : list (worker session)) (arrived : nat) (p : start_pc)
    (i : nat) (w w' : worker session) :
  start_holds nworkers_ ws arrived p ->
  ws !! i = Some w ->
  arrived_at_start w' = arrived_at_start w ->
  (passed_start w' = true -> passed_start w = true \/ arrived = S nworkers_) ->
  start_holds nworkers_ (<[i := w']> ws) arrived p.
Proof.
  intros ((Hlen & Harr) & Hret & Hpassed) Hi Hsame Hpass.
  split; [split |]; [rewrite length_insert; exact Hlen | | split].
  - pose proof (count_insert arrived_at_start ws i w w' Hi) as Hc.
    rewrite Hsame in Hc. destruct (arrived_at_start w); lia.
  - exact Hret.
  - intros j wj Hj Hpj.
    destruct (lookup_set_worker _ _ _ _ _ _ Hi Hj) as [[-> ->] | [Hne Hj']].
    + destruct (Hpass Hpj) as [Hw | Hfull]; [| exact Hfull].
      apply (Hpassed i w Hi Hw).
    + apply (Hpassed j wj Hj' Hpj).
Qed.

(** A worker reaches the start barrier. *)
Lemma start_holds_arrive (ws : list (worker session)) (arrived : nat) (p : start_pc)
    (i : nat) (w : worker session) :
  start_holds nworkers_ ws arrived p ->
  ws !! i = Some w ->
  pc w = AtStartBarrier ->
  start_holds nworkers_ (<[i := at_pc InStartBarrier w]> ws) (S arrived) p.
Proof.
  intros (Hok & Hret & Hpassed) Hi Hpc.
  assert (Hnot : arrived <> S nworkers_).
  { intros Hfull. destruct (start_full ws arrived p Hok Hfull) as [_ Hall].
    specialize (Hall i w Hi). unfold arrived_at_start in Hall.
    rewrite Hpc in Hall. discriminate. }
  destruct Hok as (Hlen & Harr).
  split; [split |]; [rewrite length_insert; exact Hlen | | split].
  - pose proof (count_insert arrived_at_start ws i w (at_pc InStartBarrier w) Hi) as Hc.
    unfold arrived_at_start in Hc at 2 4. cbn [pc at_pc] in Hc. rewrite Hpc in Hc. lia.
  - intros Hp. exfalso. apply Hnot, Hret, Hp.
  - intros j wj Hj Hpj. exfalso. apply Hnot.
    destruct (lookup_set_worker _ _ _ _ _ _ Hi Hj) as [[-> ->] | [Hne Hj']].
    + discriminate.
    + apply (Hpassed j wj Hj' Hpj).
Qed.

Lemma start_inv_reachable (s : state session) :
  reachable s -> start_inv nworkers_ s.
Proof.
  intros Hr. pattern s. eapply reachable_ind; [| | exact Hr]; clear s Hr.
  { intros sessions Hlen. unfold start_inv, start_holds, start_ok. cbn.
    split; [split |]; [rewrite length_map; exact Hlen | | split].
    - clear Hlen. induction sessions as [| x xs IH]; [reflexivity | exact IH].
    - discriminate.
    - intros i w Hw. apply init_lookup in Hw. unfold passed_start.
      rewrite Hw. discriminate. }
  intros s s' Hreach Hstep IH. unfold start_inv in *.
  step_cases Hstep; try exact IH;
    try (eapply start_holds_worker; [exact IH | eassumption | |];
         unfold arrived_at_start, passed_start; cbn [pc at_pc];
         match goal with Hpc : pc _ = _ |- _ => rewrite Hpc end;
         [reflexivity | intros _; left; reflexivity]).
  - (* a worker arrives *)
    eapply start_holds_arrive; [exact IH | eassumption | assumption].
  - (* a worker passes *)
    eapply start_holds_worker; [exact IH | eassumption | |];
      unfold arrived_at_start, passed_start; cbn [pc at_pc];
      match goal with Hpc : pc _ = _ |- _ => rewrite Hpc end;
      [reflexivity | intros _; right; assumption].
  - (* parse *)
    eapply start_holds_worker; [exact IH | eassumption | |];
      unfold arrived_at_start, passed_start; cbn [pc at_pc];
      match goal with Hpc : pc _ = _ |- _ => rewrite Hpc end;
      subst r; destruct (continue _); try reflexivity; intros _; left; reflexivity.
  - (* start() arrives *)
    match goal with Hpc : starter s = _ |- _ => rewrite Hpc in IH end.
    destruct IH as (Hok & Hret & Hpassed).
    assert (Hnot : start_arrived s <> S nworkers_).
    { intros Hfull. destruct (start_full _ _ _ Hok Hfull) as [Hw _]. discriminate. }
    destruct Hok as (Hlen & Harr).
    split; [split |]; [exact Hlen | cbn in *; lia | split].
    + discriminate.
    + intros j wj Hj Hpj. exfalso. apply Hnot, (Hpassed j wj Hj Hpj).
  - (* start() passes *)
    match goal with Hpc : starter s = _ |- _ => rewrite Hpc in IH end.
    destruct IH as ((Hlen & Harr) & Hret & Hpassed).
    split; [split |]; [exact Hlen | exact Harr | split].
    + intros _. assumption.
    + exact Hpassed.
Qed.

End StartProtocol.

(** X25: [stop()] closes a descriptor once, as its last step, and it is
    the value [sockfd_] holds then: every worker stores its socket in this
    one field, so of the sockets the workers of a server opened at most one
    is closed, and it is [-1] that is closed if no worker has set the
    field. *)
Theorem descriptor_closed_once {session : Type} `{UdpServer.ProtocolParser session}
    (nworkers_ NPACKETS : nat) (s : UdpServer.state session) :
  UdpServer.reachable nworkers_ NPACKETS s ->
  UdpServer.closed s
  = match UdpServer.stopper s with
    | UdpServer.Returned => [UdpServer.sockfd_ s]
    | _ => []
    end.
Proof. apply closed_is_sockfd. Qed.

(** X26: [start()] returns only when every worker thread has reached the
    start barrier, and no worker goes past the barrier (to create and bind
    its socket) before [start()] and all the other workers have reached
    it. *)
Theorem start_barrier_holds {session : Type} `{UdpServer.ProtocolParser session}
    (nworkers_ NPACKETS : nat) (s : UdpServer.state session) :
  UdpServer.reachable nworkers_ NPACKETS s ->
  (UdpServer.starter s = UdpServer.StartReturned ->
   forall i w, UdpServer.workers s !! i = Some w ->
               StartBarrier.arrived_at_start w = true) /\
  (forall i w, UdpServer.workers s !! i = Some w ->
     StartBarrier.passed_start w = true ->
     StartBarrier.start_waited (UdpServer.starter s) = true /\
     forall j wj, UdpServer.workers s !! j = Some wj ->
                  StartBarrier.arrived_at_start wj = true).
Proof.
  intros Hreach.
  destruct (start_inv_reachable _ _ s Hreach) as (Hok & Hret & Hpassed).
  split.
  - intros Hp. apply (start_full _ _ _ _ Hok (Hret Hp)).
  - intros i w Hi Hw. apply (start_full _ _ _ _ Hok (Hpassed i w Hi Hw)).
Qed.

Section IdleServer.
Import UdpServer StartBarrier MoreParsers.
Context {session : Type} `{ProtocolParser session}.
Variable NPACKETS : nat.

Ltac step_cases Hstep :=
  inversion Hstep; subst; clear Hstep;
  cbn [stop_ sockfd_ workers starter stopper start_arrived stop_arrived net
       closed logger_ history alive set_worker emit log_lines set_stop_
       set_sockfd_ set_starter set_stopper arrive_start arrive_stop set_net
       close_fd terminate] in *.

(** A server built for no worker has none, sets no socket and records the
    events of [stop()] only. *)
Lemma idle_inv (s : state session) :
  reachable 0 NPACKETS s ->
  workers s = [] /\ sockfd_ s = None /\
  Forall (fun e => actor e = None) (history s).
Proof.
  intros Hr. pattern s. eapply reachable_ind; [| | exact Hr]; clear s Hr.
  { intros sessions Hlen. destruct sessions; [| discriminate].
    cbn. repeat split. constructor. }
  intros s s' Hreach Hstep (Hws & Hfd & Hev).
  step_cases Hstep;
    try (match goal with Hi : workers s !! _ = Some _ |- _ =>
           rewrite Hws in Hi; discriminate end);
    repeat split; try assumption;
    repeat (constructor; [reflexivity |]); assumption.
Qed.

End IdleServer.

(** X27: a UDP server built with a worker count of 0 (a [pool_size] of 0)
    starts and stops, but no thread of it ever binds a socket, receives or
    parses a datagram, and what [stop()] closes is the descriptor [-1]. *)
Theorem no_worker_no_traffic {session : Type} `{UdpServer.ProtocolParser session}
    (NPACKETS : nat) (s : UdpServer.state session) :
  UdpServer.reachable 0 NPACKETS s ->
  UdpServer.workers s = [] /\
  (forall e, In e (UdpServer.history s) -> UdpServer.actor e = None) /\
  (forall fd, In fd (UdpServer.closed s) -> fd = None).
Proof.
  intros Hreach.
  destruct (idle_inv _ s Hreach) as (Hws & Hfd & Hev).
  split; [exact Hws |]. split.
  - intros e He. rewrite List.Forall_forall in Hev. apply Hev, He.
  - intros fd Hin. rewrite (closed_is_sockfd _ _ s Hreach) in Hin.
    destruct (UdpServer.stopper s); try destruct Hin.
    + congruence.
    + contradiction.
Qed.

Section MoreServerWitnesses.
Import UdpServer StartBarrier MoreParsers.

Local Tactic Notation "go" open_constr(c) :=
  eapply rtc_l; [ eapply c; try reflexivity; try (cbn; lia) | cbn ].

(** The run that leads to [idle_server]. *)
Lemma idle_server_reachable : reachable 0 2 idle_server.
Proof.
  exists []. split; [reflexivity |].
  go (start_arrive 0 2).
  go (start_pass 0 2).
  go (stop_called 0 2).
  go (stop_store 0 2).
  go (stop_send 0 2).
  go (stop_arrive 0 2).
  go (stop_pass 0 2).
  go (stop_log 0 2).
  go (stop_close 0 2).
  apply rtc_refl.
Qed.

Lemma no_worker_no_traffic_witness :
  workers idle_server = [] /\
  (forall e, In e (history idle_server) -> actor e = None) /\
  (forall fd, In fd (closed idle_server) -> fd = None).
Proof.
  apply (no_worker_no_traffic (H := line_parser) 2 idle_server).
  exact idle_server_reachable.
Defined.

Lemma descriptor_closed_once_witness :
  closed stopped_server
  = match stopper stopped_server with
    | Returned => [sockfd_ stopped_server]
    | _ => []
    end.
Proof.
  apply (descriptor_closed_once (H := line_parser) 1 2 stopped_server).
  exact stopped_server_reachable.
Defined.

Lemma start_barrier_holds_witness :
  (starter stopped_server = StartReturned ->
   forall i w, workers stopped_server !! i = Some w -> arrived_at_start w = true) /\
  (forall i w, workers stopped_server !! i = Some w ->
     passed_start w = true ->
     start_waited (starter stopped_server) = true /\
     forall j wj, workers stopped_server !! j = Some wj ->
                  arrived_at_start wj = true).
Proof.
  apply (start_barrier_holds (H := line_parser) 1 2 stopped_server).
  exact stopped_server_reachable.
Defined.

End MoreServerWitnesses.

(** ** What the generated configurations hold *)

Section GeneratedFacts.
Import ConfigFile Daemon Scenario MoreScenarios Expected.
Local Open Scope string_scope.
Local Open Scope Z_scope.



End GeneratedFacts.





(** ** Starting the servers *)

Section RunServersFacts.
Import ConfigFile Daemon Scenario MoreScenarios Expected Effects.
Local Open Scope string_scope.
Local Open Scope Z_scope.

Variable env : environ.

Ltac proc_unfold :=
  unfold mbind, proc_mbind, proc_bind, mret, proc_mret, proc_ret, lift, throw,
    exit in *.







End RunServersFacts.

Section RunServersWitnesses.
Import ConfigFile Daemon Scenario MoreScenarios Expected Effects.
Local Open Scope Z_scope.


End RunServersWitnesses.
